(** * minimal_latency_in_sequence_buffer: a shallow embedding

    The development follows the headers of the library:
    - [types.hpp]                              (records, enums, [remove_indices]),
    - [stream_characteristics_estimator.hpp]   (module [Estimator]),
    - [fixed_lag_buffer.hpp]                   (module [FixedLagBuffer]),
    - [minimal_latency_buffer.hpp]             (module [MinimalLatencyBuffer]).

    Conventions.
    - [Time] and [Duration] are counts of nanoseconds.  The C++ representation
      is [int64_t]; signed overflow is undefined there, so the counts are
      modelled by [Z] and agree with the program as long as no overflow occurs.
    - [double] is the kernel's binary64 type [float].
    - [std::size_t] indices and counters are [nat].
    - [SourceId] is the default template argument [std::size_t].
    - A call whose behaviour the C++ standard leaves undefined (an iterator
      range whose end precedes its start, an iterator past the end) is the
      outcome [None], and so is the [std::out_of_range] of an access
      [at(idx)] beyond the end.
    - [std::sort] is an insertion sort.  The order it gives to equal
      elements is one of those the standard allows; the properties rest on
      its result being sorted and a permutation of its input, never on the
      order of equal elements.
    - A [std::unordered_map] is an association list; the order in which the
      program iterates over one is a parameter, [iteration_order].
    - The quantile of a normal distribution and [hypot], which come from
      Boost and the C library, are parameters as well. *)

From Stdlib Require Import ZArith List Bool Arith Lia Permutation Sorted.
From Stdlib Require Import Floats Uint63.
Import ListNotations.

Set Implicit Arguments.

(* ################################################################# *)
(** * types.hpp *)

Definition Time : Type := Z.
Definition Duration : Type := Z.
Definition SourceId : Type := nat.

(** [Time{ std::chrono::seconds(0) }] *)
Definition epoch : Time := 0%Z.

Inductive BufferMode : Type :=
| SINGLE
| BATCH
| MATCH.

Inductive PushReturn : Type :=
| OK
| RESET.

Definition BufferMode_eqb (a b : BufferMode) : bool :=
  match a, b with
  | SINGLE, SINGLE | BATCH, BATCH | MATCH, MATCH => true
  | _, _ => false
  end.

Module TimeData.
Record t (Data : Type) : Type := make
    { id : SourceId;
      meas_time : Time;
    receipt_time : Time;
      earliest_estimated_meas_time : Time;
      latest_receipt_time : Time;
      data : option Data;
      created_placeholder : bool }.

Arguments make {Data}.
Arguments id {Data}.
Arguments meas_time {Data}.
Arguments receipt_time {Data}.
Arguments earliest_estimated_meas_time {Data}.
Arguments latest_receipt_time {Data}.
Arguments data {Data}.
Arguments created_placeholder {Data}.

Definition is_placeholder {Data} (e : t Data) : bool :=
    match data e with
    | Some _ => false
    | None => true
    end.

(** [element.created_placeholder = b] *)
Definition set_created_placeholder {Data} (b : bool) (e : t Data) : t Data :=
    make (id e) (meas_time e) (receipt_time e) (earliest_estimated_meas_time e)
         (latest_receipt_time e) (data e) b.

(** The aggregate [TimeData_t{id, meas_time, receipt_time, meas_time,
    receipt_time, std::move(data)}] both buffers build for a pushed sample. *)
Definition of_sample {Data} (i : SourceId) (receipt meas : Time) (d : Data) : t Data :=
    make i meas receipt meas receipt (Some d) false.
End TimeData.

Module PopReturn.
Record t (Data : Type) : Type := make
    { buffer_time : Time;
      data : list (TimeData.t Data);
      discarded_data : list (TimeData.t Data) }.
Arguments make {Data}.
Arguments buffer_time {Data}.
Arguments data {Data}.
Arguments discarded_data {Data}.
End PopReturn.

Module BatchParams.
Record t : Type := make { max_delta : Duration }.
End BatchParams.

Module MatchParams.
Record t : Type := make { reference_stream : SourceId; num_streams : nat }.
End MatchParams.

(** [static_cast<double>(n)] for a 64-bit count [n]. *)
Definition Z_to_double (z : Z) : float :=
  if (z <? 0)%Z
  then PrimFloat.opp (PrimFloat.of_uint63 (Uint63.of_Z (- z)))
  else PrimFloat.of_uint63 (Uint63.of_Z z).

(** [static_cast<int64_t>(x)]: truncation towards zero.  The conversion of an
    infinity or a NaN is undefined in C++; it is 0 here.  That of a finite
    value beyond the 64 bits is undefined as well; here it is the truncated
    value, the counts being unbounded. *)
Definition double_to_rep (x : float) : Z :=
  match Prim2SF x with
  | S754_finite s m e =>
      let v := if (0 <=? e)%Z then (Z.pos m * 2 ^ e)%Z else (Z.pos m / 2 ^ (- e))%Z in
      if s then (- v)%Z else v
  | _ => 0%Z
  end.

(** [std::chrono::duration<double>(d).count()]: nanoseconds to seconds. *)
Definition duration_seconds (d : Duration) : float :=
  (Z_to_double d / 1e9)%float.

Module MatchMapEntry.
(** [tau] is a [double] initialised to [numeric_limits<double>::max()].
    The only values ever stored are 0 and [duration_seconds] of a 64-bit
    count, all of them far below that maximum, so the fresh value is kept
    symbolic: [None] is [numeric_limits<double>::max()]. *)
Record t : Type := make { idx : nat; tau : option float }.

(** What [matching_map[key]] creates for a missing key. *)
Definition fresh : t := make 0 None.

(** [d < entry.tau] *)
Definition below_tau (d : float) (e : t) : bool :=
    match tau e with
    | None => true
    | Some v => (d <? v)%float
    end.
End MatchMapEntry.

(** [std::unordered_map<SourceId, MatchMapEntry>], as the list of its entries
    in insertion order (keys are unique).  The order in which the container
    is iterated is unspecified; the buffers take it as a parameter. *)
Definition MatchingMap : Type := list (SourceId * MatchMapEntry.t).

Fixpoint map_find {V : Type} (k : SourceId) (m : list (SourceId * V)) : option V :=
  match m with
  | [] => None
  | (k', v) :: m' => if Nat.eqb k k' then Some v else map_find k m'
  end.

(** Assignment through the reference returned by [m[k]] (or by [find]). *)
Fixpoint map_set {V : Type} (k : SourceId) (v : V) (m : list (SourceId * V))
  : list (SourceId * V) :=
  match m with
  | [] => [(k, v)]
  | (k', v') :: m' => if Nat.eqb k k' then (k, v) :: m' else (k', v') :: map_set k v m'
  end.

Definition map_keys {V : Type} (m : list (SourceId * V)) : list SourceId := map fst m.

(** [m[k]]: the entry of [k], created as [MatchMapEntry{}] when missing. *)
Definition map_index (k : SourceId) (m : MatchingMap) : MatchMapEntry.t * MatchingMap :=
  match map_find k m with
  | Some e => (e, m)
  | None => (MatchMapEntry.fresh, map_set k MatchMapEntry.fresh m)
  end.

(** [std::chrono::abs] *)
Definition chrono_abs (d : Duration) : Duration := Z.abs d.

(** ** remove_indices *)

(** [std::sort] on indices. *)
Fixpoint insert_index (i : nat) (l : list nat) : list nat :=
  match l with
  | [] => [i]
  | j :: l' => if Nat.leb i j then i :: j :: l' else j :: insert_index i l'
  end.

Definition sort_indices (l : list nat) : list nat := fold_right insert_index [] l.

Section RemoveIndices.
Context {T : Type}.

(** [std::move(first, last, std::back_inserter(output))] over iterators
    [vec.begin() + first] and [vec.begin() + last].  The standard requires
    [[first, last)] to be a valid range of [vec]. *)
Definition move_block (vec : list T) (first last : nat) (output : list T) : option (list T) :=
    if Nat.leb first last && Nat.leb last (length vec)
    then Some (output ++ firstn (last - first) (skipn first vec))
    else None.

(** The [for] loop over the sorted indices; returns [output] and
    [block_start]. *)
Fixpoint copy_blocks (vec : list T) (idxs : list nat) (block_start : nat) (output : list T)
    : option (list T * nat) :=
    match idxs with
    | [] => Some (output, block_start)
    | idx :: rest =>
        let block_end := idx in
        let moved :=
          if Nat.eqb block_start block_end then Some output
          else move_block vec block_start block_end output in
        match moved with
        | Some output' => copy_blocks vec rest (block_end + 1) output'
        | None => None
        end
    end.

Definition remove_indices (vec : list T) (idxs : list nat) : option (list T) :=
    match idxs with
    | [] => Some vec
    | _ :: _ =>
        match copy_blocks vec (sort_indices idxs) 0 [] with
        | Some (output, block_start) =>
            if Nat.eqb block_start (length vec) then Some output
            else move_block vec block_start (length vec) output
        | None => None
        end
    end.

(** The elements of [vec] (whose first element has position [pos]) at the
    positions that are not in [idxs], in their order. *)
Fixpoint drop_positions (idxs : list nat) (pos : nat) (vec : list T) : list T :=
    match vec with
    | [] => []
    | x :: vec' =>
        if existsb (Nat.eqb pos) idxs then drop_positions idxs (S pos) vec'
        else x :: drop_positions idxs (S pos) vec'
    end.
End RemoveIndices.


(** ** The sample queue *)

Definition IndexList : Type := list nat.

Section Queue.
Context {Data : Type}.

(** [std::sort(_data.begin(), _data.end(), MeasTimeComparator_t())].
    [std::sort] leaves the order of samples with equal [meas_time]
    unspecified; the insertion sort of this model gives one of the orders
    that are allowed. *)
Fixpoint insert_by_meas_time (x : TimeData.t Data) (l : list (TimeData.t Data))
  : list (TimeData.t Data) :=
  match l with
  | [] => [x]
  | y :: l' =>
      if (TimeData.meas_time x <? TimeData.meas_time y)%Z then x :: y :: l'
      else y :: insert_by_meas_time x l'
  end.

Definition sort_by_meas_time (l : list (TimeData.t Data)) : list (TimeData.t Data) :=
  fold_right insert_by_meas_time [] l.

(** [_data.at(idx)] for each index of a list, in its order; [None] when
    [at] throws [std::out_of_range]. *)
Fixpoint elements_at (queue : list (TimeData.t Data)) (inds : IndexList)
  : option (list (TimeData.t Data)) :=
  match inds with
  | [] => Some []
  | idx :: rest =>
      match nth_error queue idx, elements_at queue rest with
      | Some e, Some es => Some (e :: es)
      | _, _ => None
      end
  end.

(** [result.data.back().meas_time], when [result.data] is not empty. *)
Definition last_meas_time (out : list (TimeData.t Data)) (otherwise : Time) : Time :=
  match rev out with
  | [] => otherwise
  | e :: _ => TimeData.meas_time e
  end.

(** The first loop of [runMatching], over the indices that are ready for
    output: the oldest sample of the reference stream ([ref_idx] with its
    [oldest_ref_meas_time]) and, when the loop reaches a second one, its
    [next_ref_meas_time].  [found] is [found_ref] with the values set so far. *)
Fixpoint find_reference (reference_stream : SourceId) (queue : list (TimeData.t Data))
  (ready : IndexList) (found : option (nat * Time))
  : option (option (nat * Time) * option Time) :=
  match ready with
  | [] => Some (found, None)
  | idx :: rest =>
      match nth_error queue idx with
      | None => None
      | Some element =>
          if Nat.eqb (TimeData.id element) reference_stream then
            match found with
            | None =>
                find_reference reference_stream queue rest
                  (Some (idx, TimeData.meas_time element))
            | Some _ => Some (found, Some (TimeData.meas_time element))
            end
          else find_reference reference_stream queue rest found
      end
  end.

(** One step on the matching map for a sample that is no reference and does
    not fit the next reference better: [compare = matching_map[element.id]],
    then the update of [compare] when the sample is closer. *)
Definition take_if_closer (sample_id : SourceId) (idx : nat) (current_diff : Duration)
  (m : MatchingMap) : MatchingMap :=
  let (compare, m1) := map_index sample_id m in
  let current_diff_double := duration_seconds current_diff in
  if MatchMapEntry.below_tau current_diff_double compare
  then map_set sample_id (MatchMapEntry.make idx (Some current_diff_double)) m1
  else m1.

(** [std::transform(matching_map.begin(), matching_map.end(), ...)]: the
    [idx] of every entry, in the order [iteration_order] gives to the keys. *)
Definition tuple_of (iteration_order : list SourceId -> list SourceId) (m : MatchingMap)
  : IndexList :=
  flat_map (fun k => match map_find k m with
                     | Some e => [MatchMapEntry.idx e]
                     | None => []
                     end)
           (iteration_order (map_keys m)).
End Queue.

(* ################################################################# *)
(** * stream_characteristics_estimator.hpp *)

Module Estimator.

Record State : Type := mkState { mean : float; variance : float }.

Record t : Type := make
  { _num_updates : nat;
    _last_meas_time : Time;
    _current_time : Time;
    _alpha : float;
    _period_state : State;
    _latency_state : State }.

(** The default argument [alpha = 0.05]. *)
Definition default_alpha : float := 0x1.999999999999ap-5%float.

(** The constructor. *)
Definition new (current_time meas_time : Time) (alpha : float) : t :=
  make 0 meas_time current_time alpha
       (mkState 0 0) (mkState (Z_to_double (current_time - meas_time)) 0).

(** Member functions mutate the estimator and may throw
    [std::runtime_error]: a computation takes the estimator and returns what
    became of it together with either a value or the exception. *)
Inductive result (A : Type) : Type :=
| Returned (a : A)
| Thrown.
Arguments Thrown {A}.

Definition M (A : Type) : Type := t -> result A * t.

Definition ret {A} (a : A) : M A := fun e => (Returned a, e).
Definition throw {A} : M A := fun e => (Thrown, e).
Definition get : M t := fun e => (Returned e, e).
Definition put (e' : t) : M unit := fun _ => (Returned tt, e').
Definition bind {A B} (c : M A) (k : A -> M B) : M B :=
  fun e => match c e with
           | (Returned a, e') => k a e'
           | (Thrown, e') => (Thrown, e')
           end.

Notation "x <- c ;; k" := (bind c (fun x => k))
  (at level 61, c at next level, right associativity).
Notation "c ;;; k" := (bind c (fun _ => k))
  (at level 61, right associativity).

Definition set_period_state (s : State) : M unit :=
  e <- get ;;
  put (make (_num_updates e) (_last_meas_time e) (_current_time e) (_alpha e)
            s (_latency_state e)).

Definition set_latency_state (s : State) : M unit :=
  e <- get ;;
  put (make (_num_updates e) (_last_meas_time e) (_current_time e) (_alpha e)
            (_period_state e) s).

(** [std::pow(x, 2)] *)
Definition square (x : float) : float := (x * x)%float.

(** [static_cast<double>(n)] for a [std::size_t]. *)
Definition size_to_double (n : nat) : float := Z_to_double (Z.of_nat n).

Definition latency (e : t) : Duration := double_to_rep (mean (_latency_state e)).
Definition latency_stddev (e : t) : Duration :=
  double_to_rep (PrimFloat.sqrt (variance (_latency_state e))).
Definition period (e : t) : Duration := double_to_rep (mean (_period_state e)).
Definition period_stddev (e : t) : Duration :=
  double_to_rep (PrimFloat.sqrt (variance (_period_state e))).
Definition getNumUpdates (e : t) : nat := _num_updates e.
Definition isInitialized (e : t) : bool := Nat.leb 2 (_num_updates e).

(** [latency_quantile] and [period_quantile]; [normal_quantile mean sd p] is
    [boost::math::quantile(boost::math::normal_distribution(mean, sd), p)]. *)
Definition latency_quantile (normal_quantile : float -> float -> float -> float)
  (quantile : float) (e : t) : Duration :=
  if (variance (_latency_state e) =? 0)%float then latency e
  else double_to_rep
         (normal_quantile (mean (_latency_state e))
            (PrimFloat.sqrt (variance (_latency_state e))) quantile).

Definition period_quantile (normal_quantile : float -> float -> float -> float)
  (quantile : float) (e : t) : Duration :=
  if (variance (_period_state e) =? 0)%float then period e
  else double_to_rep
         (normal_quantile (mean (_period_state e))
            (PrimFloat.sqrt (variance (_period_state e))) quantile).

Definition updateEstimates (alpha : float) (state : State) (estimate : float)
  (update_variance : bool) : State :=
  let diff := (estimate - mean state)%float in
  let increment := (alpha * diff)%float in
  let mean' := (mean state + increment)%float in
  let variance' :=
    if update_variance then ((1 - alpha) * (variance state + diff * increment))%float
    else variance state in
  mkState mean' variance'.

Definition updatePeriodEstimate (estimate : float) (num_missing_measurements : nat) : M unit :=
  e <- get ;;
  if Nat.eqb (_num_updates e) 0 then
    set_period_state (mkState estimate (variance (_period_state e)))
  else if Nat.eqb (_num_updates e) 1 then
    let first_estimate := mean (_period_state e) in
    let s := updateEstimates (_alpha e) (_period_state e) estimate false in
    set_period_state
      (mkState (mean s)
               (square (first_estimate - mean s) + square (estimate - mean s))%float)
  else
    let corrected_estimate :=
      (estimate - size_to_double num_missing_measurements * mean (_period_state e))%float in
    if (corrected_estimate <? 0)%float then
      if Nat.ltb 10 (_num_updates e) then throw else ret tt
    else
      set_period_state (updateEstimates (_alpha e) (_period_state e) corrected_estimate true).

Definition updateLatencyEstimate (estimate : float) : M unit :=
  e <- get ;;
  if Nat.eqb (_num_updates e) 0 then
    let s := updateEstimates (_alpha e) (_latency_state e) estimate false in
    let first_estimate := Z_to_double (_current_time e - _last_meas_time e) in
    set_latency_state
      (mkState (mean s)
               (square (first_estimate - mean s) + square (estimate - mean s))%float)
  else
    set_latency_state (updateEstimates (_alpha e) (_latency_state e) estimate true).

(** [_last_meas_time = meas_time; _current_time = current_time;] and, when
    [count] is set, [_num_updates++]. *)
Definition advance (current_time meas_time : Time) (count : bool) : M unit :=
  e <- get ;;
  put (make (if count then S (_num_updates e) else _num_updates e)
            meas_time current_time (_alpha e) (_period_state e) (_latency_state e)).

Definition update (current_time meas_time : Time) (num_missing_measurement : nat) : M unit :=
  e <- get ;;
  let estimated_latency := Z_to_double (current_time - meas_time) in
  let estimated_period := Z_to_double (meas_time - _last_meas_time e) in
  updatePeriodEstimate estimated_period num_missing_measurement ;;;
  updateLatencyEstimate estimated_latency ;;;
  advance current_time meas_time true.

Definition updateLatencyOnly (current_time meas_time : Time) : M unit :=
  let estimated_latency := Z_to_double (current_time - meas_time) in
  updateLatencyEstimate estimated_latency ;;;
  advance current_time meas_time false.

End Estimator.

(* ################################################################# *)
(** * fixed_lag_buffer.hpp *)

Module FixedLagBuffer.

Record Params : Type := mkParams
  { mode : BufferMode;
    reset_threshold : Duration;
    delay_mean : Duration;
    delay_stddev : Duration;
    delay_quantile : float;
    batch : BatchParams.t;
    match_ : MatchParams.t }.

Section Buffer.
Variable Data : Type.

(** [boost::math::quantile(boost::math::normal_distribution(mean, sd), p)],
    a function of the Boost library. *)
Variable normal_quantile : float -> float -> float -> float.

(** The order in which a [std::unordered_map] with the given keys (listed in
    insertion order) is iterated. *)
Variable iteration_order : list SourceId -> list SourceId.

Record t : Type := make
  { _params : Params;
    _data : list (TimeData.t Data);
    _fixed_lag_delay : Duration;
    _buffer_time : Time;
    _current_time : Time }.

(** [std::numeric_limits<double>::epsilon()] *)
Definition double_epsilon : float := 0x1p-52%float.

(** The constructor. *)
Definition new (params : Params) : t :=
  let lag := delay_mean params in
  let lag :=
    if BufferMode_eqb (mode params) BATCH
    then (lag + BatchParams.max_delta (batch params))%Z else lag in
  let stddev := duration_seconds (delay_stddev params) in
  let lag :=
    if (double_epsilon <? stddev)%float then
      let latency_quantile :=
        normal_quantile 0 stddev (1 - (1 - delay_quantile params) / 2)%float in
      (lag + double_to_rep (latency_quantile * 1e9)%float)%Z
    else lag in
  make params [] lag epoch epoch.

Definition reset (b : t) : t :=
  make (_params b) [] (_fixed_lag_delay b) epoch epoch.

Definition getBufferTime (b : t) : Time := _buffer_time b.
Definition getCurrentTime (b : t) : Time := _current_time b.
Definition getNumberOfQueuedElements (b : t) : nat := length (_data b).

Definition push (b : t) (id : SourceId) (receipt_time meas_time : Time) (data : Data)
  : PushReturn * t :=
  if (reset_threshold (_params b) <? _current_time b - receipt_time)%Z then
    (RESET, reset b)
  else
    let new_element := TimeData.of_sample id receipt_time meas_time data in
    (OK, make (_params b) (sort_by_meas_time (_data b ++ [new_element]))
              (_fixed_lag_delay b) (_buffer_time b) (_current_time b)).

(** The first loop of [pop], from index [idx] over the remaining samples:
    returns [(output_inds, discard_inds)]. *)
Fixpoint select (buffer_time ref_meas_time : Time) (idx : nat)
  (rest : list (TimeData.t Data)) (output_inds discard_inds : IndexList)
  : IndexList * IndexList :=
  match rest with
  | [] => (output_inds, discard_inds)
  | element :: rest' =>
      if (TimeData.meas_time element <=? buffer_time)%Z then
        select buffer_time ref_meas_time (S idx) rest' output_inds (discard_inds ++ [idx])
      else if (TimeData.meas_time element <=? ref_meas_time)%Z then
        select buffer_time ref_meas_time (S idx) rest' (output_inds ++ [idx]) discard_inds
      else (output_inds, discard_inds)
  end.

(** The loop of the batch branch, from index [idx] over the remaining
    samples. *)
Fixpoint extend_batch (batch_reference_time : Time) (idx : nat)
  (rest : list (TimeData.t Data)) (batch : IndexList) : IndexList :=
  match rest with
  | [] => batch
  | element :: rest' =>
      extend_batch batch_reference_time (S idx) rest'
        (if (TimeData.meas_time element <? batch_reference_time)%Z
         then batch ++ [idx] else batch)
  end.

(** The batch branch of [pop]; [front] is [output_inds.front()]. *)
Definition run_batch (b : t) (front : nat) : option IndexList :=
  match nth_error (_data b) front with
  | None => None
  | Some oldest =>
      let oldest_output_time := TimeData.meas_time oldest in
      let batch_reference_time :=
        (oldest_output_time + BatchParams.max_delta (batch (_params b)))%Z in
      Some (extend_batch batch_reference_time (front + 1)
              (skipn (front + 1) (_data b)) [front])
  end.

(** The search of the samples behind [ref_idx] for the next sample of the
    reference stream. *)
Fixpoint search_next_reference (reference_stream : SourceId)
  (rest : list (TimeData.t Data)) : option Time :=
  match rest with
  | [] => None
  | element :: rest' =>
      if Nat.eqb (TimeData.id element) reference_stream
      then Some (TimeData.meas_time element)
      else search_next_reference reference_stream rest'
  end.

(** [next_ref_meas_time] once the reference is known; [next_in_ready] is what
    the loop over the ready indices found. *)
Definition next_reference_time (b : t) (ref_idx : nat) (next_in_ready : option Time) : Time :=
  match next_in_ready with
  | Some next => next
  | None =>
      match search_next_reference (MatchParams.reference_stream (match_ (_params b)))
              (skipn (ref_idx + 1) (_data b)) with
      | Some next => next
      | None => epoch
      end
  end.

(** The matching loop, from index [idx] over the remaining samples: returns
    the matching map and [found_better_for_next]. *)
Fixpoint match_scan (reference_stream : SourceId) (oldest_ref_meas_time next_ref_meas_time : Time)
  (idx : nat) (rest : list (TimeData.t Data)) (matching_map : MatchingMap)
  : MatchingMap * bool :=
  match rest with
  | [] => (matching_map, false)
  | element :: rest' =>
      if Nat.eqb (TimeData.id element) reference_stream then
        match_scan reference_stream oldest_ref_meas_time next_ref_meas_time (S idx) rest'
          matching_map
      else
        let current_diff := chrono_abs (TimeData.meas_time element - oldest_ref_meas_time)%Z in
        let next_diff := chrono_abs (TimeData.meas_time element - next_ref_meas_time)%Z in
        if (next_diff <? current_diff)%Z then
          match map_find (TimeData.id element) matching_map with
          | None => (matching_map, true)
          | Some _ => (matching_map, false)
          end
        else
          match_scan reference_stream oldest_ref_meas_time next_ref_meas_time (S idx) rest'
            (take_if_closer (TimeData.id element) idx current_diff matching_map)
  end.

(** The decision of [runMatching] for a tuple that is not complete. *)
Definition incomplete_tuple (found_better_for_next : bool) (ref_idx : nat)
  : IndexList * IndexList :=
  ([], if found_better_for_next then [ref_idx] else []).

(** The part of [runMatching] behind the search for the two reference
    times: the matching loop and the decision. *)
Definition match_from (b : t) (ref_idx : nat) (oldest_ref_meas_time next_ref_meas_time : Time)
  : IndexList * IndexList :=
  let reference_stream := MatchParams.reference_stream (match_ (_params b)) in
  let matching_map : MatchingMap :=
    [(reference_stream, MatchMapEntry.make ref_idx (Some 0%float))] in
  let (matching_map, found_better_for_next) :=
    match_scan reference_stream oldest_ref_meas_time next_ref_meas_time 0 (_data b)
      matching_map in
  if negb (Nat.eqb (length matching_map) (MatchParams.num_streams (match_ (_params b))))
  then incomplete_tuple found_better_for_next ref_idx
  else (tuple_of iteration_order matching_map, []).

(** Returns [(tuple_inds, delete_inds)]. *)
Definition runMatching (b : t) (ready_for_output_inds : IndexList)
  : option (IndexList * IndexList) :=
  let reference_stream := MatchParams.reference_stream (match_ (_params b)) in
  match find_reference reference_stream (_data b) ready_for_output_inds None with
  | None => None
  | Some (None, _) => Some ([], [])
  | Some (Some (ref_idx, oldest_ref_meas_time), next_in_ready) =>
      Some (match_from b ref_idx oldest_ref_meas_time
              (next_reference_time b ref_idx next_in_ready))
  end.

(** The index lists [pop] arrives at before it moves anything out of the
    queue: [(output_inds, discard_inds)]. *)
Definition pop_indices (b : t) (time : Time) : option (IndexList * IndexList) :=
  let ref_meas_time := (time - _fixed_lag_delay b)%Z in
  let (output_inds, discard_inds) :=
    select (_buffer_time b) ref_meas_time 0 (_data b) [] [] in
  match mode (_params b), output_inds with
  | BATCH, front :: _ =>
      match run_batch b front with
      | Some batch => Some (batch, discard_inds)
      | None => None
      end
  | MATCH, _ :: _ =>
      match runMatching b output_inds with
      | Some (tuple_inds, delete_inds) => Some (tuple_inds, discard_inds ++ delete_inds)
      | None => None
      end
  | _, _ => Some (output_inds, discard_inds)
  end.

(** [None]: the call does not return ([at] throws, or [remove_indices] is
    undefined). *)
Definition pop (b : t) (time : Time) : option (PopReturn.t Data * t) :=
  match pop_indices b time with
  | None => None
  | Some (output_inds, discard_inds) =>
      match elements_at (_data b) output_inds, elements_at (_data b) discard_inds with
      | Some data, Some discarded_data =>
          let buffer_time := last_meas_time data (_buffer_time b) in
          match remove_indices (_data b) (discard_inds ++ output_inds) with
          | Some remaining =>
              Some (PopReturn.make buffer_time data discarded_data,
                    make (_params b) (sort_by_meas_time remaining) (_fixed_lag_delay b)
                         buffer_time (_current_time b))
          | None => None
          end
      | _, _ => None
      end
  end.

End Buffer.
End FixedLagBuffer.

(* ################################################################# *)
(** * minimal_latency_buffer.hpp *)

Module MinimalLatencyBuffer.

Record Params : Type := mkParams
  { mode : BufferMode;
    reset_threshold : Duration;
    measurement_confidence_quantile : float;
    max_abs_measurement_jitter : Duration;
    wait_confidence_quantile : float;
    max_abs_wait_jitter : Duration;
    max_total_wait_time : Duration;
    batch : BatchParams.t;
    match_ : MatchParams.t }.

Definition MAX_INSERTED_PLACEHOLDERS : nat := 10.

(** [std::clamp(v, lo, hi)] *)
Definition clamp (v lo hi : Duration) : Duration :=
  if (v <? lo)%Z then lo else if (hi <? v)%Z then hi else v.

(** [vec[i] = x] through the reference [vec.at(i)]. *)
Fixpoint assign_at {T : Type} (i : nat) (x : T) (vec : list T) : list T :=
  match vec, i with
  | [], _ => []
  | _ :: vec', 0 => x :: vec'
  | y :: vec', S i' => y :: assign_at i' x vec'
  end.

Section Buffer.
Variable Data : Type.

(** [boost::math::quantile(boost::math::normal_distribution(mean, sd), p)]
    and [std::hypot], functions of Boost and of the C++ library. *)
Variable normal_quantile : float -> float -> float -> float.
Variable hypot : float -> float -> float.

(** The order in which a [std::unordered_map] with the given keys (listed in
    insertion order) is iterated. *)
Variable iteration_order : list SourceId -> list SourceId.

Record t : Type := make
  { _params : Params;
    _data : list (TimeData.t Data);
    _source_infos : list (SourceId * Estimator.t);
    _buffer_time : Time;
    _current_time : Time }.

Definition new (params : Params) : t := make params [] [] epoch epoch.

Definition reset (b : t) : t := make (_params b) [] [] epoch epoch.

Definition getBufferTime (b : t) : Time := _buffer_time b.
Definition total_size (b : t) : nat := length (_data b).
Definition getNumberOfQueuedElements (b : t) : nat :=
  length (filter (fun e => negb (TimeData.is_placeholder e)) (_data b)).
Definition getEstimatedBufferTime (b : t) : Time :=
  match _data b with
  | [] => _buffer_time b
  | front :: _ => TimeData.meas_time front
  end.

(** [Time::max()] *)
Definition Time_max : Time := 9223372036854775807%Z.

Definition getEarliestHoldBackReceptionTime (b : t) : Time :=
  fold_left (fun min_receipt_time element =>
               if TimeData.is_placeholder element then min_receipt_time
               else Z.min min_receipt_time (TimeData.receipt_time element))
            (_data b) Time_max.

(** The getters of the estimates of a source: [Duration(0)] for a source the
    buffer does not know. *)
Definition estimate_of (query : Estimator.t -> Duration) (b : t) (id : SourceId) : Duration :=
  match map_find id (_source_infos b) with
  | Some estimator => query estimator
  | None => 0%Z
  end.

Definition getEstimatedLatency : t -> SourceId -> Duration := estimate_of Estimator.latency.
Definition getEstimatedLatencyStddev : t -> SourceId -> Duration :=
  estimate_of Estimator.latency_stddev.
Definition getEstimatedLatencyQuantile (b : t) (id : SourceId) (quantile : float) : Duration :=
  estimate_of (Estimator.latency_quantile normal_quantile quantile) b id.
Definition getEstimatedPeriod : t -> SourceId -> Duration := estimate_of Estimator.period.
Definition getEstimatedPeriodStddev : t -> SourceId -> Duration :=
  estimate_of Estimator.period_stddev.
Definition getEstimatedPeriodQuantile (b : t) (id : SourceId) (quantile : float) : Duration :=
  estimate_of (Estimator.period_quantile normal_quantile quantile) b id.

(** The body of [createPlaceholder] behind its two checks, for the
    estimator of the source. *)
Definition placeholder_of (params : Params) (estimator : Estimator.t)
  (id : SourceId) (meas_time : Time) (placeholder_index : nat) : TimeData.t Data :=
  let period_offset := (Z.of_nat placeholder_index * Estimator.period estimator)%Z in
  let period_variance :=
    Estimator.square (Z_to_double (Estimator.period_stddev estimator)) in
  let period_stddev_sum :=
    PrimFloat.sqrt (Estimator.size_to_double placeholder_index * period_variance)%float in
  let meas_quantile_limited :=
    if (0 <? period_stddev_sum)%float then
      let meas_quantile :=
        normal_quantile 0 period_stddev_sum
          ((1 - measurement_confidence_quantile params) / 2)%float in
      clamp (double_to_rep meas_quantile)
            (- max_abs_measurement_jitter params)%Z (max_abs_measurement_jitter params)
    else 0%Z in
  let wait_quantile_limited :=
    if (0 <? Estimator.latency_stddev estimator)%Z then
      let wait_stddev :=
        hypot period_stddev_sum (Z_to_double (Estimator.latency_stddev estimator)) in
      let wait_quantile :=
        normal_quantile 0 wait_stddev
          (1 - (1 - wait_confidence_quantile params) / 2)%float in
      clamp (double_to_rep wait_quantile)
            (- max_abs_wait_jitter params)%Z (max_abs_wait_jitter params)
    else 0%Z in
  let earliest_expected_meas_time :=
    (meas_time + period_offset + meas_quantile_limited)%Z in
  let latest_expected_reception_time :=
    (meas_time + period_offset
     + Z.min (Estimator.latency estimator + wait_quantile_limited)
             (max_total_wait_time params))%Z in
  TimeData.make id earliest_expected_meas_time latest_expected_reception_time
                earliest_expected_meas_time latest_expected_reception_time None false.

(** [None]: [_source_infos.at(id)] or the check of [isInitialized] throws. *)
Definition createPlaceholder (b : t) (id : SourceId) (meas_time : Time)
  (placeholder_index : nat) : option (TimeData.t Data) :=
  match map_find id (_source_infos b) with
  | None => None
  | Some estimator =>
      if Estimator.isInitialized estimator
      then Some (placeholder_of (_params b) estimator id meas_time placeholder_index)
      else None
  end.

(** The loop of [create_placeholders] from index [i], with [remaining]
    rounds left. *)
Fixpoint placeholder_loop (b : t) (estimator : Estimator.t) (id : SourceId)
  (meas_time : Time) (i remaining : nat) (out : list (TimeData.t Data))
  : list (TimeData.t Data) :=
  match remaining with
  | 0 => out
  | S remaining' =>
      let placeholder :=
        TimeData.set_created_placeholder true
          (placeholder_of (_params b) estimator id meas_time i) in
      let earliest_expected_meas_time :=
        TimeData.earliest_estimated_meas_time placeholder in
      if (_buffer_time b <? earliest_expected_meas_time)%Z
      then out ++ [TimeData.set_created_placeholder false placeholder]
      else placeholder_loop b estimator id meas_time (S i) remaining' (out ++ [placeholder])
  end.

(** Returns the element (its flag possibly set) and the new placeholders.
    The loop calls [createPlaceholder] for a source the check before it found
    initialised, so [createPlaceholder] returns [placeholder_of] of that
    estimator. *)
Definition create_placeholders (b : t) (element : TimeData.t Data) (max_number : nat)
  : TimeData.t Data * list (TimeData.t Data) :=
  match map_find (TimeData.id element) (_source_infos b) with
  | None => (element, [])
  | Some estimator =>
      if negb (Estimator.isInitialized estimator) || TimeData.created_placeholder element
      then (element, [])
      else (TimeData.set_created_placeholder true element,
            placeholder_loop b estimator (TimeData.id element)
              (TimeData.meas_time element) 1 max_number [])
  end.

(** The search of [push] for the placeholder that fits best, from index [i]
    over the remaining samples.  [best] is [best_ind] with the sample at that
    index. *)
Fixpoint find_best_placeholder (id : SourceId) (meas_time : Time) (i : nat)
  (rest : list (TimeData.t Data)) (min : Duration)
  (best : option (nat * TimeData.t Data)) (num_missed_placeholder : nat)
  : option (nat * TimeData.t Data) * nat :=
  match rest with
  | [] => (best, num_missed_placeholder)
  | sample :: rest' =>
      if Nat.eqb (TimeData.id sample) id && TimeData.is_placeholder sample then
        let num_missed :=
          if (TimeData.meas_time sample <? meas_time)%Z
          then S num_missed_placeholder else num_missed_placeholder in
        let distance := chrono_abs (TimeData.meas_time sample - meas_time)%Z in
        if (distance <? min)%Z
        then find_best_placeholder id meas_time (S i) rest' distance (Some (i, sample)) num_missed
        else find_best_placeholder id meas_time (S i) rest' min best num_missed
      else find_best_placeholder id meas_time (S i) rest' min best num_missed_placeholder
  end.

(** The sample [push] drops when it deletes the older placeholders. *)
Definition is_stale_placeholder (id : SourceId) (meas_time : Time) (sample : TimeData.t Data)
  : bool :=
  Nat.eqb (TimeData.id sample) id && TimeData.is_placeholder sample
  && (TimeData.meas_time sample <? meas_time)%Z.

Definition push (b : t) (id : SourceId) (receipt_time meas_time : Time) (data : Data)
  : PushReturn * t :=
  if (reset_threshold (_params b) <? _current_time b - receipt_time)%Z then
    (RESET, reset b)
  else
    let current_time := Z.max (_current_time b) receipt_time in
    match map_find id (_source_infos b) with
    | None =>
        let infos :=
          map_set id (Estimator.new receipt_time meas_time Estimator.default_alpha)
                  (_source_infos b) in
        let queue := _data b ++ [TimeData.of_sample id receipt_time meas_time data] in
        (OK, make (_params b) (sort_by_meas_time queue) infos (_buffer_time b) current_time)
    | Some estimator =>
        let min := Z.quot (Estimator.period estimator) 2 in
        let (best, num_missed_placeholder) :=
          find_best_placeholder id meas_time 0 (_data b) min None 0 in
        let num_missed_placeholder :=
          match best with
          | Some (_, old) =>
              if Nat.ltb 0 num_missed_placeholder
                 && (TimeData.meas_time old <? meas_time)%Z
              then num_missed_placeholder - 1 else num_missed_placeholder
          | None => num_missed_placeholder
          end in
        let queue :=
          match best with
          | Some (best_ind, old) =>
              let element :=
                TimeData.make (TimeData.id old) meas_time receipt_time
                  (TimeData.earliest_estimated_meas_time old)
                  (TimeData.latest_receipt_time old) (Some data)
                  (TimeData.created_placeholder old) in
              let (element, new_placeholders) :=
                create_placeholders b element MAX_INSERTED_PLACEHOLDERS in
              assign_at best_ind element (_data b) ++ new_placeholders
          | None =>
              let new_element := TimeData.of_sample id receipt_time meas_time data in
              let (new_element, new_placeholders) :=
                create_placeholders b new_element MAX_INSERTED_PLACEHOLDERS in
              _data b ++ new_placeholders ++ [new_element]
          end in
        (* try ... catch (const std::runtime_error&): the estimator stays as
           the throwing call left it *)
        let estimator :=
          if negb (Estimator.isInitialized estimator) then
            snd (Estimator.update receipt_time meas_time 0 estimator)
          else
            match best with
            | Some _ =>
                snd (Estimator.update receipt_time meas_time num_missed_placeholder estimator)
            | None => snd (Estimator.updateLatencyOnly receipt_time meas_time estimator)
            end in
        let cleaned_data :=
          filter (fun sample => negb (is_stale_placeholder id meas_time sample)) queue in
        (OK, make (_params b) (sort_by_meas_time cleaned_data)
                  (map_set id estimator (_source_infos b)) (_buffer_time b) current_time)
    end.

(** The variables of the first loop of [pop]: [time_] is [time], and [_queue]
    is [_data] with the samples visited so far as [create_placeholders] left
    them. *)
Record Scan : Type := mkScan
  { time_ : Time;
    output_inds : IndexList;
    discard_inds : IndexList;
    delete_inds : IndexList;
    cleaned_data : list (TimeData.t Data);
    _queue : list (TimeData.t Data) }.

(** The first loop of [pop], from index [i] over the remaining samples. *)
Fixpoint scan (b : t) (i : nat) (rest : list (TimeData.t Data)) (s : Scan) : Scan :=
  match rest with
  | [] => s
  | element :: rest' =>
      let older := (TimeData.meas_time element <? _buffer_time b)%Z in
      let stop :=
        if older then false
        else if TimeData.is_placeholder element
             then (time_ s <=? TimeData.receipt_time element)%Z
             else (time_ s <? TimeData.meas_time element)%Z in
      if stop then
        mkScan (time_ s) (output_inds s) (discard_inds s) (delete_inds s) (cleaned_data s)
               (_queue s ++ rest)
      else
        let output :=
          if negb older && negb (TimeData.is_placeholder element)
          then output_inds s ++ [i] else output_inds s in
        let discard :=
          if older && negb (TimeData.is_placeholder element)
          then discard_inds s ++ [i] else discard_inds s in
        let delete :=
          if older && negb (TimeData.is_placeholder element)
          then delete_inds s ++ [i] else delete_inds s in
        let (element', new_placeholders) :=
          create_placeholders b element MAX_INSERTED_PLACEHOLDERS in
        let time' :=
          match rev new_placeholders with
          | [] => time_ s
          | last :: _ => Z.min (time_ s) (TimeData.meas_time last)
          end in
        scan b (S i) rest'
          (mkScan time' output discard delete (cleaned_data s ++ new_placeholders)
                  (_queue s ++ [element']))
  end.

(** The loop of [runBatching] from [offset_iter]: whether a placeholder is
    worth waiting for. *)
Fixpoint find_placeholder_in_batch (max_delta : Duration) (batch_start_time time : Time)
  (rest : list (TimeData.t Data)) : bool :=
  match rest with
  | [] => false
  | element :: rest' =>
      if negb (TimeData.is_placeholder element) then
        find_placeholder_in_batch max_delta batch_start_time time rest'
      else if (TimeData.earliest_estimated_meas_time element - batch_start_time <? max_delta)%Z
              && (time <? TimeData.latest_receipt_time element)%Z
      then true
      else find_placeholder_in_batch max_delta batch_start_time time rest'
  end.

(** [queue] is [_data] at the call. *)
Definition runBatching (b : t) (queue : list (TimeData.t Data))
  (ready_for_output_ids : IndexList) (time : Time) : option IndexList :=
  match ready_for_output_ids with
  | [] => None
  | front :: _ =>
      match nth_error queue front with
      | None => None
      | Some first =>
          let batch_start_time := TimeData.meas_time first in
          let back := last ready_for_output_ids 0 in
          if Nat.ltb (length queue) back then None
          else if find_placeholder_in_batch (BatchParams.max_delta (batch (_params b)))
                    batch_start_time time (skipn back queue)
          then Some []
          else Some ready_for_output_ids
      end
  end.

(** The loop of [runMatching] over the indices that are ready for output:
    returns the matching map and [latest_data_idx]. *)
Fixpoint match_ready (reference_stream : SourceId)
  (oldest_ref_meas_time next_ref_meas_time : Time)
  (queue : list (TimeData.t Data)) (ready : IndexList) (matching_map : MatchingMap)
  (latest_data_idx : nat) : option (MatchingMap * nat) :=
  match ready with
  | [] => Some (matching_map, latest_data_idx)
  | idx :: rest =>
      match nth_error queue idx with
      | None => None
      | Some element =>
          if Nat.eqb (TimeData.id element) reference_stream then
            match_ready reference_stream oldest_ref_meas_time next_ref_meas_time queue rest
              matching_map idx
          else
            let current_diff :=
              chrono_abs (TimeData.meas_time element - oldest_ref_meas_time)%Z in
            let next_diff :=
              chrono_abs (TimeData.meas_time element - next_ref_meas_time)%Z in
            if (next_diff <? current_diff)%Z then Some (matching_map, idx)
            else
              match_ready reference_stream oldest_ref_meas_time next_ref_meas_time queue rest
                (take_if_closer (TimeData.id element) idx current_diff matching_map) idx
      end
  end.

(** The loop of [runMatching] over the samples behind [latest_data_idx]:
    returns the matching map and [found_better_sample]. *)
Fixpoint match_waiting (reference_stream : SourceId) (oldest_ref_meas_time next_ref_meas_time : Time)
  (rest : list (TimeData.t Data)) (matching_map : MatchingMap) : MatchingMap * bool :=
  match rest with
  | [] => (matching_map, false)
  | element :: rest' =>
      if Nat.eqb (TimeData.id element) reference_stream then
        match_waiting reference_stream oldest_ref_meas_time next_ref_meas_time rest' matching_map
      else
        let current_diff :=
          chrono_abs (TimeData.meas_time element - oldest_ref_meas_time)%Z in
        let next_diff :=
          chrono_abs (TimeData.meas_time element - next_ref_meas_time)%Z in
        if (next_diff <? current_diff)%Z then (matching_map, false)
        else
          let (compare, matching_map') := map_index (TimeData.id element) matching_map in
          if MatchMapEntry.below_tau (duration_seconds current_diff) compare
          then (matching_map', true)
          else match_waiting reference_stream oldest_ref_meas_time next_ref_meas_time rest'
                 matching_map'
  end.

(** [next_ref_meas_time] once the reference is known; [next_in_ready] is what
    the loop over the ready indices found. *)
Definition next_reference_time (b : t) (oldest_ref_meas_time : Time)
  (next_in_ready : option Time) : Time :=
  match next_in_ready with
  | Some next => next
  | None =>
      match map_find (MatchParams.reference_stream (match_ (_params b))) (_source_infos b) with
      | Some estimator => (oldest_ref_meas_time + Estimator.period estimator)%Z
      | None => epoch
      end
  end.

(** The part of [runMatching] behind the search for the two reference
    times: the two matching loops and the decision.  [ready] is the sorted
    list of ready indices. *)
Definition match_from (b : t) (queue : list (TimeData.t Data)) (ready : IndexList)
  (ref_idx : nat) (oldest_ref_meas_time next_ref_meas_time : Time)
  : option (IndexList * IndexList) :=
  let reference_stream := MatchParams.reference_stream (match_ (_params b)) in
  let matching_map : MatchingMap :=
    [(reference_stream, MatchMapEntry.make ref_idx (Some 0%float))] in
  match match_ready reference_stream oldest_ref_meas_time next_ref_meas_time queue ready
          matching_map 0 with
  | None => None
  | Some (matching_map, latest_data_idx) =>
      let (matching_map, found_better_sample) :=
        match_waiting reference_stream oldest_ref_meas_time next_ref_meas_time
          (skipn (latest_data_idx + 1) queue) matching_map in
      if negb (Nat.eqb (length matching_map) (length (_source_infos b)))
      then Some ([], [ref_idx])
      else if found_better_sample then Some ([], [])
      else Some (tuple_of iteration_order matching_map, [])
  end.

(** Returns [(tuple_inds, delete_inds)]; [queue] is [_data] at the call. *)
Definition runMatching (b : t) (queue : list (TimeData.t Data))
  (ready_for_output_ids : IndexList) : option (IndexList * IndexList) :=
  let reference_stream := MatchParams.reference_stream (match_ (_params b)) in
  let ready := sort_indices ready_for_output_ids in
  match find_reference reference_stream queue ready None with
  | None => None
  | Some (None, _) => Some ([], [])
  | Some (Some (ref_idx, oldest_ref_meas_time), next_in_ready) =>
      match_from b queue ready ref_idx oldest_ref_meas_time
        (next_reference_time b oldest_ref_meas_time next_in_ready)
  end.

(** What [pop] has decided before it moves anything out of the queue:
    the scan with the index lists as the batch or match branch left them. *)
Definition pop_indices (b : t) (time : Time) : option Scan :=
  let s := scan b 0 (_data b) (mkScan time [] [] [] [] []) in
  match mode (_params b), output_inds s with
  | BATCH, _ :: _ =>
      match runBatching b (_queue s) (output_inds s) (time_ s) with
      | Some output =>
          Some (mkScan (time_ s) output (discard_inds s) (delete_inds s)
                       (cleaned_data s) (_queue s))
      | None => None
      end
  | MATCH, _ :: _ =>
      match runMatching b (_queue s) (output_inds s) with
      | Some (tuple_inds, to_delete) =>
          Some (mkScan (time_ s) tuple_inds (discard_inds s ++ to_delete)
                       (delete_inds s ++ to_delete) (cleaned_data s) (_queue s))
      | None => None
      end
  | _, _ => Some s
  end.

(** [None]: the call does not return ([at] throws, or [remove_indices] is
    undefined). *)
Definition pop (b : t) (time : Time) : option (PopReturn.t Data * t) :=
  if (time <? _current_time b)%Z then
    Some (PopReturn.make (_buffer_time b) [] [], b)
  else
    match pop_indices b time with
    | None => None
    | Some s =>
        match elements_at (_queue s) (output_inds s),
              elements_at (_queue s) (discard_inds s) with
        | Some output, Some discarded_data =>
            match remove_indices (_queue s) (delete_inds s ++ output_inds s) with
            | Some remaining =>
                let buffer_time := last_meas_time output (_buffer_time b) in
                Some (PopReturn.make buffer_time output discarded_data,
                      make (_params b) (sort_by_meas_time (remaining ++ cleaned_data s))
                           (_source_infos b) buffer_time (_current_time b))
            | None => None
            end
        | _, _ => None
        end
    end.

End Buffer.
End MinimalLatencyBuffer.

(* ################################################################# *)
(** * Vocabulary of the properties *)

Section Vocabulary.
Context {Data : Type}.

Definition meas_le (a b : TimeData.t Data) : Prop :=
  (TimeData.meas_time a <= TimeData.meas_time b)%Z.

(** The queue invariant: ascending [meas_time]. *)
Definition queue_sorted (queue : list (TimeData.t Data)) : Prop :=
  StronglySorted meas_le queue.

(** A list of indices in queue order. *)
Definition ascending (inds : IndexList) : Prop := StronglySorted lt inds.

(** Every index of [inds] is at least [lo] and holds a sample with [P]. *)
Definition all_at (queue : list (TimeData.t Data)) (P : TimeData.t Data -> Prop)
  (lo : nat) (inds : IndexList) : Prop :=
  Forall (fun i => lo <= i /\ exists e, nth_error queue i = Some e /\ P e) inds.


(** The first index of [inds] that holds a sample of the stream, with the
    sample's [meas_time] and the indices behind it. *)
Fixpoint first_of_stream (stream : SourceId) (queue : list (TimeData.t Data))
  (inds : IndexList) : option (nat * Time * IndexList) :=
  match inds with
  | [] => None
  | i :: rest =>
      match nth_error queue i with
      | Some e =>
          if Nat.eqb (TimeData.id e) stream then Some (i, TimeData.meas_time e, rest)
          else first_of_stream stream queue rest
      | None => None
      end
  end.

(** The [meas_time] of the next sample of the stream among [inds]. *)
Definition next_of_stream (stream : SourceId) (queue : list (TimeData.t Data))
  (inds : IndexList) : option Time :=
  match first_of_stream stream queue inds with
  | Some (_, t, _) => Some t
  | None => None
  end.

(** The [meas_time] of the next sample of the stream behind position [idx]
    of the queue. *)
Definition next_behind (stream : SourceId) (queue : list (TimeData.t Data)) (idx : nat)
  : option Time :=
  match find (fun e => Nat.eqb (TimeData.id e) stream) (skipn (idx + 1) queue) with
  | Some e => Some (TimeData.meas_time e)
  | None => None
  end.

(** [e] lies closer to the next reference time than to the current one. *)
Definition fits_next_better (t_ref t_next : Time) (e : TimeData.t Data) : bool :=
  (chrono_abs (TimeData.meas_time e - t_next) <? chrono_abs (TimeData.meas_time e - t_ref))%Z.

(** Scanning [queue] from its first sample and passing over the samples of
    the reference stream, the first sample that fits the next reference
    better belongs to a source of which the scan has met no sample before
    and which is not among [known]. *)
Definition new_source_fits_next (reference_stream : SourceId) (t_ref t_next : Time)
  (known : list SourceId) (queue : list (TimeData.t Data)) : Prop :=
  exists pre e post,
    queue = pre ++ e :: post
    /\ TimeData.id e <> reference_stream
    /\ fits_next_better t_ref t_next e = true
    /\ (forall x, In x pre -> TimeData.id x <> reference_stream ->
                  fits_next_better t_ref t_next x = false /\ TimeData.id x <> TimeData.id e)
    /\ ~ In (TimeData.id e) known.

(** The placeholders of a source in a queue. *)
Definition placeholders_of (s : SourceId) (queue : list (TimeData.t Data))
  : list (TimeData.t Data) :=
  filter (fun e => Nat.eqb (TimeData.id e) s && TimeData.is_placeholder e) queue.

(** The samples of a queue that carry data. *)
Definition real_samples (queue : list (TimeData.t Data)) : list (TimeData.t Data) :=
  filter (fun e => negb (TimeData.is_placeholder e)) queue.

(** The samples of a queue as they were pushed: source, receipt time,
    measurement time and data. *)
Definition pushed_samples (queue : list (TimeData.t Data))
  : list (SourceId * Time * Time * Data) :=
  flat_map (fun e =>
              match TimeData.data e with
              | Some d => [(TimeData.id e, TimeData.receipt_time e, TimeData.meas_time e, d)]
              | None => []
              end) queue.

(** A placeholder stands at its earliest estimated [meas_time] and carries
    its latest receipt time as [receipt_time]. *)
Definition placeholder_shaped (e : TimeData.t Data) : Prop :=
  TimeData.is_placeholder e = true ->
  TimeData.meas_time e = TimeData.earliest_estimated_meas_time e
  /\ TimeData.receipt_time e = TimeData.latest_receipt_time e.

(** What the invariant of the minimal-latency buffer says of one sample:
    its source has an estimator among [infos], and if it is a placeholder it
    has the shape of one. *)
Definition well_formed_sample (infos : list (SourceId * Estimator.t)) (e : TimeData.t Data)
  : Prop :=
  In (TimeData.id e) (map_keys infos) /\ placeholder_shaped e.

(** A placeholder is not waited for longer than [max_total_wait_time] and
    [max_abs_measurement_jitter] behind the [meas_time] it stands at. *)
Definition bounded_wait (params : MinimalLatencyBuffer.Params) (e : TimeData.t Data) : Prop :=
  TimeData.is_placeholder e = true ->
  (TimeData.receipt_time e - TimeData.meas_time e
   <= MinimalLatencyBuffer.max_total_wait_time params
      + MinimalLatencyBuffer.max_abs_measurement_jitter params)%Z.

(** The minimal-latency buffer with another [mode] in its parameters. *)
Definition with_mode (mode : BufferMode) (b : MinimalLatencyBuffer.t Data)
  : MinimalLatencyBuffer.t Data :=
  let p := MinimalLatencyBuffer._params b in
  MinimalLatencyBuffer.make
    (MinimalLatencyBuffer.mkParams mode
       (MinimalLatencyBuffer.reset_threshold p)
       (MinimalLatencyBuffer.measurement_confidence_quantile p)
       (MinimalLatencyBuffer.max_abs_measurement_jitter p)
       (MinimalLatencyBuffer.wait_confidence_quantile p)
       (MinimalLatencyBuffer.max_abs_wait_jitter p)
       (MinimalLatencyBuffer.max_total_wait_time p)
       (MinimalLatencyBuffer.batch p) (MinimalLatencyBuffer.match_ p))
    (MinimalLatencyBuffer._data b) (MinimalLatencyBuffer._source_infos b)
    (MinimalLatencyBuffer._buffer_time b) (MinimalLatencyBuffer._current_time b).

(** How far the [meas_time] of a sample lies from [t]. *)
Definition distance_to (t : Time) (e : TimeData.t Data) : Duration :=
  chrono_abs (TimeData.meas_time e - t)%Z.
End Vocabulary.

(** The states a fixed-lag buffer reaches from its constructor by calls of
    [push] and [pop]. *)
Section FixedLagRuns.
Variable Data : Type.
Variable normal_quantile : float -> float -> float -> float.
Variable iteration_order : list SourceId -> list SourceId.

Inductive fixed_lag_reachable : FixedLagBuffer.t Data -> Prop :=
| fl_reach_new : forall params,
    fixed_lag_reachable (FixedLagBuffer.new Data normal_quantile params)
| fl_reach_push : forall b id receipt_time meas_time data,
    fixed_lag_reachable b ->
    fixed_lag_reachable (snd (FixedLagBuffer.push b id receipt_time meas_time data))
| fl_reach_pop : forall b time r b',
    fixed_lag_reachable b ->
    FixedLagBuffer.pop iteration_order b time = Some (r, b') ->
    fixed_lag_reachable b'.
End FixedLagRuns.

(** The states a minimal-latency buffer reaches from its constructor. *)
Section MinimalLatencyRuns.
Variable Data : Type.
Variable normal_quantile : float -> float -> float -> float.
Variable hypot : float -> float -> float.
Variable iteration_order : list SourceId -> list SourceId.

Inductive minimal_latency_reachable : MinimalLatencyBuffer.t Data -> Prop :=
| ml_reach_new : forall params,
    minimal_latency_reachable (MinimalLatencyBuffer.new Data params)
| ml_reach_push : forall b id receipt_time meas_time data,
    minimal_latency_reachable b ->
    minimal_latency_reachable
      (snd (MinimalLatencyBuffer.push normal_quantile hypot b id receipt_time meas_time data))
| ml_reach_pop : forall b time r b',
    minimal_latency_reachable b ->
    MinimalLatencyBuffer.pop normal_quantile hypot iteration_order b time = Some (r, b') ->
    minimal_latency_reachable b'.
End MinimalLatencyRuns.

(** ** Vocabulary of the estimator and the buffers *)

(** [corrected_estimate] of [updatePeriodEstimate], as [update] calls it. *)
Definition corrected_estimate (e : Estimator.t) (meas_time : Time) (num_missing : nat) : float :=
  (Z_to_double (meas_time - Estimator._last_meas_time e)
   - Estimator.size_to_double num_missing
     * Estimator.mean (Estimator._period_state e))%float.

(** The estimator after an update that skipped the period. *)
Definition latency_only_step (e : Estimator.t) (current_time meas_time : Time)
  : Estimator.t :=
  Estimator.make (S (Estimator._num_updates e)) meas_time current_time (Estimator._alpha e)
    (Estimator._period_state e)
    (Estimator.updateEstimates (Estimator._alpha e) (Estimator._latency_state e)
       (Z_to_double (current_time - meas_time)) true).

(** [e'] is [e], possibly with [created_placeholder] set. *)
Definition flagged {Data : Type} (e e' : TimeData.t Data) : Prop :=
  e' = e \/ e' = TimeData.set_created_placeholder true e.

(** Every entry of the map points into [inds]. *)
Definition entries_in (inds : IndexList) (m : MatchingMap) : Prop :=
  Forall (fun kv => In (MatchMapEntry.idx (snd kv)) inds) m.

(** Every entry of the map holds the index of a sample of its source, and no
    source has two entries. *)
Definition entries_own {Data : Type} (queue : list (TimeData.t Data)) (m : MatchingMap)
  : Prop :=
  NoDup (map_keys m)
  /\ Forall (fun kv => exists x, nth_error queue (MatchMapEntry.idx (snd kv)) = Some x
                                /\ TimeData.id x = fst kv) m.

(** An iteration over a map that visits no key twice. *)
Definition visits_once (iteration_order : list SourceId -> list SourceId) : Prop :=
  forall keys, NoDup keys -> NoDup (iteration_order keys).

(** The samples ready for output at [time] and the samples to delete, as
    [pop] has them after its policy step. *)
Definition ready_sample {Data : Type} (b : MinimalLatencyBuffer.t Data) (time : Time)
  (e : TimeData.t Data) : Prop :=
  (MinimalLatencyBuffer._buffer_time b <= TimeData.meas_time e)%Z
  /\ TimeData.is_placeholder e = false
  /\ (TimeData.meas_time e <= time)%Z.

Definition late_sample {Data : Type} (b : MinimalLatencyBuffer.t Data)
  (e : TimeData.t Data) : Prop :=
  (TimeData.meas_time e < MinimalLatencyBuffer._buffer_time b)%Z
  /\ TimeData.is_placeholder e = false.

(** [t_next] as the fixed-lag buffer determines it. *)
Definition fixed_lag_next_time {Data : Type} (b : FixedLagBuffer.t Data)
  (ref_idx : nat) (behind : IndexList) : Time :=
  let stream := MatchParams.reference_stream (FixedLagBuffer.match_ (FixedLagBuffer._params b)) in
  match next_of_stream stream (FixedLagBuffer._data b) behind with
  | Some t => t
  | None =>
      match next_behind stream (FixedLagBuffer._data b) ref_idx with
      | Some t => t
      | None => epoch
      end
  end.

(** [t_next] as the minimal-latency buffer determines it. *)
Definition minimal_latency_next_time {Data : Type} (b : MinimalLatencyBuffer.t Data)
  (queue : list (TimeData.t Data)) (t_ref : Time) (behind : IndexList) : Time :=
  let stream :=
    MatchParams.reference_stream
      (MinimalLatencyBuffer.match_ (MinimalLatencyBuffer._params b)) in
  match next_of_stream stream queue behind with
  | Some t => t
  | None =>
      match map_find stream (MinimalLatencyBuffer._source_infos b) with
      | Some estimator => (t_ref + Estimator.period estimator)%Z
      | None => epoch
      end
  end.

(* ################################################################# *)
(** * Example runs *)

(** The examples use payloads of type [unit] and streams whose period and
    latency are constant, as the unit tests of the library do: all variances
    are zero, so no quantile of a normal distribution is ever asked for.  No
    queue of these runs holds two samples of the same [meas_time], so the
    order in which [std::sort] leaves equal samples plays no part in them. *)
Module Examples.

Inductive call : Type :=
| Push (id : SourceId) (receipt_time meas_time : Time)
| Pop (time : Time).

Definition no_quantile (mean sd p : float) : float := 0%float.
Definition no_hypot (x y : float) : float := 0%float.

(** Milliseconds. *)
Definition ms (n : Z) : Time := (n * 1000000)%Z.

(** Iteration of an [unordered_map] in insertion order, and in the reverse
    of it. *)
Definition insertion_order (keys : list SourceId) : list SourceId := keys.
Definition reverse_order (keys : list SourceId) : list SourceId := rev keys.

Definition ml_params (mode : BufferMode) (reference_stream : SourceId)
  : MinimalLatencyBuffer.Params :=
  MinimalLatencyBuffer.mkParams mode (ms 1000) 0x1.fae147ae147aep-1%float (ms 100000)
    0x1.fae147ae147aep-1%float (ms 100000) (ms 100) (BatchParams.make (ms 10))
    (MatchParams.make reference_stream 0).

Definition ml_pop (iteration_order : list SourceId -> list SourceId)
  (b : MinimalLatencyBuffer.t unit) (time : Time) :=
  MinimalLatencyBuffer.pop no_quantile no_hypot iteration_order b time.

Definition ml_push (b : MinimalLatencyBuffer.t unit) (id : SourceId)
  (receipt_time meas_time : Time) :=
  MinimalLatencyBuffer.push no_quantile no_hypot b id receipt_time meas_time tt.

(** The buffer after a sequence of calls, with what each [pop] returned
    ([meas_time] of the released and of the discarded samples). *)
Fixpoint ml_run (iteration_order : list SourceId -> list SourceId)
  (b : MinimalLatencyBuffer.t unit) (calls : list call)
  : list (list Time * list Time) * MinimalLatencyBuffer.t unit :=
  match calls with
  | [] => ([], b)
  | Push id receipt_time meas_time :: calls' =>
      ml_run iteration_order (snd (ml_push b id receipt_time meas_time)) calls'
  | Pop time :: calls' =>
      match ml_pop iteration_order b time with
      | Some (r, b') =>
          let (results, final) := ml_run iteration_order b' calls' in
          ((map TimeData.meas_time (PopReturn.data r),
            map TimeData.meas_time (PopReturn.discarded_data r)) :: results, final)
      | None => ([], b)
      end
  end.

Definition fl_params (mode : BufferMode) (reference_stream : SourceId) (num_streams : nat)
  : FixedLagBuffer.Params :=
  FixedLagBuffer.mkParams mode 0%Z (ms 50) 0%Z 0x1p-1%float (BatchParams.make (ms 10))
    (MatchParams.make reference_stream num_streams).

Fixpoint fl_run (iteration_order : list SourceId -> list SourceId)
  (b : FixedLagBuffer.t unit) (calls : list call)
  : list (list Time * list Time) * FixedLagBuffer.t unit :=
  match calls with
  | [] => ([], b)
  | Push id receipt_time meas_time :: calls' =>
      fl_run iteration_order (snd (FixedLagBuffer.push b id receipt_time meas_time tt)) calls'
  | Pop time :: calls' =>
      match FixedLagBuffer.pop iteration_order b time with
      | Some (r, b') =>
          let (results, final) := fl_run iteration_order b' calls' in
          ((map TimeData.meas_time (PopReturn.data r),
            map TimeData.meas_time (PopReturn.discarded_data r)) :: results, final)
      | None => ([], b)
      end
  end.

Definition sensor_a : SourceId := 50.
Definition sensor_b : SourceId := 100.

(** A minimal-latency buffer in Match mode with reference stream A whose
    period is estimated at 50 ms; it holds the samples of A measured at 150
    and 230 ms and a placeholder. *)
Definition ml_match_example : MinimalLatencyBuffer.t unit :=
  Eval vm_compute in
  snd (ml_run insertion_order (MinimalLatencyBuffer.new unit (ml_params MATCH sensor_a))
         [Push sensor_a (ms 60) (ms 50); Pop (ms 60);
          Push sensor_a (ms 110) (ms 100); Pop (ms 110);
          Push sensor_a (ms 160) (ms 150); Push sensor_a (ms 240) (ms 230)]).

(** [_data] of [ml_match_example] as the first loop of [pop (ms 240)]
    leaves it. *)
Definition ml_match_queue : list (TimeData.t unit) :=
  Eval vm_compute in
  MinimalLatencyBuffer._queue
    (MinimalLatencyBuffer.scan no_quantile no_hypot ml_match_example 0
       (MinimalLatencyBuffer._data ml_match_example)
       (MinimalLatencyBuffer.mkScan (ms 240) [] [] [] [] [])).

(** A minimal-latency buffer in Match mode with reference stream A that
    knows the sources A and B (the one sample of B came too late and was
    discarded) and holds a single sample, of A. *)
Definition ml_lonely_reference : MinimalLatencyBuffer.t unit :=
  Eval vm_compute in
  snd (ml_run insertion_order (MinimalLatencyBuffer.new unit (ml_params MATCH sensor_a))
         [Push sensor_a (ms 60) (ms 50); Pop (ms 60);
          Push sensor_b (ms 70) (ms 40); Pop (ms 70);
          Push sensor_a (ms 110) (ms 100)]).

(** A fixed-lag buffer in Match mode (reference stream A, two streams, lag
    50 ms) that holds A at 200 ms, B at 230 ms and A at 250 ms. *)
Definition fl_match_example : FixedLagBuffer.t unit :=
  Eval vm_compute in
  snd (fl_run insertion_order
         (FixedLagBuffer.new unit no_quantile (fl_params MATCH sensor_a 2))
         [Push sensor_a (ms 250) (ms 200); Push sensor_a (ms 300) (ms 250);
          Push sensor_b (ms 305) (ms 230)]).

(** A minimal-latency buffer in Single mode after three samples of A that
    are 50 ms apart and eleven more that are 1 ms apart. *)
Definition ml_burst : MinimalLatencyBuffer.t unit :=
  Eval vm_compute in
  snd (ml_run insertion_order (MinimalLatencyBuffer.new unit (ml_params SINGLE sensor_a))
         ([Push sensor_a (ms 60) (ms 50); Push sensor_a (ms 110) (ms 100);
           Push sensor_a (ms 160) (ms 150)]
          ++ map (fun k => Push sensor_a (ms (211 + k)) (ms (201 + k)))
               [0; 1; 2; 3; 4; 5; 6; 7; 8; 9; 10]%Z)).

(** The unit test [lateJoiningSensorWithHigherLatency] up to the third
    sample of A: [buffer_time] is 100 ms, B at 90 ms has come too late and A
    at 150 ms is ready. *)
Definition ml_late_joiner : MinimalLatencyBuffer.t unit :=
  Eval vm_compute in
  snd (ml_run insertion_order (MinimalLatencyBuffer.new unit (ml_params SINGLE sensor_a))
         [Pop (ms 10); Push sensor_a (ms 60) (ms 50); Pop (ms 60);
          Push sensor_a (ms 110) (ms 100); Pop (ms 110);
          Push sensor_b (ms 150) (ms 90); Push sensor_a (ms 160) (ms 150)]).

(** The unit test [zeroLatency] up to its second push: A at 60 ms has been
    released, B at 60 ms has been pushed. *)
Definition ml_zero_latency : MinimalLatencyBuffer.t unit :=
  Eval vm_compute in
  snd (ml_run insertion_order (MinimalLatencyBuffer.new unit (ml_params SINGLE sensor_a))
         [Pop (ms 10); Push sensor_a (ms 60) (ms 60); Pop (ms 60);
          Push sensor_b (ms 60) (ms 60)]).

(** Fixed-lag buffers in Match mode holding one sample of the reference
    stream A and one of B, B being the older one in the first and the newer
    one in the second. *)
Definition fl_b_before_a : FixedLagBuffer.t unit :=
  Eval vm_compute in
  snd (fl_run insertion_order
         (FixedLagBuffer.new unit no_quantile (fl_params MATCH sensor_a 2))
         [Push sensor_a (ms 60) (ms 50); Push sensor_b (ms 120) (ms 40)]).

Definition fl_a_before_b : FixedLagBuffer.t unit :=
  Eval vm_compute in
  snd (fl_run insertion_order
         (FixedLagBuffer.new unit no_quantile (fl_params MATCH sensor_a 2))
         [Push sensor_a (ms 60) (ms 50); Push sensor_b (ms 120) (ms 60)]).

(** The same two queues in a minimal-latency buffer. *)
Definition ml_b_before_a : MinimalLatencyBuffer.t unit :=
  Eval vm_compute in
  snd (ml_run insertion_order (MinimalLatencyBuffer.new unit (ml_params MATCH sensor_a))
         [Push sensor_b (ms 50) (ms 40); Push sensor_a (ms 60) (ms 50)]).

Definition ml_a_before_b : MinimalLatencyBuffer.t unit :=
  Eval vm_compute in
  snd (ml_run insertion_order (MinimalLatencyBuffer.new unit (ml_params MATCH sensor_a))
         [Push sensor_a (ms 60) (ms 50); Push sensor_b (ms 60) (ms 60)]).

(** What a [pop] returned: the [meas_time] of the released and of the
    discarded samples, and [buffer_time]. *)
Definition summary {B : Type} (result : option (PopReturn.t unit * B))
  : option (list Time * list Time * Time) :=
  match result with
  | Some (r, _) =>
      Some (map TimeData.meas_time (PopReturn.data r),
            map TimeData.meas_time (PopReturn.discarded_data r),
            PopReturn.buffer_time r)
  | None => None
  end.

(** A fixed-lag buffer in Match mode that has released the tuple of A at
    50 ms and B at 60 ms, and has then received B at 45 ms and A at 100 ms
    and at 150 ms. *)
Definition fl_late_b : FixedLagBuffer.t unit :=
  Eval vm_compute in
  snd (fl_run insertion_order
         (FixedLagBuffer.new unit no_quantile (fl_params MATCH sensor_a 2))
         [Push sensor_a (ms 60) (ms 50); Push sensor_b (ms 120) (ms 60); Pop (ms 110);
          Push sensor_b (ms 130) (ms 45); Push sensor_a (ms 160) (ms 100);
          Push sensor_a (ms 210) (ms 150)]).

(** A minimal-latency buffer in Batch mode after three rounds of A and of B,
    B measured 2 ms after A, and a fourth sample of A at 200 ms: the queue
    holds that sample, a placeholder of B at 202 ms that is waited for until
    212 ms, and a placeholder of A at 250 ms. *)
Definition ml_batch_waiting : MinimalLatencyBuffer.t unit :=
  Eval vm_compute in
  snd (ml_run insertion_order (MinimalLatencyBuffer.new unit (ml_params BATCH sensor_a))
         [Push sensor_a (ms 60) (ms 50); Push sensor_b (ms 62) (ms 52); Pop (ms 62);
          Push sensor_a (ms 110) (ms 100); Push sensor_b (ms 112) (ms 102); Pop (ms 112);
          Push sensor_a (ms 160) (ms 150); Push sensor_b (ms 162) (ms 152); Pop (ms 162);
          Push sensor_a (ms 210) (ms 200)]).

(** A fixed-lag buffer in Single mode that has released A at 50 ms and has
    then received B at 45 ms and A at 100 ms and at 150 ms. *)
Definition fl_single_late : FixedLagBuffer.t unit :=
  Eval vm_compute in
  snd (fl_run insertion_order
         (FixedLagBuffer.new unit no_quantile (fl_params SINGLE sensor_a 2))
         [Push sensor_a (ms 60) (ms 50); Pop (ms 110);
          Push sensor_b (ms 130) (ms 45); Push sensor_a (ms 160) (ms 100);
          Push sensor_a (ms 210) (ms 150)]).

(** The fixed-lag buffers of the unit tests have a delay of 50 ms with a
    deviation of 10 ms and the quantile 0.99.  Their constructor asks Boost
    for the 0.995 quantile of the normal distribution of mean 0 and
    deviation 0.01, which is 0.025758293...: [boost_quantile] answers every
    question with it.  The tests add the lag, [delay], to their times. *)
Definition boost_quantile (mean sd p : float) : float := 0x1.a6061c8c0ba13p-6%float.

Definition fl_test_params (mode : BufferMode) (reference_stream : SourceId)
  (num_streams : nat) : FixedLagBuffer.Params :=
  FixedLagBuffer.mkParams mode 0%Z (ms 50) (ms 10) 0x1.fae147ae147aep-1%float
    (BatchParams.make (ms 10)) (MatchParams.make reference_stream num_streams).

Definition delay : Duration := 75758293%Z.

(** The number of released and of discarded samples of each [pop] of a
    run, which is what the unit tests of the buffers look at. *)
Definition counts (results : list (list Time * list Time)) : list (nat * nat) :=
  map (fun r => (length (fst r), length (snd r))) results.

(** The estimator after a sequence of calls of [update]; it stops at the
    first call that throws. *)
Fixpoint estimator_run (e : Estimator.t) (updates : list (Time * Time * nat))
  : Estimator.result unit * Estimator.t :=
  match updates with
  | [] => (Estimator.Returned tt, e)
  | (current_time, meas_time, num_missing) :: updates' =>
      match Estimator.update current_time meas_time num_missing e with
      | (Estimator.Returned _, e') => estimator_run e' updates'
      | (Estimator.Thrown, e') => (Estimator.Thrown, e')
      end
  end.

(** The estimator of the unit test [MissingMeasurements] before its last
    update: 16 updates, period 50 ms, latency 10 ms. *)
Definition desync_example : Estimator.t :=
  Estimator.make 16 (ms 750) (ms 760) Estimator.default_alpha
    (Estimator.mkState 50000000%float 0%float) (Estimator.mkState 10000000%float 0%float).

(** A buffer in Batch mode holding two samples of source 0 that are 90 ns
    apart, the batch being 10 ns wide; the lag is 10 ns. *)
Definition batch_example : FixedLagBuffer.t unit :=
  Eval vm_compute in
  let params :=
    FixedLagBuffer.mkParams BATCH 0%Z 0%Z 0%Z 0x1p-1%float (BatchParams.make 10%Z)
      (MatchParams.make 0 0) in
  let b := FixedLagBuffer.new unit no_quantile params in
  let b := snd (FixedLagBuffer.push b 0 10%Z 10%Z tt) in
  snd (FixedLagBuffer.push b 0 100%Z 100%Z tt).

End Examples.

(* ################################################################# *)
(** * Properties of [remove_indices] *)

Section RemoveIndicesFacts.
Context {T : Type}.
Implicit Types (vec out xs ys : list T) (idxs : list nat).

Lemma insert_index_In : forall i x l, In x (insert_index i l) <-> x = i \/ In x l.
Proof.
  intros i x l; induction l as [|j l IH]; simpl.
  - intuition.
  - destruct (Nat.leb i j); simpl; intuition.
Qed.

Lemma sort_indices_In : forall x l, In x (sort_indices l) <-> In x l.
Proof.
  intros x l; induction l as [|i l IH]; simpl.
  - tauto.
  - rewrite insert_index_In, IH. intuition.
Qed.

Lemma insert_index_sorted : forall i l,
  StronglySorted lt l -> ~ In i l -> StronglySorted lt (insert_index i l).
Proof.
  intros i l Hs; induction Hs as [|j l Hs IH Hall]; intros Hni; simpl.
  - repeat constructor.
  - rewrite Forall_forall in Hall.
    destruct (Nat.leb i j) eqn:E.
    + apply Nat.leb_le in E.
      assert (i < j) by (simpl in Hni; lia).
      constructor; [constructor; [assumption | now apply Forall_forall] |].
      constructor; [assumption |].
      apply Forall_forall; intros y Hy; specialize (Hall y Hy); lia.
    + apply Nat.leb_gt in E.
      constructor.
      * apply IH; simpl in Hni; tauto.
      * apply Forall_forall; intros y Hy.
        apply insert_index_In in Hy as [-> | Hy]; [assumption | now apply Hall].
Qed.

Lemma sort_indices_sorted : forall l, NoDup l -> StronglySorted lt (sort_indices l).
Proof.
  intros l Hnd; induction Hnd as [|i l Hni Hnd IH]; simpl.
  - constructor.
  - apply insert_index_sorted; [assumption |].
    now rewrite sort_indices_In.
Qed.

Lemma existsb_eqb_In : forall p idxs, existsb (Nat.eqb p) idxs = true <-> In p idxs.
Proof.
  intros p idxs; rewrite existsb_exists; split.
  - intros [x [Hx E]]. apply Nat.eqb_eq in E. now subst.
  - intros H; exists p; split; [assumption | apply Nat.eqb_refl].
Qed.

Lemma drop_positions_ext : forall idxs idxs' vec p,
  (forall q, In q idxs <-> In q idxs') ->
  drop_positions idxs p vec = drop_positions idxs' p vec.
Proof.
  intros idxs idxs' vec; induction vec as [|x vec IH]; intros p H; simpl.
  - reflexivity.
  - assert (E : existsb (Nat.eqb p) idxs = existsb (Nat.eqb p) idxs').
    { apply eq_true_iff_eq. rewrite !existsb_eqb_In. apply H. }
    rewrite E, (IH (S p) H). reflexivity.
Qed.

Lemma drop_positions_app : forall idxs xs ys p,
  drop_positions idxs p (xs ++ ys)
  = drop_positions idxs p xs ++ drop_positions idxs (p + length xs) ys.
Proof.
  intros idxs xs; induction xs as [|x xs IH]; intros ys p; simpl.
  - now rewrite Nat.add_0_r.
  - rewrite IH, <- plus_n_Sm.
    destruct (existsb (Nat.eqb p) idxs); reflexivity.
Qed.

Lemma drop_positions_none : forall idxs xs p,
  (forall q, In q idxs -> q < p \/ p + length xs <= q) ->
  drop_positions idxs p xs = xs.
Proof.
  intros idxs xs; induction xs as [|x xs IH]; intros p H; simpl.
  - reflexivity.
  - destruct (existsb (Nat.eqb p) idxs) eqn:E.
    + apply existsb_eqb_In in E. specialize (H p E). simpl in H. lia.
    + f_equal. apply IH. intros q Hq. specialize (H q Hq). simpl in H.
      assert (q <> p).
      { intros ->. apply existsb_eqb_In in Hq. congruence. }
      lia.
Qed.

Lemma skipn_S_nth : forall vec i,
  i < length vec -> exists x, skipn i vec = x :: skipn (S i) vec.
Proof.
  induction vec as [|y vec IH]; intros i Hi; simpl in Hi.
  - lia.
  - destruct i as [|i].
    + exists y. reflexivity.
    + destruct (IH i) as [x Hx]; [lia |]. exists x. exact Hx.
Qed.

Lemma drop_positions_passed : forall idxs i ys p,
  i < p -> drop_positions (i :: idxs) p ys = drop_positions idxs p ys.
Proof.
  intros idxs i ys; induction ys as [|y ys IH]; intros p Hp; simpl.
  - reflexivity.
  - destruct (Nat.eqb p i) eqn:E; [apply Nat.eqb_eq in E; lia |].
    simpl. rewrite IH by lia. reflexivity.
Qed.

(** The block in front of the smallest index is kept, the sample at the
    index goes. *)
Lemma drop_positions_block : forall vec idx rest b,
  b <= idx -> idx < length vec ->
  (forall j, In j rest -> idx < j) ->
  drop_positions (idx :: rest) b (skipn b vec)
  = firstn (idx - b) (skipn b vec) ++ drop_positions rest (idx + 1) (skipn (idx + 1) vec).
Proof.
  intros vec idx rest b Hb Hidx Hrest.
  assert (Hlen : length (firstn (idx - b) (skipn b vec)) = idx - b).
  { rewrite length_firstn, length_skipn. lia. }
  rewrite <- (firstn_skipn (idx - b) (skipn b vec)) at 1.
  rewrite drop_positions_app, Hlen, skipn_skipn.
  replace (idx - b + b) with idx by lia.
  replace (b + (idx - b)) with idx by lia.
  rewrite drop_positions_none.
  2:{ intros q [<- | Hq]; [| apply Hrest in Hq]; rewrite Hlen; lia. }
  f_equal.
  destruct (skipn_S_nth vec Hidx) as [x ->].
  simpl. rewrite Nat.eqb_refl. simpl.
  replace (idx + 1) with (S idx) by lia.
  apply drop_positions_passed. lia.
Qed.

Lemma move_block_valid : forall vec first last out,
  first <= last -> last <= length vec ->
  move_block vec first last out = Some (out ++ firstn (last - first) (skipn first vec)).
Proof.
  intros vec first last out H1 H2. unfold move_block.
  apply Nat.leb_le in H1, H2. rewrite H1, H2. reflexivity.
Qed.

(** The loop over strictly ascending indices. *)
Lemma copy_blocks_sorted : forall vec idxs b out,
  StronglySorted lt idxs ->
  (forall i, In i idxs -> b <= i < length vec) ->
  b <= length vec ->
  exists out' b',
    copy_blocks vec idxs b out = Some (out', b')
    /\ b' <= length vec
    /\ out' ++ skipn b' vec = out ++ drop_positions idxs b (skipn b vec).
Proof.
  intros vec idxs; induction idxs as [|idx rest IH]; intros b out Hs Hin Hb.
  - exists out, b. simpl. repeat split; [assumption |].
    rewrite drop_positions_none; [reflexivity | intros q []].
  - inversion Hs as [|? ? Hs' Hall]; subst. rewrite Forall_forall in Hall.
    assert (Hidx : b <= idx < length vec) by (apply Hin; now left).
    destruct (IH (idx + 1) (out ++ firstn (idx - b) (skipn b vec)) Hs')
      as (out' & b' & Hc & Hb' & Heq).
    { intros i Hi. specialize (Hall i Hi). specialize (Hin i (or_intror Hi)). lia. }
    { lia. }
    exists out', b'. split; [| split; [assumption |]].
    + simpl. destruct (Nat.eqb b idx) eqn:E.
      * apply Nat.eqb_eq in E; subst b.
        rewrite Nat.sub_diag in Hc. simpl in Hc. rewrite app_nil_r in Hc. exact Hc.
      * rewrite move_block_valid by lia. exact Hc.
    + rewrite Heq, <- app_assoc. f_equal.
      symmetry. apply drop_positions_block; [lia | lia | exact Hall].
Qed.

Lemma remove_indices_NoDup : forall vec idxs,
  NoDup idxs -> (forall i, In i idxs -> i < length vec) ->
  remove_indices vec idxs = Some (drop_positions idxs 0 vec).
Proof.
  intros vec idxs Hnd Hin.
  destruct idxs as [|i0 idxs0].
  - simpl. rewrite drop_positions_none; [reflexivity | intros q []].
  - unfold remove_indices. remember (i0 :: idxs0) as idxs eqn:Eidxs. clear Eidxs.
    destruct (copy_blocks_sorted vec (idxs := sort_indices idxs) (b := 0) []
                (sort_indices_sorted Hnd))
      as (out' & b' & Hc & Hb' & Heq).
    { intros i Hi. apply (proj1 (sort_indices_In _ _)) in Hi. specialize (Hin i Hi). lia. }
    { lia. }
    rewrite Hc. simpl in Heq.
    rewrite (drop_positions_ext (sort_indices idxs) idxs vec 0) in Heq
      by (intros q; apply sort_indices_In).
    destruct (Nat.eqb b' (length vec)) eqn:E.
    + apply Nat.eqb_eq in E. subst b'. rewrite skipn_all, app_nil_r in Heq. now subst.
    + rewrite move_block_valid by lia.
      rewrite firstn_all2 by (rewrite length_skipn; lia).
      now rewrite Heq.
Qed.
End RemoveIndicesFacts.

(** C3 (as amended).  For every vector and every list of pairwise distinct
    indices into it, in any order, [remove_indices] returns the vector without
    the elements at those positions, the remaining elements in their original
    relative order. *)
Theorem remove_indices_distinct (T : Type) (vec : list T) (idxs : list nat) :
  NoDup idxs ->
  (forall i, In i idxs -> i < length vec) ->
  remove_indices vec idxs = Some (drop_positions idxs 0 vec).
Proof. apply remove_indices_NoDup. Qed.

(** The unit test [RemoveIndicesNotOrdered]. *)
Lemma remove_indices_distinct_witness :
  remove_indices [0; 1; 2; 3; 4; 5; 6; 7; 8; 9] [5; 2; 3; 1; 4; 9; 0] = Some [6; 7; 8].
Proof.
  apply (@remove_indices_distinct nat [0; 1; 2; 3; 4; 5; 6; 7; 8; 9] [5; 2; 3; 1; 4; 9; 0]).
  - repeat constructor; simpl; intuition lia.
  - simpl; intros i H; intuition lia.
Defined.

(** C3 fails on a repeated index: after the block in front of the first
    occurrence, [block_start] is one past [block_end] of the second, and
    [std::move] is called on the range [[vec.begin() + 2, vec.begin() + 1)]. *)
Lemma remove_indices_repeated_index :
  copy_blocks [10; 20; 30] [1] 0 [] = Some ([10], 2)
  /\ move_block [10; 20; 30] 2 1 [10] = None
  /\ remove_indices [10; 20; 30] [1; 1] = None.
Proof. repeat split. Qed.

(* ################################################################# *)
(** * Properties of the estimator *)

Module EstimatorFacts.
Import Estimator.

Lemma update_from_third : forall e current_time meas_time num_missing,
  2 <= _num_updates e ->
  update current_time meas_time num_missing e =
  if (corrected_estimate e meas_time num_missing <? 0)%float then
    if Nat.ltb 10 (_num_updates e) then (Thrown, e)
    else (Returned tt, latency_only_step e current_time meas_time)
  else
    (Returned tt,
     make (S (_num_updates e)) meas_time current_time (_alpha e)
          (updateEstimates (_alpha e) (_period_state e)
             (corrected_estimate e meas_time num_missing) true)
          (updateEstimates (_alpha e) (_latency_state e)
             (Z_to_double (current_time - meas_time)) true)).
Proof.
  intros [n lm ct a ps ls] current_time meas_time num_missing Hn.
  simpl in Hn.
  destruct n as [|[|n]]; [lia | lia |].
  unfold update, updatePeriodEstimate, updateLatencyEstimate, advance,
    set_period_state, set_latency_state, bind, get, put, ret, throw,
    corrected_estimate, latency_only_step.
  cbn [_num_updates _last_meas_time _current_time _alpha _period_state _latency_state
       Nat.eqb fst snd].
  destruct (_ <? 0)%float; [destruct (Nat.ltb 10 (S (S n))) |]; reflexivity.
Qed.

End EstimatorFacts.

(** C5.  For an estimator with at least two updates, [update] throws exactly
    when the corrected period estimate is negative and [num_updates > 10], and
    then leaves the estimator as it was; when the corrected estimate is
    negative and [num_updates <= 10] the period state stays while the latency
    state, the anchors and [num_updates] are updated. *)
Theorem update_desync (e : Estimator.t) (current_time meas_time : Time) (num_missing : nat) :
  2 <= Estimator._num_updates e ->
  let corrected := corrected_estimate e meas_time num_missing in
  let after := Estimator.update current_time meas_time num_missing e in
  (fst after = Estimator.Thrown
   <-> (corrected <? 0)%float = true /\ 10 < Estimator._num_updates e)
  /\ (fst after = Estimator.Thrown -> snd after = e)
  /\ ((corrected <? 0)%float = true -> Estimator._num_updates e <= 10 ->
      after = (Estimator.Returned tt,
               latency_only_step e current_time meas_time)
      /\ Estimator._period_state (snd after) = Estimator._period_state e).
Proof.
  intros Hn corrected after. subst after.
  rewrite (EstimatorFacts.update_from_third e current_time meas_time num_missing Hn).
  fold corrected.
  destruct (corrected <? 0)%float.
  - destruct (Nat.ltb 10 (Estimator._num_updates e)) eqn:E.
    + apply Nat.ltb_lt in E. simpl. repeat split; auto; lia.
    + apply Nat.ltb_ge in E. simpl. repeat split; auto; try discriminate.
      intros [_ H]; lia.
  - simpl. repeat split; try discriminate. intros [H _]; discriminate.
Qed.

(** The last call of the unit test [MissingMeasurements] throws and changes
    nothing. *)
Lemma update_desync_witness :
  2 <= 16
  /\ fst (Estimator.update 810000000%Z 800000000%Z 10 Examples.desync_example)
     = Estimator.Thrown
  /\ snd (Estimator.update 810000000%Z 800000000%Z 10 Examples.desync_example)
     = Examples.desync_example.
Proof.
  assert (H : 2 <= Estimator._num_updates Examples.desync_example) by (simpl; lia).
  pose proof (update_desync Examples.desync_example 810000000%Z 800000000%Z 10 H) as P.
  cbv zeta in P. destruct P as [P1 [P2 _]].
  assert (T : fst (Estimator.update 810000000%Z 800000000%Z 10 Examples.desync_example)
              = Estimator.Thrown).
  { apply P1. split; [vm_compute; reflexivity | simpl; lia]. }
  split; [lia | split; [exact T | exact (P2 T)]].
Defined.

(* ################################################################# *)
(** * Properties of the queue *)

Section QueueFacts.
Context {Data : Type}.
Implicit Types (queue out : list (TimeData.t Data)) (inds : IndexList)
  (e x : TimeData.t Data).

Lemma insert_by_meas_time_perm : forall x queue,
  Permutation (insert_by_meas_time x queue) (x :: queue).
Proof.
  intros x queue; induction queue as [|y queue IH]; simpl.
  - apply Permutation_refl.
  - destruct (_ <? _)%Z.
    + apply Permutation_refl.
    + eapply Permutation_trans; [apply perm_skip, IH | apply perm_swap].
Qed.

Lemma sort_by_meas_time_perm : forall queue,
  Permutation (sort_by_meas_time queue) queue.
Proof.
  induction queue as [|x queue IH]; simpl.
  - apply Permutation_refl.
  - eapply Permutation_trans; [apply insert_by_meas_time_perm | now apply perm_skip].
Qed.

Lemma insert_by_meas_time_sorted : forall x queue,
  queue_sorted queue -> queue_sorted (insert_by_meas_time x queue).
Proof.
  intros x queue Hs; induction Hs as [|y queue Hs IH Hall]; simpl.
  - repeat constructor.
  - destruct (TimeData.meas_time x <? TimeData.meas_time y)%Z eqn:E.
    + apply Z.ltb_lt in E.
      constructor; [now constructor |].
      constructor; [unfold meas_le; lia |].
      eapply Forall_impl; [| exact Hall].
      unfold meas_le; intros; lia.
    + apply Z.ltb_ge in E.
      constructor; [assumption |].
      eapply Permutation_Forall; [apply Permutation_sym, insert_by_meas_time_perm |].
      constructor; [exact E | exact Hall].
Qed.

Lemma sort_by_meas_time_sorted : forall queue, queue_sorted (sort_by_meas_time queue).
Proof.
  induction queue as [|x queue IH]; simpl.
  - constructor.
  - now apply insert_by_meas_time_sorted.
Qed.

Lemma queue_sorted_nth : forall queue i j a b,
  queue_sorted queue -> i < j ->
  nth_error queue i = Some a -> nth_error queue j = Some b -> meas_le a b.
Proof.
  intros queue i j a b Hs; revert i j.
  induction Hs as [|y queue Hs IH Hall]; intros i j Hij Ha Hb.
  - destruct i; discriminate.
  - destruct j as [|j]; [lia |]. simpl in Hb.
    destruct i as [|i]; simpl in Ha.
    + injection Ha as ->. rewrite Forall_forall in Hall.
      apply Hall. eapply nth_error_In; eassumption.
    + apply (IH i j); [lia | assumption | assumption].
Qed.

Lemma elements_at_Some : forall queue inds out,
  elements_at queue inds = Some out ->
  Forall2 (fun i e => nth_error queue i = Some e) inds out.
Proof.
  intros queue inds; induction inds as [|i inds IH]; intros out H; simpl in H.
  - injection H as <-. constructor.
  - destruct (nth_error queue i) eqn:E; [| discriminate].
    destruct (elements_at queue inds) eqn:E'; [| discriminate].
    injection H as <-. constructor; [assumption | now apply IH].
Qed.

Lemma elements_at_total : forall queue P lo inds,
  all_at queue P lo inds ->
  exists out, elements_at queue inds = Some out /\ Forall P out.
Proof.
  intros queue P lo inds H; induction H as [|i inds [_ [e [He HP]]] _ [out [IH1 IH2]]].
  - exists []. split; [reflexivity | constructor].
  - exists (e :: out). simpl. rewrite He, IH1. split; [reflexivity | now constructor].
Qed.

Lemma elements_at_all : forall queue P lo inds out,
  all_at queue P lo inds -> elements_at queue inds = Some out -> Forall P out.
Proof.
  intros queue P lo inds out H E.
  destruct (elements_at_total H) as [out' [E' HP]]. congruence.
Qed.

Lemma elements_at_app : forall queue inds inds',
  elements_at queue (inds ++ inds') =
  match elements_at queue inds, elements_at queue inds' with
  | Some out, Some out' => Some (out ++ out')
  | _, _ => None
  end.
Proof.
  intros queue inds inds'; induction inds as [|i inds IH]; simpl.
  - destruct (elements_at queue inds'); reflexivity.
  - destruct (nth_error queue i); [| reflexivity].
    rewrite IH.
    destruct (elements_at queue inds); [| reflexivity].
    destruct (elements_at queue inds'); reflexivity.
Qed.

(** Samples taken at ascending indices of a sorted queue are sorted. *)
Lemma elements_at_sorted : forall queue inds out,
  queue_sorted queue -> ascending inds ->
  elements_at queue inds = Some out -> queue_sorted out.
Proof.
  intros queue inds out Hq Hasc; revert out.
  induction Hasc as [|i inds Hasc IH Hall]; intros out H.
  - injection H as <-. constructor.
  - simpl in H.
    destruct (nth_error queue i) as [a|] eqn:Ea; [| discriminate].
    destruct (elements_at queue inds) as [out'|] eqn:E'; [| discriminate].
    injection H as <-.
    constructor; [now apply IH |].
    apply elements_at_Some in E'.
    clear IH Hasc. induction E' as [|j b inds out' Hb _ IH'].
    + constructor.
    + inversion Hall; subst. constructor; [| now apply IH'].
      eapply queue_sorted_nth; eassumption.
Qed.


Lemma last_meas_time_nil : forall otherwise,
  last_meas_time (@nil (TimeData.t Data)) otherwise = otherwise.
Proof. reflexivity. Qed.

Lemma last_meas_time_In : forall out otherwise,
  out <> [] -> exists e, In e out /\ last_meas_time out otherwise = TimeData.meas_time e.
Proof.
  intros out otherwise Hne. unfold last_meas_time.
  destruct (rev out) as [|e r] eqn:E.
  - apply (f_equal (@rev _)) in E. rewrite rev_involutive in E. now subst.
  - exists e. split; [| reflexivity].
    apply in_rev. rewrite E. now left.
Qed.

(** [buffer_time] never moves below a bound all released samples respect. *)
Lemma last_meas_time_bound : forall out (bound : Time),
  Forall (fun e => (bound <= TimeData.meas_time e)%Z) out ->
  (bound <= last_meas_time out bound)%Z.
Proof.
  intros out bound H.
  destruct out as [|a out].
  - apply Z.le_refl.
  - destruct (@last_meas_time_In (a :: out) bound) as [e [He ->]]; [discriminate |].
    rewrite Forall_forall in H. now apply H.
Qed.

Lemma ascending_NoDup : forall inds, ascending inds -> NoDup inds.
Proof.
  intros inds H; induction H as [|i inds H IH Hall].
  - constructor.
  - constructor; [| assumption].
    intros Hin. rewrite Forall_forall in Hall. specialize (Hall i Hin). lia.
Qed.

Lemma ascending_app : forall inds i,
  ascending inds -> Forall (fun j => j < i) inds -> ascending (inds ++ [i]).
Proof.
  intros inds i H; induction H as [|j inds H IH Hall]; intros Hlt; simpl.
  - repeat constructor.
  - inversion Hlt; subst. constructor; [now apply IH |].
    apply Forall_app; split; [assumption | now repeat constructor].
Qed.

Lemma all_at_weaken : forall queue (P Q : TimeData.t Data -> Prop) lo lo' inds,
  all_at queue P lo inds -> lo' <= lo -> (forall e, P e -> Q e) ->
  all_at queue Q lo' inds.
Proof.
  intros queue P Q lo lo' inds H Hlo HPQ.
  eapply Forall_impl; [| exact H].
  intros i [Hi [e [He HP]]]. split; [lia | eauto].
Qed.

Lemma all_at_in_range : forall queue P lo inds i,
  all_at queue P lo inds -> In i inds -> i < length queue.
Proof.
  intros queue P lo inds i H Hin. unfold all_at in H. rewrite Forall_forall in H.
  destruct (H i Hin) as [_ [e [He _]]].
  apply nth_error_Some. congruence.
Qed.

(** Two index lists whose samples satisfy contradictory conditions share no
    index. *)
Lemma all_at_disjoint : forall queue (P Q : TimeData.t Data -> Prop) lo lo' inds inds',
  all_at queue P lo inds -> all_at queue Q lo' inds' ->
  (forall e, P e -> Q e -> False) ->
  forall i, In i inds -> In i inds' -> False.
Proof.
  intros queue P Q lo lo' inds inds' H H' HPQ i Hi Hi'.
  unfold all_at in H, H'. rewrite Forall_forall in H, H'.
  destruct (H i Hi) as [_ [e [He HP]]]. destruct (H' i Hi') as [_ [e' [He' HQ]]].
  rewrite He in He'. injection He' as <-. eauto.
Qed.
End QueueFacts.

(* ################################################################# *)
(** * Properties of the fixed-lag buffer *)

Module FixedLagFacts.
Import FixedLagBuffer.

Section Facts.
Variable Data : Type.
Variable iteration_order : list SourceId -> list SourceId.
Implicit Types (b : t Data) (queue rest pre : list (TimeData.t Data)).

Local Abbreviation meas := TimeData.meas_time.

Lemma nth_error_middle : forall pre (x : TimeData.t Data) rest,
  nth_error (pre ++ x :: rest) (length pre) = Some x.
Proof.
  intros pre x rest. rewrite nth_error_app2 by lia.
  now rewrite Nat.sub_diag.
Qed.

Lemma all_at_cons : forall queue (P : TimeData.t Data -> Prop) i inds e,
  nth_error queue i = Some e -> P e -> all_at queue P (S i) inds ->
  all_at queue P i (i :: inds).
Proof.
  intros queue P i inds e He HP H. constructor.
  - split; [lia | eauto].
  - eapply all_at_weaken; [exact H | lia | auto].
Qed.

Lemma ascending_cons : forall queue (P : TimeData.t Data -> Prop) i inds,
  ascending inds -> all_at queue P (S i) inds -> ascending (i :: inds).
Proof.
  intros queue P i inds Ha H. constructor; [assumption |].
  eapply Forall_impl; [| exact H]. intros j [Hj _]. lia.
Qed.

(** The first loop of [pop]: what it adds to the two index lists. *)
Lemma select_spec : forall buffer_time ref_meas_time rest pre out disc out' disc',
  select buffer_time ref_meas_time (length pre) rest out disc = (out', disc') ->
  exists o d,
    out' = out ++ o /\ disc' = disc ++ d
    /\ ascending o /\ ascending d
    /\ all_at (pre ++ rest)
         (fun e => (buffer_time < meas e)%Z /\ (meas e <= ref_meas_time)%Z) (length pre) o
    /\ all_at (pre ++ rest) (fun e => (meas e <= buffer_time)%Z) (length pre) d.
Proof.
  intros buffer_time ref_meas_time rest.
  induction rest as [|element rest IH]; intros pre out disc out' disc' H; simpl in H.
  - injection H as <- <-. exists [], [].
    rewrite !app_nil_r. repeat split; constructor.
  - assert (Hmid := nth_error_middle pre element rest).
    assert (Hpre : (pre ++ [element]) ++ rest = pre ++ element :: rest)
      by (now rewrite <- app_assoc).
    assert (Hlen : length (pre ++ [element]) = S (length pre))
      by (rewrite length_app; simpl; lia).
    destruct (meas element <=? buffer_time)%Z eqn:E1.
    + apply Z.leb_le in E1.
      rewrite <- Hlen in H. apply IH in H.
      destruct H as (o & d & -> & -> & Ho & Hd & Hao & Had).
      rewrite Hpre, Hlen in Hao, Had.
      exists o, (length pre :: d). rewrite <- app_assoc.
      repeat split; try assumption.
      * eapply ascending_cons; eassumption.
      * eapply all_at_weaken; [exact Hao | lia | auto].
      * eapply all_at_cons; eassumption.
    + apply Z.leb_gt in E1.
      destruct (meas element <=? ref_meas_time)%Z eqn:E2.
      * apply Z.leb_le in E2.
        rewrite <- Hlen in H. apply IH in H.
        destruct H as (o & d & -> & -> & Ho & Hd & Hao & Had).
        rewrite Hpre, Hlen in Hao, Had.
        exists (length pre :: o), d. rewrite <- app_assoc.
        repeat split; try assumption.
        -- eapply ascending_cons; eassumption.
        -- eapply all_at_cons; [eassumption | split; assumption | assumption].
        -- eapply all_at_weaken; [exact Had | lia | auto].
      * injection H as <- <-. exists [], [].
        rewrite !app_nil_r. repeat split; constructor.
Qed.

(** The loop of the batch branch adds the later samples in front of
    [batch_reference_time], in queue order. *)
Lemma extend_batch_spec : forall batch_reference_time rest pre batch,
  exists added,
    extend_batch batch_reference_time (length pre) rest batch = batch ++ added
    /\ ascending added
    /\ all_at (pre ++ rest) (fun e => (meas e < batch_reference_time)%Z) (length pre) added
    /\ elements_at (pre ++ rest) added
       = Some (filter (fun e => (meas e <? batch_reference_time)%Z) rest).
Proof.
  intros brt rest; induction rest as [|element rest IH]; intros pre batch; simpl.
  - exists []. rewrite app_nil_r. repeat split; constructor.
  - assert (Hmid := nth_error_middle pre element rest).
    assert (Hpre : (pre ++ [element]) ++ rest = pre ++ element :: rest)
      by (now rewrite <- app_assoc).
    assert (Hlen : length (pre ++ [element]) = S (length pre))
      by (rewrite length_app; simpl; lia).
    destruct (meas element <? brt)%Z eqn:E.
    + destruct (IH (pre ++ [element]) (batch ++ [length pre]))
        as (added & Hb & Ha & Hall & Hel).
      rewrite Hpre, Hlen in *.
      exists (length pre :: added). rewrite Hb, <- app_assoc.
      repeat split.
      * eapply ascending_cons; eassumption.
      * eapply all_at_cons; [eassumption | now apply Z.ltb_lt | assumption].
      * simpl. now rewrite Hmid, Hel.
    + destruct (IH (pre ++ [element]) batch) as (added & Hb & Ha & Hall & Hel).
      rewrite Hpre, Hlen in *.
      exists added. repeat split; try assumption.
      eapply all_at_weaken; [exact Hall | lia | auto].
Qed.

(** The batch branch on a sorted queue: the oldest ready sample and every
    later sample of the queue in front of [batch_reference_time]. *)
Lemma run_batch_spec : forall b front first,
  queue_sorted (_data b) ->
  nth_error (_data b) front = Some first ->
  (_buffer_time b < meas first)%Z ->
  exists inds,
    run_batch b front = Some inds
    /\ ascending inds
    /\ all_at (_data b) (fun e => (_buffer_time b < meas e)%Z) 0 inds
    /\ elements_at (_data b) inds
       = Some (first :: filter (fun e => (meas e <? meas first
                                           + BatchParams.max_delta (batch (_params b)))%Z)
                          (skipn (front + 1) (_data b))).
Proof.
  intros b front first Hs Hfirst Hbt.
  unfold run_batch. rewrite Hfirst.
  assert (Hfront : front < length (_data b)) by (apply nth_error_Some; congruence).
  set (brt := (meas first + BatchParams.max_delta (FixedLagBuffer.batch (_params b)))%Z).
  assert (Hlen : length (firstn (front + 1) (_data b)) = front + 1)
    by (rewrite length_firstn; lia).
  destruct (extend_batch_spec brt (skipn (front + 1) (_data b))
              (firstn (front + 1) (_data b)) [front]) as (added & Hb & Ha & Hall & Hel).
  rewrite firstn_skipn, Hlen in *.
  exists (front :: added). rewrite Hb. simpl.
  rewrite Hfirst, Hel.
  assert (Hall' : all_at (_data b) (fun e => (_buffer_time b < meas e)%Z) (S front) added).
  { unfold all_at in *. rewrite Forall_forall in *.
    intros i Hi. destruct (Hall i Hi) as [Hlo [e [He _]]].
    split; [lia |]. exists e. split; [assumption |].
    assert (meas_le first e) by (apply (@queue_sorted_nth _ (_data b) front i); auto; lia).
    unfold meas_le in *. lia. }
  repeat split.
  - eapply ascending_cons; eassumption.
  - eapply all_at_weaken with (lo := front); [| lia | intros e H; exact H].
    eapply all_at_cons; eassumption.
Qed.

(** The index lists of [pop] in the modes Single and Batch, on a sorted
    queue: samples behind [_buffer_time] are released, samples at or in
    front of it are discarded, both in queue order. *)
Lemma pop_indices_in_sequence : forall b time,
  queue_sorted (_data b) -> mode (_params b) <> MATCH ->
  exists out disc,
    pop_indices iteration_order b time = Some (out, disc)
    /\ ascending out /\ ascending disc
    /\ all_at (_data b) (fun e => (_buffer_time b < meas e)%Z) 0 out
    /\ all_at (_data b) (fun e => (meas e <= _buffer_time b)%Z) 0 disc.
Proof.
  intros b time Hs Hmode. unfold pop_indices.
  destruct (select (_buffer_time b) (time - _fixed_lag_delay b)%Z 0 (_data b) [] [])
    as [ready disc] eqn:Esel.
  apply (select_spec _ _ _ []) in Esel.
  destruct Esel as (o & d & -> & -> & Ho & Hd & Hao & Had). simpl in *.
  assert (Hao' : all_at (_data b) (fun e => (_buffer_time b < meas e)%Z) 0 o)
    by (eapply all_at_weaken; [exact Hao | lia | intros e [H _]; exact H]).
  destruct (mode (_params b)) eqn:Em; [| | congruence].
  - exists o, d. auto 6.
  - destruct o as [|front o'].
    + exists [], d. auto 6.
    + inversion Hao' as [|? ? [_ [first [Hfirst Hbt]]] _]; subst.
      destruct (@run_batch_spec b front first Hs Hfirst Hbt) as (batch & -> & Hb1 & Hb2 & _).
      exists batch, d. auto 6.
Qed.

(** [pop] in the modes Single and Batch on a sorted queue. *)
Lemma pop_in_sequence : forall b time,
  queue_sorted (_data b) -> mode (_params b) <> MATCH ->
  exists out disc r b',
    pop_indices iteration_order b time = Some (out, disc)
    /\ pop iteration_order b time = Some (r, b')
    /\ ascending out
    /\ elements_at (_data b) out = Some (PopReturn.data r)
    /\ elements_at (_data b) disc = Some (PopReturn.discarded_data r)
    /\ Forall (fun e => (_buffer_time b < meas e)%Z) (PopReturn.data r)
    /\ PopReturn.buffer_time r = last_meas_time (PopReturn.data r) (_buffer_time b)
    /\ _buffer_time b' = PopReturn.buffer_time r
    /\ queue_sorted (_data b').
Proof.
  intros b time Hs Hmode.
  destruct (@pop_indices_in_sequence b time Hs Hmode)
    as (out & disc & Hidx & Ho & Hd & Hao & Had).
  destruct (elements_at_total Hao) as (data & Edata & Hdata).
  destruct (elements_at_total Had) as (discarded & Edisc & _).
  assert (Hrem : remove_indices (_data b) (disc ++ out)
                 = Some (drop_positions (disc ++ out) 0 (_data b))).
  { apply remove_indices_NoDup.
    - apply NoDup_app; try (now apply ascending_NoDup).
      intros i Hi Hi'.
      apply (all_at_disjoint Had Hao) with (i := i); auto.
      intros e; simpl; lia.
    - intros i Hi. apply in_app_or in Hi as [Hi | Hi];
        eapply all_at_in_range; [exact Had | exact Hi | exact Hao | exact Hi]. }
  exists out, disc. eexists. eexists.
  unfold pop. rewrite Hidx, Edata, Edisc, Hrem.
  split; [reflexivity |]. split; [reflexivity |]. simpl.
  repeat split; try assumption.
  apply sort_by_meas_time_sorted.
Qed.

Lemma fl_pop_sorted : forall b time r b',
  pop iteration_order b time = Some (r, b') -> queue_sorted (_data b').
Proof.
  intros b time r b' H. unfold pop in H.
  destruct (pop_indices iteration_order b time) as [[out disc]|]; [| discriminate].
  destruct (elements_at (_data b) out); [| discriminate].
  destruct (elements_at (_data b) disc); [| discriminate].
  destruct (remove_indices (_data b) (disc ++ out)); [| discriminate].
  injection H as _ <-. simpl. apply sort_by_meas_time_sorted.
Qed.

Lemma fl_pop_current_time : forall b time r b',
  pop iteration_order b time = Some (r, b') -> _current_time b' = _current_time b.
Proof.
  intros b time r b' H. unfold pop in H.
  destruct (pop_indices iteration_order b time) as [[out disc]|]; [| discriminate].
  destruct (elements_at (_data b) out); [| discriminate].
  destruct (elements_at (_data b) disc); [| discriminate].
  destruct (remove_indices (_data b) (disc ++ out)); [| discriminate].
  injection H as _ <-. reflexivity.
Qed.

Lemma fl_push_sorted : forall b id receipt_time meas_time data,
  queue_sorted (_data (snd (push b id receipt_time meas_time data))).
Proof.
  intros b id receipt_time meas_time data. unfold push.
  destruct (_ <? _)%Z; simpl; [constructor | apply sort_by_meas_time_sorted].
Qed.

Lemma fl_reachable_sorted : forall normal_quantile b,
  fixed_lag_reachable normal_quantile iteration_order b -> queue_sorted (_data b).
Proof.
  intros normal_quantile b H; induction H.
  - simpl. constructor.
  - apply fl_push_sorted.
  - eapply fl_pop_sorted; eassumption.
Qed.

Lemma fl_push_reset : forall b id receipt_time meas_time data,
  push b id receipt_time meas_time data =
  if (reset_threshold (_params b) <? _current_time b - receipt_time)%Z
  then (RESET, reset b)
  else (OK, make (_params b)
              (sort_by_meas_time
                 (_data b ++ [TimeData.of_sample id receipt_time meas_time data]))
              (_fixed_lag_delay b) (_buffer_time b) (_current_time b)).
Proof. reflexivity. Qed.
End Facts.

End FixedLagFacts.

(** C6 (as amended).  In the fixed-lag buffer in Batch mode, on a sorted
    queue, whenever the first loop of [pop] finds a non-empty list of ready
    indices, [pop] releases the first ready sample followed by every later
    sample of the queue, ready or not, whose [meas_time] is less than the
    first one's plus [max_delta], in queue order; it discards the samples
    the first loop put on the discard list. *)
Theorem fixed_lag_batch_release (Data : Type) (iteration_order : list SourceId -> list SourceId)
  (b : FixedLagBuffer.t Data) (time : Time) (front : nat) (ready discard : IndexList) :
  FixedLagBuffer.mode (FixedLagBuffer._params b) = BATCH ->
  queue_sorted (FixedLagBuffer._data b) ->
  FixedLagBuffer.select (FixedLagBuffer._buffer_time b)
    (time - FixedLagBuffer._fixed_lag_delay b)%Z 0 (FixedLagBuffer._data b) [] []
  = (front :: ready, discard) ->
  exists first discarded b',
    nth_error (FixedLagBuffer._data b) front = Some first
    /\ elements_at (FixedLagBuffer._data b) discard = Some discarded
    /\ let released :=
         first :: filter (fun e => (TimeData.meas_time e
                                    <? TimeData.meas_time first
                                       + BatchParams.max_delta
                                           (FixedLagBuffer.batch (FixedLagBuffer._params b)))%Z)
                    (skipn (front + 1) (FixedLagBuffer._data b)) in
       FixedLagBuffer.pop iteration_order b time
       = Some (PopReturn.make
                 (last_meas_time released (FixedLagBuffer._buffer_time b))
                 released discarded, b').
Proof.
  intros Hmode Hs Hsel.
  assert (Hnm : FixedLagBuffer.mode (FixedLagBuffer._params b) <> MATCH) by congruence.
  destruct (@FixedLagFacts.pop_in_sequence Data iteration_order b time Hs Hnm)
    as (out & disc & r & b' & Hidx & Hpop & _ & Eout & Edisc & _ & Hbt & _).
  pose proof Hsel as Hspec. apply (FixedLagFacts.select_spec _ _ _ []) in Hspec.
  destruct Hspec as (o & d & Ho & Hd & _ & _ & Hao & _). simpl in Ho, Hd, Hao.
  subst o d.
  inversion Hao as [|? ? [_ [first [Hfirst [Hlt _]]]] _]; subst.
  destruct (@FixedLagFacts.run_batch_spec Data b front first Hs Hfirst Hlt)
    as (inds & Hrun & _ & _ & Einds).
  unfold FixedLagBuffer.pop_indices in Hidx.
  rewrite Hsel, Hmode, Hrun in Hidx. injection Hidx as <- <-.
  exists first, (PopReturn.discarded_data r), b'.
  split; [assumption |]. split; [assumption |].
  cbv zeta. rewrite Hpop. destruct r as [bt data discarded]. simpl in *.
  rewrite Einds in Eout. injection Eout as <-. now subst bt.
Qed.

(** On [batch_example] both samples are ready at time 200, and the batch is
    the first of them alone. *)
Lemma fixed_lag_batch_release_witness :
  exists b',
    FixedLagBuffer.pop (fun keys => keys) Examples.batch_example 200%Z
    = Some (PopReturn.make 10%Z [TimeData.of_sample 0 10%Z 10%Z tt] [], b').
Proof.
  destruct (@fixed_lag_batch_release unit (fun keys => keys)
              Examples.batch_example 200%Z 0 [1] [])
    as (first & discarded & b' & Hfirst & Hdisc & Hpop).
  - reflexivity.
  - repeat constructor; unfold meas_le; simpl; lia.
  - reflexivity.
  - exists b'. injection Hfirst as <-. injection Hdisc as <-. exact Hpop.
Defined.

(** C6 fails where a ready sample lies outside the batch: on [batch_example]
    at time 200 both samples are ready, yet only the first is released. *)
Lemma fixed_lag_batch_drops_ready :
  fst (FixedLagBuffer.select 0%Z (200 - 10)%Z 0
         (FixedLagBuffer._data Examples.batch_example) [] []) = [0; 1]
  /\ option_map (fun p => map TimeData.meas_time (PopReturn.data (fst p)))
       (FixedLagBuffer.pop (fun keys => keys) Examples.batch_example 200%Z)
     = Some [10%Z].
Proof. split; reflexivity. Qed.

(* ################################################################# *)
(** * Properties of the minimal-latency buffer *)

Module MinimalLatencyFacts.
Import MinimalLatencyBuffer.

Section Facts.
Variable Data : Type.
Variable normal_quantile : float -> float -> float -> float.
Variable hypot : float -> float -> float.
Variable iteration_order : list SourceId -> list SourceId.
Implicit Types (b : t Data) (queue rest pre : list (TimeData.t Data))
  (e element : TimeData.t Data).

Local Abbreviation meas := TimeData.meas_time.
Local Abbreviation create_placeholders := (create_placeholders normal_quantile hypot).
Local Abbreviation scan := (scan normal_quantile hypot).

Lemma flagged_meas : forall e e', flagged e e' -> meas e' = meas e.
Proof. intros e e' [-> | ->]; reflexivity. Qed.

Lemma flagged_id : forall e e', flagged e e' -> TimeData.id e' = TimeData.id e.
Proof. intros e e' [-> | ->]; reflexivity. Qed.

Lemma flagged_placeholder : forall e e',
  flagged e e' -> TimeData.is_placeholder e' = TimeData.is_placeholder e.
Proof. intros e e' [-> | ->]; reflexivity. Qed.

Lemma flagged_sorted : forall queue queue',
  Forall2 flagged queue queue' -> queue_sorted queue -> queue_sorted queue'.
Proof.
  intros queue queue' H; induction H as [|e e' queue queue' He H IH]; intros Hs.
  - constructor.
  - inversion Hs as [|? ? Hs' Hall]; subst.
    constructor; [now apply IH |].
    clear IH Hs Hs'. induction H as [|x x' queue queue' Hx H IH].
    + constructor.
    + inversion Hall; subst. constructor; [| now apply IH].
      unfold meas_le in *. rewrite (flagged_meas He), (flagged_meas Hx). assumption.
Qed.

(** The samples [placeholder_loop] appends are placeholders of the source,
    at most [remaining] of them. *)
Lemma placeholder_loop_spec : forall b estimator id meas_time remaining i out,
  exists added,
    placeholder_loop normal_quantile hypot b estimator id meas_time i remaining out
    = out ++ added
    /\ length added <= remaining
    /\ Forall (fun p => TimeData.is_placeholder p = true /\ TimeData.id p = id) added.
Proof.
  intros b estimator id meas_time remaining.
  induction remaining as [|remaining IH]; intros i out; simpl.
  - exists []. rewrite app_nil_r. repeat split; [simpl; lia | constructor].
  - match goal with |- context [if ?c then _ else _] => destruct c end.
    + eexists. split; [reflexivity |]. split; [simpl; lia |].
      repeat constructor.
    + match goal with
      | |- context [placeholder_loop _ _ _ _ _ _ (S i) remaining ?o] =>
          destruct (IH (S i) o) as (added & -> & Hlen & Hall)
      end.
      eexists. rewrite <- app_assoc. split; [reflexivity |].
      split; [simpl; lia |].
      constructor; [split; reflexivity | assumption].
Qed.

(** One expansion: the element at most gets its flag set, and at most
    [max_number] placeholders of its source are created. *)
Lemma create_placeholders_spec : forall b element max_number,
  flagged element (fst (create_placeholders b element max_number))
  /\ length (snd (create_placeholders b element max_number)) <= max_number
  /\ Forall (fun p => TimeData.is_placeholder p = true
                      /\ TimeData.id p = TimeData.id element)
       (snd (create_placeholders b element max_number)).
Proof.
  intros b element max_number. unfold MinimalLatencyBuffer.create_placeholders.
  destruct (map_find (TimeData.id element) (_source_infos b)) as [estimator|].
  - destruct (negb (Estimator.isInitialized estimator)
              || TimeData.created_placeholder element).
    + simpl. repeat split; [now left | simpl; lia | constructor].
    + simpl.
      destruct (placeholder_loop_spec b estimator (TimeData.id element)
                  (meas element) max_number 1 []) as (added & -> & Hlen & Hall).
      simpl. repeat split; [now right | assumption | assumption].
  - simpl. repeat split; [now left | simpl; lia | constructor].
Qed.

(** The first loop of [pop], started with [length (_queue s)] samples
    visited. *)
Lemma scan_spec : forall b rest s,
  exists suffix o d,
    let r := scan b (length (_queue s)) rest s in
    _queue r = _queue s ++ suffix
    /\ Forall2 flagged rest suffix
    /\ output_inds r = output_inds s ++ o
    /\ discard_inds r = discard_inds s ++ d
    /\ delete_inds r = delete_inds s ++ d
    /\ ascending o /\ ascending d
    /\ all_at (_queue r) (ready_sample b (time_ s)) (length (_queue s)) o
    /\ all_at (_queue r) (late_sample b) (length (_queue s)) d
    /\ (time_ r <= time_ s)%Z.
Proof.
  intros b rest; induction rest as [|element rest IH]; intros s.
  - exists [], [], []. simpl. rewrite !app_nil_r.
    repeat split; try constructor. apply Z.le_refl.
  - simpl.
    match goal with |- context [if ?c then _ else _] => destruct c eqn:Estop end.
    + exists (element :: rest), [], []. simpl. rewrite !app_nil_r.
      repeat split; try constructor.
      * now left.
      * clear. induction rest; constructor; [now left | assumption].
      * apply Z.le_refl.
    + destruct (create_placeholders_spec b element MAX_INSERTED_PLACEHOLDERS)
        as (Hflag & _ & _).
      destruct (create_placeholders b element MAX_INSERTED_PLACEHOLDERS)
        as [element' new_placeholders] eqn:Ecp.
      simpl in Hflag.
      match goal with |- context [scan b (S _) rest ?x] => set (s1 := x) end.
      assert (Hlen : length (_queue s1) = S (length (_queue s)))
        by (subst s1; simpl; rewrite length_app; simpl; lia).
      assert (Ht1 : (time_ s1 <= time_ s)%Z)
        by (subst s1; simpl; destruct (rev new_placeholders); lia).
      destruct (IH s1)
        as (suffix & o & d & Hq & Hsuf & Ho & Hdi & Hde & Hao & Had & Ho1 & Hd' & Ht).
      rewrite Hlen in *.
      set (r := scan b (S (length (_queue s))) rest s1) in *.
      cbv zeta in Hq, Ho, Hdi, Hde, Ho1, Hd', Ht.
      assert (Htr : (time_ r <= time_ s)%Z) by lia.
      assert (Ho' : all_at (_queue r) (ready_sample b (time_ s)) (S (length (_queue s))) o).
      { eapply all_at_weaken; [exact Ho1 | lia |].
        intros e (H1 & H2 & H3). repeat split; auto. lia. }
      clear Ho1.
      assert (Hnth : nth_error (_queue r) (length (_queue s)) = Some element').
      { rewrite Hq. subst s1. simpl. rewrite <- app_assoc. simpl.
        rewrite nth_error_app2 by lia. now rewrite Nat.sub_diag. }
      assert (Hq' : _queue r = _queue s ++ element' :: suffix).
      { rewrite Hq. subst s1. simpl. now rewrite <- app_assoc. }
      destruct (TimeData.meas_time element <? _buffer_time b)%Z eqn:Eolder;
        destruct (TimeData.is_placeholder element) eqn:Eph; simpl in *.
      * (* a placeholder in front of the buffer time: passed over *)
        exists (element' :: suffix), o, d.
        repeat split; try assumption.
        -- now constructor.
        -- eapply all_at_weaken; [exact Ho' | lia | auto].
        -- eapply all_at_weaken; [exact Hd' | lia | auto].
      * (* a sample in front of the buffer time: discarded and deleted *)
        exists (element' :: suffix), o, (length (_queue s) :: d).
        rewrite Hdi, Hde, <- !app_assoc.
        repeat split; try assumption.
        -- now constructor.
        -- eapply FixedLagFacts.ascending_cons; eassumption.
        -- eapply all_at_weaken; [exact Ho' | lia | auto].
        -- eapply FixedLagFacts.all_at_cons; [exact Hnth | | exact Hd'].
           unfold late_sample.
           rewrite (flagged_meas Hflag), (flagged_placeholder Hflag).
           split; [now apply Z.ltb_lt | assumption].
      * (* a placeholder whose latest receipt has passed *)
        exists (element' :: suffix), o, d.
        repeat split; try assumption.
        -- now constructor.
        -- eapply all_at_weaken; [exact Ho' | lia | auto].
        -- eapply all_at_weaken; [exact Hd' | lia | auto].
      * (* a sample that is ready for output *)
        exists (element' :: suffix), (length (_queue s) :: o), d.
        rewrite Ho, <- !app_assoc.
        repeat split; try assumption.
        -- now constructor.
        -- eapply FixedLagFacts.ascending_cons; eassumption.
        -- eapply FixedLagFacts.all_at_cons; [exact Hnth | | exact Ho'].
           unfold ready_sample.
           rewrite (flagged_meas Hflag), (flagged_placeholder Hflag).
           repeat split; [now apply Z.ltb_ge | assumption | now apply Z.ltb_ge].
        -- eapply all_at_weaken; [exact Hd' | lia | auto].
Qed.

Lemma runBatching_cases : forall b queue ready time out,
  runBatching b queue ready time = Some out -> out = [] \/ out = ready.
Proof.
  intros b queue ready time out H. unfold runBatching in H.
  destruct ready as [|front ready']; [discriminate |].
  destruct (nth_error queue front); [| discriminate].
  destruct (Nat.ltb _ _); [discriminate |].
  destruct (find_placeholder_in_batch _ _ _ _); injection H as <-; auto.
Qed.
End Facts.

(** ** The matching map *)

Lemma map_find_In : forall (V : Type) k (m : list (SourceId * V)) v,
  map_find k m = Some v -> In (k, v) m.
Proof.
  intros V k m; induction m as [|[k' v'] m IH]; intros v H; simpl in H.
  - discriminate.
  - destruct (Nat.eqb k k') eqn:E.
    + apply Nat.eqb_eq in E. injection H as <-. subst. now left.
    + right. now apply IH.
Qed.

Lemma map_set_set : forall (V : Type) k (v v' : V) (m : list (SourceId * V)),
  map_set k v (map_set k v' m) = map_set k v m.
Proof.
  intros V k v v' m; induction m as [|[k' w] m IH]; simpl.
  - now rewrite Nat.eqb_refl.
  - destruct (Nat.eqb k k') eqn:E; simpl; rewrite ?Nat.eqb_refl, ?E; [reflexivity |].
    now rewrite IH.
Qed.

Lemma map_set_entries_in : forall inds k v m,
  entries_in inds m -> In (MatchMapEntry.idx v) inds -> entries_in inds (map_set k v m).
Proof.
  intros inds k v m H Hv; induction H as [|[k' w] m Hw H IH]; simpl.
  - repeat constructor. assumption.
  - destruct (Nat.eqb k k'); constructor; assumption.
Qed.

Lemma take_if_closer_entries_in : forall inds k idx d m,
  entries_in inds m -> In idx inds -> entries_in inds (take_if_closer k idx d m).
Proof.
  intros inds k idx d m H Hidx. unfold take_if_closer, map_index.
  destruct (map_find k m) as [e|] eqn:E.
  - destruct (MatchMapEntry.below_tau _ e); [| assumption].
    now apply map_set_entries_in.
  - simpl. rewrite map_set_set. now apply map_set_entries_in.
Qed.

Lemma tuple_of_incl : forall iteration_order inds m,
  entries_in inds m -> incl (tuple_of iteration_order m) inds.
Proof.
  intros iteration_order inds m H i Hi. unfold tuple_of in Hi.
  apply in_flat_map in Hi as [k [_ Hk]].
  destruct (map_find k m) as [e|] eqn:E; [| contradiction].
  destruct Hk as [<- | []].
  apply map_find_In in E. unfold entries_in in H. rewrite Forall_forall in H.
  exact (H _ E).
Qed.

Section Matching.
Variable Data : Type.
Variable normal_quantile : float -> float -> float -> float.
Variable hypot : float -> float -> float.
Variable iteration_order : list SourceId -> list SourceId.
Implicit Types (b : t Data) (queue rest : list (TimeData.t Data)).

(** The reference the first loop of [runMatching] returns is one of the
    ready indices (or the one it was started with). *)
Lemma find_reference_In : forall reference_stream queue ready found ref_idx t next,
  find_reference reference_stream queue ready found = Some (Some (ref_idx, t), next) ->
  found = Some (ref_idx, t) \/ (found = None /\ In ref_idx ready).
Proof.
  intros reference_stream queue ready.
  induction ready as [|idx ready IH]; intros found ref_idx t next H; simpl in H.
  - injection H as -> _. now left.
  - destruct (nth_error queue idx) as [element|]; [| discriminate].
    destruct (Nat.eqb (TimeData.id element) reference_stream).
    + destruct found as [[r t0]|].
      * injection H as -> -> _. now left.
      * apply IH in H as [H | [H _]]; [| discriminate].
        injection H as -> _. right. split; [reflexivity | now left].
    + apply IH in H as [H | [H Hin]]; [now left |].
      right. split; [assumption | now right].
Qed.

Lemma match_ready_entries_in : forall inds reference_stream t_ref t_next queue ready m latest
  m' latest',
  match_ready reference_stream t_ref t_next queue ready m latest = Some (m', latest') ->
  entries_in inds m -> incl ready inds -> entries_in inds m'.
Proof.
  intros inds reference_stream t_ref t_next queue ready.
  induction ready as [|idx ready IH]; intros m latest m' latest' H Hm Hincl; simpl in H.
  - now injection H as <- _.
  - assert (Hidx : In idx inds) by (apply Hincl; now left).
    assert (Hincl' : incl ready inds) by (intros i Hi; apply Hincl; now right).
    destruct (nth_error queue idx) as [element|]; [| discriminate].
    destruct (Nat.eqb (TimeData.id element) reference_stream).
    + eapply IH; eassumption.
    + destruct (_ <? _)%Z.
      * now injection H as <- _.
      * eapply IH; [exact H | | exact Hincl'].
        now apply take_if_closer_entries_in.
Qed.

(** When the loop over the waiting samples anticipates no better sample, it
    has not touched the map. *)
Lemma match_waiting_unchanged : forall reference_stream t_ref t_next rest m m',
  match_waiting reference_stream t_ref t_next rest m = (m', false) -> m' = m.
Proof.
  intros reference_stream t_ref t_next rest.
  induction rest as [|element rest IH]; intros m m' H; simpl in H.
  - now injection H as <-.
  - destruct (Nat.eqb (TimeData.id element) reference_stream); [now apply IH |].
    destruct (_ <? _)%Z; [now injection H as <- |].
    unfold map_index in H.
    destruct (map_find (TimeData.id element) m) as [e|].
    + destruct (MatchMapEntry.below_tau _ e); [discriminate | now apply IH].
    + simpl in H. discriminate.
Qed.

(** The tuple and the reference [runMatching] returns are among the ready
    indices. *)
Lemma runMatching_incl : forall b queue ready tuple_inds to_delete,
  runMatching iteration_order b queue ready = Some (tuple_inds, to_delete) ->
  incl tuple_inds ready /\ incl to_delete ready
  /\ (tuple_inds = [] \/ to_delete = []) /\ length to_delete <= 1.
Proof.
  intros b queue ready tuple_inds to_delete H. unfold runMatching in H.
  set (R := MatchParams.reference_stream (match_ (_params b))) in *.
  destruct (find_reference R queue (sort_indices ready) None)
    as [[[[ref_idx t_ref]|] next]|] eqn:Eref; [| | discriminate].
  2:{ injection H as <- <-. repeat split; auto using incl_nil_l. }
  apply find_reference_In in Eref as [Eref | [_ Href]]; [discriminate |].
  assert (Hsort : incl (sort_indices ready) ready)
    by (intros i Hi; now apply (proj1 (sort_indices_In _ _)) in Hi).
  unfold match_from in H. fold R in H.
  destruct (match_ready R t_ref _ queue (sort_indices ready) _ 0)
    as [[m latest]|] eqn:Em; [| discriminate].
  apply (@match_ready_entries_in (sort_indices ready)) in Em;
    [| repeat constructor; exact Href | apply incl_refl].
  destruct (match_waiting R t_ref _ _ m) as [m' better] eqn:Ew.
  destruct (negb _).
  - injection H as <- <-. repeat split; auto using incl_nil_l.
    intros i [<- | []]. now apply Hsort.
  - destruct better.
    + injection H as <- <-. repeat split; auto using incl_nil_l.
    + apply match_waiting_unchanged in Ew. subst m'.
      injection H as <- <-. repeat split; auto using incl_nil_l.
      eapply incl_tran; [apply tuple_of_incl; exact Em | exact Hsort].
Qed.

Local Abbreviation meas := TimeData.meas_time.
Local Abbreviation pop_indices := (pop_indices normal_quantile hypot iteration_order).
Local Abbreviation pop := (pop normal_quantile hypot iteration_order).
Local Abbreviation push := (push normal_quantile hypot).

Lemma all_at_incl : forall queue (P : TimeData.t Data -> Prop) lo inds inds',
  all_at queue P lo inds -> incl inds' inds -> all_at queue P lo inds'.
Proof.
  intros queue P lo inds inds' H Hincl. unfold all_at in *.
  rewrite Forall_forall in *. auto.
Qed.

Lemma pop_indices_spec : forall b time s,
  pop_indices b time = Some s ->
  Forall2 flagged (_data b) (_queue s)
  /\ all_at (_queue s) (ready_sample b time) 0 (output_inds s)
  /\ all_at (_queue s) (fun _ => True) 0 (discard_inds s)
  /\ (mode (_params b) <> MATCH ->
      ascending (output_inds s) /\ ascending (delete_inds s)
      /\ all_at (_queue s) (late_sample b) 0 (delete_inds s)
      /\ discard_inds s = delete_inds s).
Proof.
  intros b time s H. unfold MinimalLatencyBuffer.pop_indices in H.
  destruct (scan_spec normal_quantile hypot b (_data b) (mkScan time [] [] [] [] []))
    as (suffix & o & d & Hq & Hsuf & Ho & Hdi & Hde & Hao & Had & Ho' & Hd' & _).
  cbv zeta in *. simpl in Hq, Ho, Hdi, Hde, Ho', Hd'.
  set (s0 := scan normal_quantile hypot b 0 (_data b) (mkScan time [] [] [] [] [])) in *.
  rewrite <- Hq in Hsuf.
  assert (Hdi' : all_at (_queue s0) (fun _ => True) 0 (discard_inds s0)).
  { rewrite Hdi. eapply all_at_weaken; [exact Hd' | lia | auto]. }
  assert (Hbase : mode (_params b) <> MATCH ->
                  ascending (output_inds s0) /\ ascending (delete_inds s0)
                  /\ all_at (_queue s0) (late_sample b) 0 (delete_inds s0)
                  /\ discard_inds s0 = delete_inds s0).
  { intros _. rewrite Ho, Hde, Hdi. auto. }
  rewrite <- Ho in Ho'.
  destruct (mode (_params b)) eqn:Emode.
  - assert (s = s0) by (destruct (output_inds s0); congruence). subst s. auto.
  - destruct (output_inds s0) as [|front rest] eqn:Eout.
    + injection H as <-. rewrite Eout. auto.
    + rewrite <- Eout in *.
      destruct (runBatching b (_queue s0) (output_inds s0) (time_ s0)) as [out|] eqn:Eb;
        [| discriminate].
      injection H as <-. simpl.
      apply runBatching_cases in Eb as [-> | ->].
      * repeat split; try assumption; try constructor; now apply Hbase.
      * repeat split; try assumption; now apply Hbase.
  - destruct (output_inds s0) as [|front rest] eqn:Eout.
    + injection H as <-. rewrite Eout. repeat split; try assumption; congruence.
    + rewrite <- Eout in *.
      destruct (runMatching iteration_order b (_queue s0) (output_inds s0))
        as [[tuple_inds to_delete]|] eqn:Em; [| discriminate].
      injection H as <-. simpl.
      apply runMatching_incl in Em as (Ht & Hdel & _).
      repeat split; try assumption; try congruence.
      * eapply all_at_incl; eassumption.
      * apply Forall_app; split; [assumption |].
        eapply all_at_weaken; [eapply all_at_incl; [exact Ho' | exact Hdel] | lia | auto].
Qed.

(** What a [pop] that returns has released, and what it leaves behind. *)
Lemma pop_spec : forall b time r b',
  pop b time = Some (r, b') ->
  Forall (ready_sample b time) (PopReturn.data r)
  /\ PopReturn.buffer_time r = last_meas_time (PopReturn.data r) (_buffer_time b)
  /\ _buffer_time b' = PopReturn.buffer_time r
  /\ _current_time b' = _current_time b
  /\ _source_infos b' = _source_infos b
  /\ (queue_sorted (_data b) -> queue_sorted (_data b'))
  /\ (queue_sorted (_data b) -> mode (_params b) <> MATCH ->
      queue_sorted (PopReturn.data r)).
Proof.
  intros b time r b' H. unfold MinimalLatencyBuffer.pop in H.
  destruct (time <? _current_time b)%Z.
  - injection H as <- <-. simpl. repeat split; auto; constructor.
  - destruct (pop_indices b time) as [s|] eqn:Es; [| discriminate].
    apply pop_indices_spec in Es as (Hflag & Hout & _ & Hmode).
    destruct (elements_at (_queue s) (output_inds s)) as [output|] eqn:Eout;
      [| discriminate].
    destruct (elements_at (_queue s) (discard_inds s)); [| discriminate].
    destruct (remove_indices (_queue s) (delete_inds s ++ output_inds s));
      [| discriminate].
    injection H as <- <-. simpl.
    repeat split; auto.
    + eapply elements_at_all; eassumption.
    + intros _. apply sort_by_meas_time_sorted.
    + intros Hs Hm. destruct (Hmode Hm) as (Hasc & _).
      eapply elements_at_sorted; [| exact Hasc | exact Eout].
      eapply MinimalLatencyFacts.flagged_sorted; eassumption.
Qed.

(** In the modes Single and Batch every [pop] returns. *)
Lemma pop_total : forall b time,
  mode (_params b) <> MATCH -> exists r b', pop b time = Some (r, b').
Proof.
  intros b time Hm. unfold MinimalLatencyBuffer.pop.
  destruct (time <? _current_time b)%Z; [eauto |].
  assert (Hidx : exists s, pop_indices b time = Some s).
  { unfold MinimalLatencyBuffer.pop_indices.
    destruct (mode (_params b)); [| | congruence].
    - eauto.
    - destruct (scan_spec normal_quantile hypot b (_data b) (mkScan time [] [] [] [] []))
        as (suffix & o & d & Hq & _ & Ho & _ & _ & _ & _ & Ho' & _ & _).
      cbv zeta in *. simpl in Hq, Ho, Ho'.
      set (s0 := MinimalLatencyBuffer.scan normal_quantile hypot b 0 (_data b)
                   (mkScan time [] [] [] [] [])) in *.
      destruct (output_inds s0) as [|front rest] eqn:Eout; [eauto |].
      unfold runBatching.
      assert (Hin : forall i, In i (front :: rest) -> i < length (_queue s0)).
      { intros i Hi. eapply all_at_in_range; [exact Ho' | now rewrite <- Ho]. }
      assert (Hfront : front < length (_queue s0)) by (apply Hin; now left).
      apply nth_error_Some in Hfront.
      destruct (nth_error (_queue s0) front); [| congruence].
      assert (Hback : last (front :: rest) 0 < length (_queue s0)).
      { apply Hin. clear. revert front.
        induction rest as [|x rest IH]; intros front; [now left |].
        right. apply (IH x). }
      destruct (Nat.ltb _ _) eqn:E; [apply Nat.ltb_lt in E; lia |].
      destruct (find_placeholder_in_batch _ _ _ _); eauto. }
  destruct Hidx as [s Es]. rewrite Es.
  apply pop_indices_spec in Es as (_ & Hout & Hdisc & Hmode).
  destruct (Hmode Hm) as (Hasc & Hdasc & Hlate & Hdd).
  destruct (elements_at_total Hout) as (output & -> & _).
  destruct (elements_at_total Hdisc) as (discarded & -> & _).
  rewrite (@remove_indices_NoDup _ (_queue s) (delete_inds s ++ output_inds s)); eauto.
  - apply NoDup_app; try (now apply ascending_NoDup).
    intros i Hi Hi'. apply (all_at_disjoint Hlate Hout) with (i := i); auto.
    unfold late_sample, ready_sample. intros e [H1 _] [H2 _]. lia.
  - intros i Hi. apply in_app_or in Hi as [Hi | Hi];
      eapply all_at_in_range; [exact Hlate | exact Hi | exact Hout | exact Hi].
Qed.

Lemma ml_push_sorted : forall b id receipt_time meas_time data,
  queue_sorted (_data (snd (push b id receipt_time meas_time data))).
Proof.
  intros b id receipt_time meas_time data. unfold MinimalLatencyBuffer.push.
  destruct (_ <? _)%Z; [constructor |].
  destruct (map_find id (_source_infos b)); [| apply sort_by_meas_time_sorted].
  destruct (find_best_placeholder _ _ _ _ _ _ _) as [best missed].
  apply sort_by_meas_time_sorted.
Qed.

Lemma ml_reachable_sorted : forall b,
  minimal_latency_reachable normal_quantile hypot iteration_order b ->
  queue_sorted (_data b).
Proof.
  intros b H; induction H.
  - constructor.
  - apply ml_push_sorted.
  - eapply pop_spec; eassumption.
Qed.
End Matching.
End MinimalLatencyFacts.

(* ################################################################# *)
(** * The reference times of the Match policy *)

Section ReferenceTimes.
Variable Data : Type.
Implicit Types (queue : list (TimeData.t Data)) (ready : IndexList).

Lemma find_reference_found : forall stream queue ready (found : nat * Time),
  Forall (fun i => i < length queue) ready ->
  find_reference stream queue ready (Some found)
  = Some (Some found, next_of_stream stream queue ready).
Proof.
  intros stream queue ready found H; induction H as [|i ready Hi H IH].
  - reflexivity.
  - unfold next_of_stream in *. simpl.
    apply nth_error_Some in Hi.
    destruct (nth_error queue i) as [e|]; [| congruence].
    destruct (Nat.eqb (TimeData.id e) stream); [reflexivity | exact IH].
Qed.

(** The first loop of [runMatching]: the first ready sample of the
    reference stream and the ready sample of that stream behind it. *)
Lemma find_reference_spec : forall stream queue ready,
  Forall (fun i => i < length queue) ready ->
  find_reference stream queue ready None
  = Some match first_of_stream stream queue ready with
         | Some (ref_idx, t_ref, behind) =>
             (Some (ref_idx, t_ref), next_of_stream stream queue behind)
         | None => (None, None)
         end.
Proof.
  intros stream queue ready H; induction H as [|i ready Hi H IH].
  - reflexivity.
  - simpl. apply nth_error_Some in Hi.
    destruct (nth_error queue i) as [e|]; [| congruence].
    destruct (Nat.eqb (TimeData.id e) stream); [| exact IH].
    now apply find_reference_found.
Qed.

Lemma search_next_reference_find : forall stream (rest : list (TimeData.t Data)),
  FixedLagBuffer.search_next_reference stream rest
  = match find (fun e => Nat.eqb (TimeData.id e) stream) rest with
    | Some e => Some (TimeData.meas_time e)
    | None => None
    end.
Proof.
  intros stream rest; induction rest as [|e rest IH]; simpl.
  - reflexivity.
  - destruct (Nat.eqb (TimeData.id e) stream); [reflexivity | exact IH].
Qed.
End ReferenceTimes.

(** C7 (as amended).  In Match mode the reference is the first ready sample
    of the reference stream, and [t_next] is the [meas_time] of the next
    ready sample of that stream behind it; when there is none, the fixed-lag
    buffer takes the next sample of the stream behind the reference in the
    queue, else epoch, while the minimal-latency buffer does not search the
    queue: it takes [t_ref] plus the estimated period when the reference
    stream has an estimator, else epoch. *)
Theorem match_reference_times (Data : Type) (iteration_order : list SourceId -> list SourceId) :
  (forall (b : FixedLagBuffer.t Data) (ready : IndexList),
      Forall (fun i => i < length (FixedLagBuffer._data b)) ready ->
      FixedLagBuffer.runMatching iteration_order b ready
      = Some match first_of_stream
                     (MatchParams.reference_stream
                        (FixedLagBuffer.match_ (FixedLagBuffer._params b)))
                     (FixedLagBuffer._data b) ready with
             | Some (ref_idx, t_ref, behind) =>
                 FixedLagBuffer.match_from iteration_order b ref_idx t_ref
                   (fixed_lag_next_time b ref_idx behind)
             | None => ([], [])
             end)
  /\ (forall (b : MinimalLatencyBuffer.t Data) (queue : list (TimeData.t Data))
             (ready : IndexList),
         Forall (fun i => i < length queue) ready ->
         MinimalLatencyBuffer.runMatching iteration_order b queue ready
         = match first_of_stream
                   (MatchParams.reference_stream
                      (MinimalLatencyBuffer.match_ (MinimalLatencyBuffer._params b)))
                   queue (sort_indices ready) with
           | Some (ref_idx, t_ref, behind) =>
               MinimalLatencyBuffer.match_from iteration_order b queue (sort_indices ready)
                 ref_idx t_ref (minimal_latency_next_time b queue t_ref behind)
           | None => Some ([], [])
           end).
Proof.
  split.
  - intros b ready H. unfold FixedLagBuffer.runMatching.
    rewrite (@find_reference_spec Data _ _ _ H).
    destruct (first_of_stream _ _ ready) as [[[ref_idx t_ref] behind]|]; [| reflexivity].
    unfold fixed_lag_next_time, FixedLagBuffer.next_reference_time, next_behind.
    rewrite search_next_reference_find.
    destruct (next_of_stream _ _ behind); [reflexivity |].
    destruct (find _ _); reflexivity.
  - intros b queue ready H. unfold MinimalLatencyBuffer.runMatching.
    assert (H' : Forall (fun i => i < length queue) (sort_indices ready)).
    { rewrite Forall_forall in *. intros i Hi. apply H. now apply sort_indices_In. }
    rewrite (@find_reference_spec Data _ _ _ H').
    destruct (first_of_stream _ _ (sort_indices ready)) as [[[ref_idx t_ref] behind]|];
      reflexivity.
Qed.


(** At [pop (ms 240)] on [ml_match_example] the only ready sample is the
    reference measured at 150 ms: [t_next] is 150 ms plus the period. *)
Lemma match_reference_times_witness :
  MinimalLatencyBuffer.runMatching Examples.insertion_order Examples.ml_match_example
    Examples.ml_match_queue [0]
  = MinimalLatencyBuffer.match_from Examples.insertion_order Examples.ml_match_example
      Examples.ml_match_queue [0] 0 (Examples.ms 150) (Examples.ms 200).
Proof.
  apply (proj2 (match_reference_times unit Examples.insertion_order)
           Examples.ml_match_example Examples.ml_match_queue [0]).
  repeat constructor.
Defined.

(** C7 fails for the minimal-latency buffer.  At [pop (ms 240)] on
    [ml_match_example] the first loop expands the sample at 150 ms into a
    placeholder at 200 ms and stops in front of the sample at 230 ms: the
    reference is the sample at 150 ms, no other sample of the stream is
    ready, the next one in the queue is at 230 ms, and [t_next] is 200 ms. *)
Lemma minimal_latency_next_time_ignores_queue :
  map TimeData.meas_time (MinimalLatencyBuffer._data Examples.ml_match_example)
  = [Examples.ms 150; Examples.ms 230; Examples.ms 280]
  /\ MinimalLatencyBuffer.output_inds
       (MinimalLatencyBuffer.scan Examples.no_quantile Examples.no_hypot
          Examples.ml_match_example 0 (MinimalLatencyBuffer._data Examples.ml_match_example)
          (MinimalLatencyBuffer.mkScan (Examples.ms 240) [] [] [] [] [])) = [0]
  /\ find_reference Examples.sensor_a Examples.ml_match_queue [0] None
     = Some (Some (0, Examples.ms 150), None)
  /\ next_behind Examples.sensor_a Examples.ml_match_queue 0 = Some (Examples.ms 230)
  /\ MinimalLatencyBuffer.next_reference_time Examples.ml_match_example (Examples.ms 150) None
     = Examples.ms 200.
Proof. repeat split; vm_compute; reflexivity. Qed.

(* ################################################################# *)
(** * The decision of the Match policy on an incomplete tuple *)

Section MatchDecision.
Variable Data : Type.
Implicit Types (rest queue : list (TimeData.t Data)) (m : MatchingMap).

Lemma map_find_None : forall (V : Type) k (m : list (SourceId * V)),
  map_find k m = None <-> ~ In k (map_keys m).
Proof.
  intros V k m; induction m as [|[k' v] m IH]; simpl.
  - tauto.
  - destruct (Nat.eqb k k') eqn:E.
    + apply Nat.eqb_eq in E. subst. split; [discriminate | tauto].
    + apply Nat.eqb_neq in E. rewrite IH. intuition congruence.
Qed.

Lemma map_set_keys : forall (V : Type) k k' (v : V) (m : list (SourceId * V)),
  In k (map_keys (map_set k' v m)) <-> k = k' \/ In k (map_keys m).
Proof.
  intros V k k' v m; induction m as [|[k0 v0] m IH]; simpl.
  - intuition.
  - destruct (Nat.eqb k' k0) eqn:E; simpl.
    + apply Nat.eqb_eq in E. subst. intuition.
    + rewrite IH. intuition.
Qed.

Lemma take_if_closer_keys : forall k k' idx d m,
  In k (map_keys (take_if_closer k' idx d m)) <-> k = k' \/ In k (map_keys m).
Proof.
  intros k k' idx d m. unfold take_if_closer, map_index.
  destruct (map_find k' m) as [e|] eqn:E.
  - assert (Hk' : In k' (map_keys m)).
    { apply MinimalLatencyFacts.map_find_In in E. unfold map_keys.
      change k' with (fst (k', e)). now apply in_map. }
    destruct (MatchMapEntry.below_tau _ e).
    + rewrite map_set_keys. tauto.
    + split; [tauto | intros [-> | H]; assumption].
  - simpl. rewrite MinimalLatencyFacts.map_set_set, map_set_keys. tauto.
Qed.

(** [found_better_for_next] of the fixed-lag buffer's matching loop. *)
Lemma match_scan_flag : forall reference_stream t_ref t_next rest idx m,
  snd (FixedLagBuffer.match_scan reference_stream t_ref t_next idx rest m) = true
  <-> new_source_fits_next reference_stream t_ref t_next (map_keys m) rest.
Proof.
  intros R t_ref t_next rest; induction rest as [|element rest IH]; intros idx m.
  - simpl. split; [discriminate |].
    intros (pre & e & post & H & _). destruct pre; discriminate.
  - simpl. destruct (Nat.eqb (TimeData.id element) R) eqn:Eid.
    + apply Nat.eqb_eq in Eid. rewrite IH. split.
      * intros (pre & e & post & -> & H1 & H2 & H3 & H4).
        exists (element :: pre), e, post. repeat split; auto.
        -- destruct H as [<- | H]; [congruence | now apply H3].
        -- destruct H as [<- | H]; [congruence | now apply H3].
      * intros (pre & e & post & H & H1 & H2 & H3 & H4).
        destruct pre as [|x pre]; simpl in H; injection H as <- ->; [congruence |].
        exists pre, e, post. repeat split; auto; apply H3; simpl; auto.
    + apply Nat.eqb_neq in Eid.
      change (chrono_abs (TimeData.meas_time element - t_next)
              <? chrono_abs (TimeData.meas_time element - t_ref))%Z
        with (fits_next_better t_ref t_next element).
      destruct (fits_next_better t_ref t_next element) eqn:Efit.
      * destruct (map_find (TimeData.id element) m) eqn:Efind; simpl.
        -- split; [discriminate |].
           intros (pre & e & post & H & H1 & H2 & H3 & H4).
           destruct pre as [|x pre]; simpl in H; injection H as <- ->.
           ++ exfalso. apply H4. apply MinimalLatencyFacts.map_find_In in Efind.
              unfold map_keys. change (TimeData.id element) with (fst (TimeData.id element, t)).
              now apply in_map.
           ++ destruct (H3 element (or_introl eq_refl) Eid). congruence.
        -- split; [intros _ | reflexivity].
           exists [], element, rest. repeat split; auto; try contradiction.
           now apply map_find_None.
      * rewrite IH. split.
        -- intros (pre & e & post & -> & H1 & H2 & H3 & H4).
           exists (element :: pre), e, post.
           rewrite take_if_closer_keys in H4.
           repeat split; auto.
           ++ destruct H as [<- | H]; [assumption | now apply H3].
           ++ destruct H as [<- | H]; [intros E; apply H4; now left | now apply H3].
        -- intros (pre & e & post & H & H1 & H2 & H3 & H4).
           destruct pre as [|x pre]; simpl in H; injection H as <- ->; [congruence |].
           exists pre, e, post. rewrite take_if_closer_keys.
           repeat split; auto; try (apply H3; simpl; auto).
           intros [E | E]; [| contradiction].
           destruct (H3 element (or_introl eq_refl) Eid). congruence.
Qed.
End MatchDecision.

(** C2 (as amended).  In Match mode, when the matching map does not reach the
    required number of sources: the fixed-lag buffer returns no tuple, and it
    discards the reference exactly when its scan of the whole queue (from the
    first sample, ready or not) stops at a sample that fits the next
    reference better and whose source has no entry in the map yet, otherwise
    it discards nothing; the minimal-latency buffer returns no tuple and
    always discards the reference. *)
Theorem match_incomplete_tuple (Data : Type) (iteration_order : list SourceId -> list SourceId) :
  (forall (b : FixedLagBuffer.t Data) (ref_idx : nat) (t_ref t_next : Time),
      let stream :=
        MatchParams.reference_stream (FixedLagBuffer.match_ (FixedLagBuffer._params b)) in
      length (fst (FixedLagBuffer.match_scan stream t_ref t_next 0 (FixedLagBuffer._data b)
                     [(stream, MatchMapEntry.make ref_idx (Some 0%float))]))
      <> MatchParams.num_streams (FixedLagBuffer.match_ (FixedLagBuffer._params b)) ->
      (new_source_fits_next stream t_ref t_next [stream] (FixedLagBuffer._data b) ->
       FixedLagBuffer.match_from iteration_order b ref_idx t_ref t_next = ([], [ref_idx]))
      /\ (~ new_source_fits_next stream t_ref t_next [stream] (FixedLagBuffer._data b) ->
          FixedLagBuffer.match_from iteration_order b ref_idx t_ref t_next = ([], [])))
  /\ (forall (b : MinimalLatencyBuffer.t Data) (queue : list (TimeData.t Data))
             (ready : IndexList) (ref_idx : nat) (t_ref t_next : Time)
             (m m' : MatchingMap) (latest_data_idx : nat) (found_better_sample : bool),
         let stream :=
           MatchParams.reference_stream
             (MinimalLatencyBuffer.match_ (MinimalLatencyBuffer._params b)) in
         MinimalLatencyBuffer.match_ready stream t_ref t_next queue ready
           [(stream, MatchMapEntry.make ref_idx (Some 0%float))] 0
         = Some (m, latest_data_idx) ->
         MinimalLatencyBuffer.match_waiting stream t_ref t_next
           (skipn (latest_data_idx + 1) queue) m = (m', found_better_sample) ->
         length m' <> length (MinimalLatencyBuffer._source_infos b) ->
         MinimalLatencyBuffer.match_from iteration_order b queue ready ref_idx t_ref t_next
         = Some ([], [ref_idx])).
Proof.
  split.
  - intros b ref_idx t_ref t_next stream Hlen.
    pose proof (@match_scan_flag Data stream t_ref t_next (FixedLagBuffer._data b) 0
                  [(stream, MatchMapEntry.make ref_idx (Some 0%float))]) as Hflag.
    unfold FixedLagBuffer.match_from. fold stream.
    destruct (FixedLagBuffer.match_scan stream t_ref t_next 0 (FixedLagBuffer._data b) _)
      as [m flag].
    simpl in Hlen, Hflag.
    apply Nat.eqb_neq in Hlen. rewrite Hlen. simpl.
    unfold FixedLagBuffer.incomplete_tuple.
    split; intros H.
    + apply Hflag in H. now rewrite H.
    + destruct flag; [exfalso; apply H, Hflag; reflexivity | reflexivity].
  - intros b queue ready ref_idx t_ref t_next m m' latest better stream Hready Hwait Hlen.
    unfold MinimalLatencyBuffer.match_from. fold stream.
    rewrite Hready, Hwait.
    apply Nat.eqb_neq in Hlen. now rewrite Hlen.
Qed.

(** On [fl_match_example] with the reference at 200 ms and the next
    reference at 250 ms, the scan stops at B (230 ms), which has no entry
    yet: the reference is discarded. *)
Lemma match_incomplete_tuple_witness :
  FixedLagBuffer.match_from Examples.insertion_order Examples.fl_match_example 0
    (Examples.ms 200) (Examples.ms 250) = ([], [0]).
Proof.
  apply (proj1 (match_incomplete_tuple unit Examples.insertion_order)
           Examples.fl_match_example 0 (Examples.ms 200) (Examples.ms 250)).
  - vm_compute. discriminate.
  - exists [TimeData.of_sample Examples.sensor_a (Examples.ms 250) (Examples.ms 200) tt],
      (TimeData.of_sample Examples.sensor_b (Examples.ms 305) (Examples.ms 230) tt),
      [TimeData.of_sample Examples.sensor_a (Examples.ms 300) (Examples.ms 250) tt].
    split; [reflexivity |]. split; [discriminate |]. split; [reflexivity |].
    split.
    + intros x [<- | []] H. exfalso. apply H. reflexivity.
    + intros [H | []]. discriminate.
Defined.

(** C2 fails in both buffers.  The minimal-latency buffer [ml_lonely_reference]
    holds nothing but one sample of the reference stream, so no candidate
    for the next reference can be observed; [pop (ms 110)] discards the
    reference all the same.  On [fl_match_example], [pop (ms 275)] finds only
    the reference (index 0) ready; the candidate B at 230 ms is outside the
    ready set, and the reference is discarded. *)
Lemma match_discards_without_ready_candidate :
  map TimeData.id (MinimalLatencyBuffer._data Examples.ml_lonely_reference)
  = [Examples.sensor_a]
  /\ Examples.summary
       (Examples.ml_pop Examples.insertion_order Examples.ml_lonely_reference
          (Examples.ms 110))
     = Some ([], [Examples.ms 100], Examples.ms 50)
  /\ FixedLagBuffer.select 0%Z (Examples.ms 275 - Examples.ms 50)%Z 0
       (FixedLagBuffer._data Examples.fl_match_example) [] [] = ([0], [])
  /\ Examples.summary
       (FixedLagBuffer.pop Examples.insertion_order Examples.fl_match_example
          (Examples.ms 275))
     = Some ([], [Examples.ms 200], 0%Z).
Proof. repeat split; vm_compute; reflexivity. Qed.

(* ################################################################# *)
(** * The minimal-latency buffer returns from [pop] in Match mode *)

Section MatchReturns.
Variable Data : Type.
Variable normal_quantile : float -> float -> float -> float.
Variable hypot : float -> float -> float.
Variable iteration_order : list SourceId -> list SourceId.
Implicit Types (queue : list (TimeData.t Data)) (m : MatchingMap) (ready : IndexList).

Lemma map_set_NoDup : forall (V : Type) k (v : V) (m : list (SourceId * V)),
  NoDup (map_keys m) -> NoDup (map_keys (map_set k v m)).
Proof.
  intros V k v m; induction m as [|[k' v'] m IH]; simpl; intros H.
  - repeat constructor. intros [].
  - inversion H as [|? ? Hnotin Hnodup]; subst.
    destruct (Nat.eqb k k') eqn:E; simpl.
    + apply Nat.eqb_eq in E. subst. now constructor.
    + apply Nat.eqb_neq in E. constructor; [| now apply IH].
      fold (map_keys (map_set k v m)). rewrite map_set_keys.
      intros [-> | Hin]; [congruence | contradiction].
Qed.

Lemma map_set_own : forall queue m k v x,
  entries_own queue m ->
  nth_error queue (MatchMapEntry.idx v) = Some x -> TimeData.id x = k ->
  entries_own queue (map_set k v m).
Proof.
  intros queue m k v x [Hkeys Hall] Hx Hid. split; [now apply map_set_NoDup |].
  clear Hkeys. induction Hall as [|[k' v'] m Hv Hall IH]; simpl.
  - repeat constructor. simpl. eauto.
  - destruct (Nat.eqb k k'); constructor; simpl; eauto.
Qed.

Lemma take_if_closer_own : forall queue m k idx d x,
  entries_own queue m -> nth_error queue idx = Some x -> TimeData.id x = k ->
  entries_own queue (take_if_closer k idx d m).
Proof.
  intros queue m k idx d x Hm Hx Hid. unfold take_if_closer, map_index.
  destruct (map_find k m) as [e|].
  - destruct (MatchMapEntry.below_tau _ e); [| assumption].
    eapply map_set_own; eassumption.
  - simpl. rewrite MinimalLatencyFacts.map_set_set.
    eapply map_set_own; eassumption.
Qed.

(** The loop over the ready indices returns when they are indices of the
    queue, and its map keeps the invariant. *)
Lemma match_ready_own : forall reference_stream t_ref t_next queue ready m latest,
  Forall (fun i => i < length queue) ready -> entries_own queue m ->
  exists m' latest',
    MinimalLatencyBuffer.match_ready reference_stream t_ref t_next queue ready m latest
    = Some (m', latest')
    /\ entries_own queue m'.
Proof.
  intros R t_ref t_next queue ready m latest H; revert m latest.
  induction H as [|idx ready Hidx H IH]; intros m latest Hm; simpl.
  - eauto.
  - apply nth_error_Some in Hidx.
    destruct (nth_error queue idx) as [element|] eqn:E; [| congruence].
    destruct (Nat.eqb (TimeData.id element) R); [now apply IH |].
    destruct (_ <? _)%Z; [eauto |].
    apply IH. eapply take_if_closer_own; eauto.
Qed.

Lemma first_of_stream_spec : forall stream queue inds ref_idx t_ref behind,
  first_of_stream stream queue inds = Some (ref_idx, t_ref, behind) ->
  In ref_idx inds
  /\ exists x, nth_error queue ref_idx = Some x /\ TimeData.id x = stream.
Proof.
  intros stream queue inds; induction inds as [|i inds IH];
    intros ref_idx t_ref behind H; simpl in H.
  - discriminate.
  - destruct (nth_error queue i) as [e|] eqn:E; [| discriminate].
    destruct (Nat.eqb (TimeData.id e) stream) eqn:Eid.
    + injection H as <- _ _. apply Nat.eqb_eq in Eid. split; [now left | eauto].
    + destruct (IH _ _ _ H) as [Hin Hx]. split; [now right | assumption].
Qed.

Lemma flat_map_NoDup : forall (A B : Type) (f : A -> list B) (l : list A),
  NoDup l -> (forall a, NoDup (f a)) ->
  (forall a a' y, In a l -> In a' l -> In y (f a) -> In y (f a') -> a = a') ->
  NoDup (flat_map f l).
Proof.
  intros A B f l H Hf Hinj; induction H as [|a l Hnotin H IH]; simpl.
  - constructor.
  - apply NoDup_app.
    + apply Hf.
    + apply IH. intros x x' y Hx Hx'. apply Hinj; now right.
    + intros y Hy Hy'. apply in_flat_map in Hy' as [a' [Ha' Hy']].
      assert (a = a') by (eapply Hinj; [now left | now right | exact Hy | exact Hy']).
      subst. contradiction.
Qed.

(** The tuple names no index twice when the iteration visits no key
    twice. *)
Lemma tuple_of_NoDup : forall queue m,
  visits_once iteration_order -> entries_own queue m ->
  NoDup (tuple_of iteration_order m).
Proof.
  intros queue m Hio [Hkeys Hall]. unfold tuple_of.
  apply flat_map_NoDup.
  - now apply Hio.
  - intros k. destruct (map_find k m); repeat constructor. intros [].
  - intros k k' i _ _ Hi Hi'.
    destruct (map_find k m) as [e|] eqn:E; [| contradiction].
    destruct (map_find k' m) as [e'|] eqn:E'; [| contradiction].
    destruct Hi as [Hi | []]. destruct Hi' as [Hi' | []].
    apply MinimalLatencyFacts.map_find_In in E, E'.
    rewrite Forall_forall in Hall.
    destruct (Hall _ E) as (x & Hx & Hid). destruct (Hall _ E') as (x' & Hx' & Hid').
    simpl in *. congruence.
Qed.

(** [runMatching] returns on indices of the queue, with a tuple that names
    no index twice. *)
Lemma runMatching_returns : forall (b : MinimalLatencyBuffer.t Data) queue ready,
  visits_once iteration_order ->
  Forall (fun i => i < length queue) ready ->
  exists tuple_inds to_delete,
    MinimalLatencyBuffer.runMatching iteration_order b queue ready
    = Some (tuple_inds, to_delete)
    /\ NoDup tuple_inds.
Proof.
  intros b queue ready Hio H. unfold MinimalLatencyBuffer.runMatching.
  assert (H' : Forall (fun i => i < length queue) (sort_indices ready)).
  { rewrite Forall_forall in *. intros i Hi. apply H. now apply sort_indices_In. }
  rewrite (@find_reference_spec Data _ _ _ H').
  set (R := MatchParams.reference_stream (MinimalLatencyBuffer.match_ _)).
  destruct (first_of_stream R queue (sort_indices ready))
    as [[[ref_idx t_ref] behind]|] eqn:Eref.
  2:{ exists [], []. split; [reflexivity | constructor]. }
  apply first_of_stream_spec in Eref as (_ & x & Hx & Hid).
  unfold MinimalLatencyBuffer.match_from. fold R.
  assert (Hm : entries_own queue [(R, MatchMapEntry.make ref_idx (Some 0%float))]).
  { split; [repeat constructor; intros [] |]. repeat constructor. simpl. eauto. }
  match goal with
  | |- context [MinimalLatencyBuffer.match_ready R t_ref ?t queue _ _ 0] =>
      destruct (@match_ready_own R t_ref t queue (sort_indices ready) _ 0 H' Hm)
        as (m & latest & -> & Hown);
      destruct (MinimalLatencyBuffer.match_waiting R t_ref t
                  (skipn (latest + 1) queue) m) as [m' better] eqn:Ew
  end.
  destruct (negb _).
  - eexists. eexists. split; [reflexivity | constructor].
  - destruct better.
    + eexists. eexists. split; [reflexivity | constructor].
    + apply MinimalLatencyFacts.match_waiting_unchanged in Ew. subst m'.
      eexists. eexists. split; [reflexivity |].
      eapply tuple_of_NoDup; eassumption.
Qed.

(** [pop] returns in Match mode. *)
Lemma pop_returns_match : forall (b : MinimalLatencyBuffer.t Data) time,
  visits_once iteration_order ->
  MinimalLatencyBuffer.mode (MinimalLatencyBuffer._params b) = MATCH ->
  exists r b',
    MinimalLatencyBuffer.pop normal_quantile hypot iteration_order b time = Some (r, b').
Proof.
  intros b time Hio Hmode. unfold MinimalLatencyBuffer.pop.
  destruct (time <? MinimalLatencyBuffer._current_time b)%Z; [eauto |].
  unfold MinimalLatencyBuffer.pop_indices. rewrite Hmode.
  destruct (MinimalLatencyFacts.scan_spec normal_quantile hypot b
              (MinimalLatencyBuffer._data b)
              (MinimalLatencyBuffer.mkScan time [] [] [] [] []))
    as (suffix & o & d & _ & _ & Ho & Hdi & Hde & Hao & Had & Ho' & Hd' & _).
  cbv zeta in *. simpl in Ho, Hdi, Hde, Ho', Hd'.
  set (s0 := MinimalLatencyBuffer.scan normal_quantile hypot b 0
               (MinimalLatencyBuffer._data b)
               (MinimalLatencyBuffer.mkScan time [] [] [] [] [])) in *.
  assert (Hrange : forall (P : TimeData.t Data -> Prop) inds i,
             all_at (MinimalLatencyBuffer._queue s0) P 0 inds -> In i inds ->
             i < length (MinimalLatencyBuffer._queue s0)).
  { intros P inds i Hall Hi. eapply all_at_in_range; eassumption. }
  assert (Hdisjoint : forall i, In i d -> ~ In i o).
  { intros i Hi Hi'. apply (all_at_disjoint Hd' Ho') with (i := i); auto.
    unfold late_sample, ready_sample. intros e [H1 _] [H2 _]. lia. }
  destruct (MinimalLatencyBuffer.output_inds s0) as [|front rest] eqn:Eout.
  - (* nothing is ready *)
    rewrite Eout. simpl. rewrite Hdi, Hde.
    destruct (elements_at_total Hd') as (discarded & -> & _).
    rewrite (@remove_indices_NoDup _ (MinimalLatencyBuffer._queue s0) (d ++ [])); eauto.
    + rewrite app_nil_r. now apply ascending_NoDup.
    + intros i Hi. rewrite app_nil_r in Hi. exact (Hrange _ _ _ Hd' Hi).
  - rewrite <- Eout in *.
    assert (Hready : Forall (fun i => i < length (MinimalLatencyBuffer._queue s0))
                       (MinimalLatencyBuffer.output_inds s0)).
    { apply Forall_forall. intros i Hi. rewrite Ho in Hi. exact (Hrange _ _ _ Ho' Hi). }
    destruct (@runMatching_returns b (MinimalLatencyBuffer._queue s0)
                (MinimalLatencyBuffer.output_inds s0) Hio Hready)
      as (tuple_inds & to_delete & Em & Hnodup).
    rewrite Em. simpl.
    destruct (MinimalLatencyFacts.runMatching_incl _ _ _ _ Em)
      as (Htuple & Hdel & Hone & Hlen).
    rewrite Ho in Htuple, Hdel. rewrite Hdi, Hde.
    assert (Hat : all_at (MinimalLatencyBuffer._queue s0) (fun _ => True) 0 tuple_inds).
    { eapply all_at_weaken;
        [eapply MinimalLatencyFacts.all_at_incl; [exact Ho' | exact Htuple] | lia | auto]. }
    assert (Hdt : all_at (MinimalLatencyBuffer._queue s0) (fun _ => True) 0 (d ++ to_delete)).
    { apply Forall_app; split.
      - eapply all_at_weaken; [exact Hd' | lia | auto].
      - eapply all_at_weaken;
          [eapply MinimalLatencyFacts.all_at_incl; [exact Ho' | exact Hdel] | lia | auto]. }
    destruct (elements_at_total Hat) as (output & -> & _).
    destruct (elements_at_total Hdt) as (discarded & -> & _).
    rewrite (@remove_indices_NoDup _ (MinimalLatencyBuffer._queue s0)
               ((d ++ to_delete) ++ tuple_inds)); eauto.
    + apply NoDup_app; [apply NoDup_app | assumption |].
      * now apply ascending_NoDup.
      * destruct to_delete as [|i [|j l]]; simpl in Hlen; [constructor | | lia].
        repeat constructor. intros [].
      * intros i Hi Hi'. apply (Hdisjoint i Hi). now apply Hdel.
      * intros i Hi Hi'. apply in_app_or in Hi as [Hi | Hi].
        -- apply (Hdisjoint i Hi). now apply Htuple.
        -- destruct Hone as [-> | ->]; contradiction.
    + intros i Hi. apply in_app_or in Hi as [Hi | Hi].
      * exact (Hrange _ _ _ Hdt Hi).
      * exact (Hrange _ _ _ Hat Hi).
Qed.

(** No index is both in the output list and in the discard list of a
    [pop]. *)
Lemma pop_indices_apart : forall (b : MinimalLatencyBuffer.t Data) time s,
  MinimalLatencyBuffer.pop_indices normal_quantile hypot iteration_order b time = Some s ->
  forall i, In i (MinimalLatencyBuffer.output_inds s) ->
            ~ In i (MinimalLatencyBuffer.discard_inds s).
Proof.
  intros b time s H. unfold MinimalLatencyBuffer.pop_indices in H.
  destruct (MinimalLatencyFacts.scan_spec normal_quantile hypot b
              (MinimalLatencyBuffer._data b)
              (MinimalLatencyBuffer.mkScan time [] [] [] [] []))
    as (suffix & o & d & _ & _ & Ho & Hdi & _ & _ & _ & Ho' & Hd' & _).
  cbv zeta in *. simpl in Ho, Hdi, Ho', Hd'.
  set (s0 := MinimalLatencyBuffer.scan normal_quantile hypot b 0
               (MinimalLatencyBuffer._data b)
               (MinimalLatencyBuffer.mkScan time [] [] [] [] [])) in *.
  assert (Hdisjoint : forall i, In i o -> ~ In i d).
  { intros i Hi Hi'. apply (all_at_disjoint Hd' Ho') with (i := i); auto.
    unfold late_sample, ready_sample. intros e [H1 _] [H2 _]. lia. }
  assert (Hbase : forall i, In i (MinimalLatencyBuffer.output_inds s0) ->
                            ~ In i (MinimalLatencyBuffer.discard_inds s0))
    by (rewrite Ho, Hdi; exact Hdisjoint).
  destruct (MinimalLatencyBuffer.mode (MinimalLatencyBuffer._params b)).
  - assert (s = s0) by (destruct (MinimalLatencyBuffer.output_inds s0); congruence).
    now subst s.
  - destruct (MinimalLatencyBuffer.output_inds s0) as [|front rest] eqn:Eout.
    + injection H as <-. now rewrite Eout.
    + rewrite <- Eout in *.
      destruct (MinimalLatencyBuffer.runBatching b _ _ _) as [out|] eqn:Eb; [| discriminate].
      injection H as <-. simpl.
      apply MinimalLatencyFacts.runBatching_cases in Eb as [-> | ->];
        [intros i [] | exact Hbase].
  - destruct (MinimalLatencyBuffer.output_inds s0) as [|front rest] eqn:Eout.
    + injection H as <-. now rewrite Eout.
    + rewrite <- Eout in *.
      destruct (MinimalLatencyBuffer.runMatching iteration_order b _ _)
        as [[tuple_inds to_delete]|] eqn:Em; [| discriminate].
      injection H as <-. simpl.
      apply MinimalLatencyFacts.runMatching_incl in Em as (Htuple & _ & Hone & _).
      intros i Hi Hi'. apply in_app_or in Hi' as [Hi' | Hi'].
      * apply (Hbase i); [now apply Htuple | assumption].
      * destruct Hone as [-> | ->]; contradiction.
Qed.
End MatchReturns.

(* ################################################################# *)
(** * Reset, current time and buffer time *)

Section PushFacts.
Variable Data : Type.
Variable normal_quantile : float -> float -> float -> float.
Variable hypot : float -> float -> float.

Lemma minimal_latency_push_reset : forall (b : MinimalLatencyBuffer.t Data) id receipt_time
  meas_time data,
  (MinimalLatencyBuffer.reset_threshold (MinimalLatencyBuffer._params b)
   <? MinimalLatencyBuffer._current_time b - receipt_time)%Z = true ->
  MinimalLatencyBuffer.push normal_quantile hypot b id receipt_time meas_time data
  = (RESET, MinimalLatencyBuffer.reset b).
Proof.
  intros b id receipt_time meas_time data H.
  unfold MinimalLatencyBuffer.push. now rewrite H.
Qed.

Lemma minimal_latency_push_ok : forall (b : MinimalLatencyBuffer.t Data) id receipt_time
  meas_time data,
  (MinimalLatencyBuffer.reset_threshold (MinimalLatencyBuffer._params b)
   <? MinimalLatencyBuffer._current_time b - receipt_time)%Z = false ->
  let after :=
    MinimalLatencyBuffer.push normal_quantile hypot b id receipt_time meas_time data in
  fst after = OK
  /\ MinimalLatencyBuffer._buffer_time (snd after) = MinimalLatencyBuffer._buffer_time b
  /\ MinimalLatencyBuffer._current_time (snd after)
     = Z.max (MinimalLatencyBuffer._current_time b) receipt_time.
Proof.
  intros b id receipt_time meas_time data H. cbv zeta.
  unfold MinimalLatencyBuffer.push. rewrite H.
  destruct (map_find id (MinimalLatencyBuffer._source_infos b)); [| now repeat split].
  destruct (MinimalLatencyBuffer.find_best_placeholder _ _ _ _ _ _ _) as [best missed].
  now repeat split.
Qed.
End PushFacts.

(** C4.  In both buffers [push] returns [RESET] exactly when
    [current_time - receipt_time > reset_threshold] at entry; the buffer is
    then reset (empty queue, [buffer_time] and [current_time] at epoch, no
    estimators) and the sample is not queued; otherwise [push] returns
    [OK]. *)
Theorem push_reset_rule (Data : Type) (normal_quantile : float -> float -> float -> float)
  (hypot : float -> float -> float)
  (fixed_lag : FixedLagBuffer.t Data) (minimal_latency : MinimalLatencyBuffer.t Data)
  (id : SourceId) (receipt_time meas_time : Time) (data : Data) :
  let fl := FixedLagBuffer.push fixed_lag id receipt_time meas_time data in
  let ml :=
    MinimalLatencyBuffer.push normal_quantile hypot minimal_latency id receipt_time
      meas_time data in
  let fl_late :=
    (FixedLagBuffer._current_time fixed_lag - receipt_time
     > FixedLagBuffer.reset_threshold (FixedLagBuffer._params fixed_lag))%Z in
  let ml_late :=
    (MinimalLatencyBuffer._current_time minimal_latency - receipt_time
     > MinimalLatencyBuffer.reset_threshold (MinimalLatencyBuffer._params minimal_latency))%Z in
  (fst fl = RESET <-> fl_late)
  /\ (fl_late ->
      snd fl = FixedLagBuffer.reset fixed_lag
      /\ FixedLagBuffer._data (snd fl) = []
      /\ FixedLagBuffer._buffer_time (snd fl) = epoch
      /\ FixedLagBuffer._current_time (snd fl) = epoch)
  /\ (~ fl_late -> fst fl = OK)
  /\ (fst ml = RESET <-> ml_late)
  /\ (ml_late ->
      snd ml = MinimalLatencyBuffer.reset minimal_latency
      /\ MinimalLatencyBuffer._data (snd ml) = []
      /\ MinimalLatencyBuffer._source_infos (snd ml) = []
      /\ MinimalLatencyBuffer._buffer_time (snd ml) = epoch
      /\ MinimalLatencyBuffer._current_time (snd ml) = epoch)
  /\ (~ ml_late -> fst ml = OK).
Proof.
  cbv zeta.
  rewrite FixedLagFacts.fl_push_reset.
  destruct (FixedLagBuffer.reset_threshold (FixedLagBuffer._params fixed_lag)
            <? FixedLagBuffer._current_time fixed_lag - receipt_time)%Z eqn:Efl;
    [apply Z.ltb_lt in Efl | apply Z.ltb_ge in Efl];
    (destruct (MinimalLatencyBuffer.reset_threshold (MinimalLatencyBuffer._params minimal_latency)
               <? MinimalLatencyBuffer._current_time minimal_latency - receipt_time)%Z eqn:Eml;
     [rewrite (minimal_latency_push_reset normal_quantile hypot _ _ _ _ _ Eml);
      apply Z.ltb_lt in Eml
     | destruct (minimal_latency_push_ok normal_quantile hypot minimal_latency id
                   receipt_time meas_time data Eml) as (Hok & _);
       cbv zeta in Hok; rewrite Hok; apply Z.ltb_ge in Eml]);
    simpl; repeat split; intros; try reflexivity; try lia; try discriminate.
Qed.

(** C10.  [pop] leaves [current_time] as it is, in both buffers; and it
    returns: in the fixed-lag buffer in the modes Single and Batch on a
    sorted queue, in the minimal-latency buffer in the modes Single and
    Batch, and in Match mode when the iteration over the matching map visits
    no key twice. *)
Theorem pop_keeps_current_time (Data : Type)
  (normal_quantile : float -> float -> float -> float) (hypot : float -> float -> float)
  (iteration_order : list SourceId -> list SourceId) :
  (forall (b : FixedLagBuffer.t Data) (time : Time) r b',
      FixedLagBuffer.pop iteration_order b time = Some (r, b') ->
      FixedLagBuffer.getCurrentTime b' = FixedLagBuffer.getCurrentTime b)
  /\ (forall (b : MinimalLatencyBuffer.t Data) (time : Time) r b',
         MinimalLatencyBuffer.pop normal_quantile hypot iteration_order b time = Some (r, b') ->
         MinimalLatencyBuffer._current_time b' = MinimalLatencyBuffer._current_time b)
  /\ (forall (b : FixedLagBuffer.t Data) (time : Time),
         queue_sorted (FixedLagBuffer._data b) ->
         FixedLagBuffer.mode (FixedLagBuffer._params b) <> MATCH ->
         exists r b', FixedLagBuffer.pop iteration_order b time = Some (r, b'))
  /\ (forall (b : MinimalLatencyBuffer.t Data) (time : Time),
         (MinimalLatencyBuffer.mode (MinimalLatencyBuffer._params b) = MATCH ->
          visits_once iteration_order) ->
         exists r b',
           MinimalLatencyBuffer.pop normal_quantile hypot iteration_order b time
           = Some (r, b')).
Proof.
  split; [| split; [| split]].
  - intros b time r b' H. unfold FixedLagBuffer.getCurrentTime.
    eapply FixedLagFacts.fl_pop_current_time; eassumption.
  - intros b time r b' H.
    eapply MinimalLatencyFacts.pop_spec; eassumption.
  - intros b time Hs Hmode.
    destruct (@FixedLagFacts.pop_in_sequence Data iteration_order b time Hs Hmode)
      as (out & disc & r & b' & _ & Hpop & _).
    eauto.
  - intros b time Hmode.
    destruct (MinimalLatencyBuffer.mode (MinimalLatencyBuffer._params b)) eqn:E.
    + apply MinimalLatencyFacts.pop_total. congruence.
    + apply MinimalLatencyFacts.pop_total. congruence.
    + apply pop_returns_match; auto.
Qed.

(** The [pop] of the unit test [zeroLatency] that follows the push of B:
    [current_time] stays at 60 ms. *)
Lemma pop_keeps_current_time_witness :
  exists r b',
    Examples.ml_pop Examples.insertion_order Examples.ml_zero_latency (Examples.ms 60)
    = Some (r, b')
    /\ MinimalLatencyBuffer._current_time b' = Examples.ms 60.
Proof.
  destruct (Examples.ml_pop Examples.insertion_order Examples.ml_zero_latency (Examples.ms 60))
    as [[r b']|] eqn:E; [| vm_compute in E; discriminate].
  exists r, b'. split; [reflexivity |].
  exact (proj1 (proj2 (pop_keeps_current_time unit Examples.no_quantile Examples.no_hypot
                         Examples.insertion_order))
           Examples.ml_zero_latency (Examples.ms 60) r b' E).
Defined.

(** C1 (as amended).  A sample the minimal-latency buffer releases has a
    [meas_time] that is not less than the [buffer_time] held when [pop] was
    called (it may be equal), in every mode and every state; a sample the
    fixed-lag buffer releases in the modes Single and Batch, in a state
    reached from the constructor, has a [meas_time] strictly greater than
    it.  In these cases [pop] returns a [buffer_time] that is not less than
    the one held before and that is the buffer's new one, and a [push] that
    returns [OK] leaves [buffer_time] unchanged.  These [pop]s do return: the
    one of the fixed-lag buffer in the modes Single and Batch, the one of the
    minimal-latency buffer in every mode (in Match mode when the iteration
    over the matching map visits no key twice). *)
Theorem pop_releases_in_sequence (Data : Type)
  (normal_quantile : float -> float -> float -> float) (hypot : float -> float -> float)
  (iteration_order : list SourceId -> list SourceId) :
  (forall (b : MinimalLatencyBuffer.t Data) (time : Time) r b',
      MinimalLatencyBuffer.pop normal_quantile hypot iteration_order b time = Some (r, b') ->
      Forall (fun e => (MinimalLatencyBuffer._buffer_time b <= TimeData.meas_time e)%Z)
        (PopReturn.data r)
      /\ (MinimalLatencyBuffer._buffer_time b <= PopReturn.buffer_time r)%Z
      /\ MinimalLatencyBuffer._buffer_time b' = PopReturn.buffer_time r)
  /\ (forall (b : MinimalLatencyBuffer.t Data) (time : Time),
         (MinimalLatencyBuffer.mode (MinimalLatencyBuffer._params b) = MATCH ->
          visits_once iteration_order) ->
         exists r b',
           MinimalLatencyBuffer.pop normal_quantile hypot iteration_order b time
           = Some (r, b'))
  /\ (forall (b : FixedLagBuffer.t Data) (time : Time),
         fixed_lag_reachable normal_quantile iteration_order b ->
         FixedLagBuffer.mode (FixedLagBuffer._params b) <> MATCH ->
         exists r b',
           FixedLagBuffer.pop iteration_order b time = Some (r, b')
           /\ Forall (fun e => (FixedLagBuffer._buffer_time b < TimeData.meas_time e)%Z)
                (PopReturn.data r)
           /\ (FixedLagBuffer._buffer_time b <= PopReturn.buffer_time r)%Z
           /\ FixedLagBuffer._buffer_time b' = PopReturn.buffer_time r)
  /\ (forall (b : MinimalLatencyBuffer.t Data) id receipt_time meas_time data,
         let after :=
           MinimalLatencyBuffer.push normal_quantile hypot b id receipt_time meas_time data in
         fst after = OK ->
         MinimalLatencyBuffer._buffer_time (snd after) = MinimalLatencyBuffer._buffer_time b)
  /\ (forall (b : FixedLagBuffer.t Data) id receipt_time meas_time data,
         let after := FixedLagBuffer.push b id receipt_time meas_time data in
         fst after = OK ->
         FixedLagBuffer._buffer_time (snd after) = FixedLagBuffer._buffer_time b).
Proof.
  split; [| split; [| split; [| split]]].
  - intros b time r b' H.
    destruct (@MinimalLatencyFacts.pop_spec Data normal_quantile hypot iteration_order
                b time r b' H) as (Hready & Hbt & Hb' & _).
    assert (Hall : Forall (fun e => (MinimalLatencyBuffer._buffer_time b
                                     <= TimeData.meas_time e)%Z) (PopReturn.data r))
      by (eapply Forall_impl; [| exact Hready]; now intros e [He _]).
    repeat split; try assumption.
    rewrite Hbt. now apply last_meas_time_bound.
  - intros b time Hmode.
    destruct (MinimalLatencyBuffer.mode (MinimalLatencyBuffer._params b)) eqn:E.
    + apply MinimalLatencyFacts.pop_total. congruence.
    + apply MinimalLatencyFacts.pop_total. congruence.
    + apply pop_returns_match; auto.
  - intros b time Hreach Hmode.
    apply FixedLagFacts.fl_reachable_sorted in Hreach.
    destruct (@FixedLagFacts.pop_in_sequence Data iteration_order b time Hreach Hmode)
      as (out & disc & r & b' & _ & Hpop & _ & _ & _ & Hall & Hbt & Hb' & _).
    exists r, b'. repeat split; try assumption.
    rewrite Hbt. apply last_meas_time_bound.
    eapply Forall_impl; [| exact Hall]. intros e He; simpl in He; lia.
  - intros b id receipt_time meas_time data after Hok. subst after.
    destruct (MinimalLatencyBuffer.reset_threshold (MinimalLatencyBuffer._params b)
              <? MinimalLatencyBuffer._current_time b - receipt_time)%Z eqn:E.
    + rewrite (minimal_latency_push_reset normal_quantile hypot _ _ _ _ _ E) in Hok.
      discriminate.
    + now apply (minimal_latency_push_ok normal_quantile hypot b id receipt_time
                   meas_time data E).
  - intros b id receipt_time meas_time data after Hok. subst after.
    rewrite FixedLagFacts.fl_push_reset in *.
    destruct (_ <? _)%Z; [discriminate | reflexivity].
Qed.

(** The [pop] of the unit test [zeroLatency] that follows the push of B. *)
Lemma pop_releases_in_sequence_witness :
  exists r b',
    Examples.ml_pop Examples.insertion_order Examples.ml_zero_latency (Examples.ms 60)
    = Some (r, b')
    /\ Forall (fun e => (Examples.ms 60 <= TimeData.meas_time e)%Z) (PopReturn.data r)
    /\ (Examples.ms 60 <= PopReturn.buffer_time r)%Z.
Proof.
  destruct (Examples.ml_pop Examples.insertion_order Examples.ml_zero_latency (Examples.ms 60))
    as [[r b']|] eqn:E; [| vm_compute in E; discriminate].
  exists r, b'. split; [reflexivity |].
  destruct (proj1 (pop_releases_in_sequence unit Examples.no_quantile Examples.no_hypot
                     Examples.insertion_order)
              Examples.ml_zero_latency (Examples.ms 60) r b' E) as (H1 & H2 & _).
  split; [exact H1 | exact H2].
Defined.

(** C1 fails in the unit test [zeroLatency]: A at 60 ms has been released
    and [buffer_time] is 60 ms; the next [pop] releases B, whose [meas_time]
    is 60 ms as well. *)
Lemma minimal_latency_releases_equal_time :
  MinimalLatencyBuffer._buffer_time Examples.ml_zero_latency = Examples.ms 60
  /\ Examples.summary
       (Examples.ml_pop Examples.insertion_order Examples.ml_zero_latency (Examples.ms 60))
     = Some ([Examples.ms 60], [], Examples.ms 60).
Proof. split; vm_compute; reflexivity. Qed.

(* ################################################################# *)
(** * Placeholders *)

Section PlaceholderFacts.
Variable Data : Type.
Variable normal_quantile : float -> float -> float -> float.
Variable hypot : float -> float -> float.
Implicit Types (queue : list (TimeData.t Data)) (s : SourceId).

Lemma filter_length_perm : forall (A : Type) (f : A -> bool) (l l' : list A),
  Permutation l l' -> length (filter f l) = length (filter f l').
Proof.
  intros A f l l' H; induction H; simpl.
  - reflexivity.
  - destruct (f x); simpl; congruence.
  - destruct (f x), (f y); reflexivity.
  - congruence.
Qed.

Lemma filter_length_le : forall (A : Type) (f g : A -> bool) (l : list A),
  length (filter f (filter g l)) <= length (filter f l).
Proof.
  intros A f g l; induction l as [|x l IH]; simpl.
  - lia.
  - destruct (g x); simpl; destruct (f x); simpl; lia.
Qed.

Lemma placeholders_of_app : forall s queue queue',
  placeholders_of s (queue ++ queue') = placeholders_of s queue ++ placeholders_of s queue'.
Proof. intros. apply filter_app. Qed.

Lemma placeholders_of_sorted : forall s queue,
  length (placeholders_of s (sort_by_meas_time queue)) = length (placeholders_of s queue).
Proof.
  intros s queue. apply filter_length_perm, sort_by_meas_time_perm.
Qed.

(** Overwriting a position with a sample that carries data adds no
    placeholder. *)
Lemma placeholders_of_assign_at : forall s queue i (x : TimeData.t Data),
  TimeData.is_placeholder x = false ->
  length (placeholders_of s (MinimalLatencyBuffer.assign_at i x queue))
  <= length (placeholders_of s queue).
Proof.
  intros s queue; induction queue as [|y queue IH]; intros i x Hx.
  - destruct i; simpl; lia.
  - destruct i as [|i]; simpl.
    + rewrite Hx, andb_false_r.
      destruct (Nat.eqb (TimeData.id y) s && TimeData.is_placeholder y); simpl; lia.
    + specialize (IH i x Hx).
      destruct (Nat.eqb (TimeData.id y) s && TimeData.is_placeholder y); simpl; lia.
Qed.

(** Placeholders of one source, at most [n] of them. *)
Lemma placeholders_of_new : forall s id n (new : list (TimeData.t Data)),
  length new <= n ->
  Forall (fun p => TimeData.is_placeholder p = true /\ TimeData.id p = id) new ->
  length (placeholders_of s new) <= if Nat.eqb s id then n else 0.
Proof.
  intros s id n new Hlen Hall.
  destruct (Nat.eqb s id) eqn:E.
  - unfold placeholders_of. pose proof (filter_length_le
      (fun e : TimeData.t Data => Nat.eqb (TimeData.id e) s && TimeData.is_placeholder e)
      (fun _ => true) new) as H.
    etransitivity; [| exact Hlen].
    clear. induction new as [|x new IH]; simpl; [lia |].
    destruct (_ && _); simpl; lia.
  - apply Nat.eqb_neq in E. unfold placeholders_of.
    induction Hall as [|p new [_ Hp] _ IH]; simpl; [lia |].
    assert (Hne : Nat.eqb (TimeData.id p) s = false) by (apply Nat.eqb_neq; congruence).
    rewrite Hne. simpl. apply IH. simpl in Hlen. lia.
Qed.

Lemma find_best_placeholder_id : forall id meas_time rest i min
  (best : option (nat * TimeData.t Data)) missed j old,
  fst (MinimalLatencyBuffer.find_best_placeholder id meas_time i rest min best missed)
  = Some (j, old) ->
  best = Some (j, old) \/ TimeData.id old = id.
Proof.
  intros id meas_time rest; induction rest as [|sample rest IH];
    intros i min best missed j old H; simpl in H.
  - now left.
  - destruct (Nat.eqb (TimeData.id sample) id && TimeData.is_placeholder sample) eqn:E.
    + destruct (_ <? min)%Z.
      * apply IH in H as [H | H]; [| now right].
        injection H as _ <-. right.
        apply andb_prop in E as [E _]. now apply Nat.eqb_eq.
      * now apply IH in H.
    + now apply IH in H.
Qed.

(** A push adds at most [MAX_INSERTED_PLACEHOLDERS] placeholders of the
    pushed source and none of any other source. *)
Lemma push_placeholders : forall (b : MinimalLatencyBuffer.t Data) id receipt_time
  meas_time data s,
  length (placeholders_of s
            (MinimalLatencyBuffer._data
               (snd (MinimalLatencyBuffer.push normal_quantile hypot b id receipt_time
                       meas_time data))))
  <= length (placeholders_of s (MinimalLatencyBuffer._data b))
     + (if Nat.eqb s id then MinimalLatencyBuffer.MAX_INSERTED_PLACEHOLDERS else 0).
Proof.
  intros b id receipt_time meas_time data s.
  unfold MinimalLatencyBuffer.push.
  destruct (_ <? _)%Z; [simpl; lia |].
  destruct (map_find id (MinimalLatencyBuffer._source_infos b)) as [estimator|].
  2:{ simpl. rewrite placeholders_of_sorted, placeholders_of_app, length_app.
      simpl. rewrite andb_false_r. simpl. lia. }
  destruct (MinimalLatencyBuffer.find_best_placeholder id meas_time 0
              (MinimalLatencyBuffer._data b) _ None 0) as [best missed] eqn:Ebest.
  cbn [snd MinimalLatencyBuffer._data].
  rewrite placeholders_of_sorted.
  etransitivity; [apply filter_length_le |].
  destruct best as [[best_ind old]|].
  - pose proof (f_equal fst Ebest) as Hid. simpl in Hid.
    apply find_best_placeholder_id in Hid as [Hid | Hid]; [discriminate |].
    match goal with
    | |- context [MinimalLatencyBuffer.create_placeholders _ _ b ?e ?n] =>
        destruct (MinimalLatencyFacts.create_placeholders_spec normal_quantile hypot b e n)
          as (Hflag & Hlen & Hall);
        destruct (MinimalLatencyBuffer.create_placeholders normal_quantile hypot b e n)
          as [element new] eqn:Ecp
    end.
    simpl in Hflag, Hlen, Hall.
    rewrite filter_app, length_app.
    apply Nat.add_le_mono.
    + apply placeholders_of_assign_at.
      now rewrite (MinimalLatencyFacts.flagged_placeholder Hflag).
    + apply placeholders_of_new; [exact Hlen |].
      rewrite <- Hid. exact Hall.
  - match goal with
    | |- context [MinimalLatencyBuffer.create_placeholders _ _ b ?e ?n] =>
        destruct (MinimalLatencyFacts.create_placeholders_spec normal_quantile hypot b e n)
          as (Hflag & Hlen & Hall);
        destruct (MinimalLatencyBuffer.create_placeholders normal_quantile hypot b e n)
          as [element new] eqn:Ecp
    end.
    simpl in Hflag, Hlen, Hall.
    rewrite !filter_app, !length_app.
    assert (Hel : placeholders_of s [element] = []).
    { unfold placeholders_of. simpl.
      rewrite (MinimalLatencyFacts.flagged_placeholder Hflag). simpl.
      now rewrite andb_false_r. }
    unfold placeholders_of in Hel. rewrite Hel. simpl. rewrite Nat.add_0_r.
    apply Nat.add_le_mono_l.
    now apply placeholders_of_new.
Qed.
End PlaceholderFacts.

(** C8 (as amended).  One expansion creates at most 10 placeholders, all of
    the source of the expanded sample; a [push] therefore adds at most 10
    placeholders of the pushed source to the queue and none of any other
    source. *)
Theorem placeholder_cap (Data : Type) (normal_quantile : float -> float -> float -> float)
  (hypot : float -> float -> float) (b : MinimalLatencyBuffer.t Data) :
  (forall element : TimeData.t Data,
      let new :=
        snd (MinimalLatencyBuffer.create_placeholders normal_quantile hypot b element
               MinimalLatencyBuffer.MAX_INSERTED_PLACEHOLDERS) in
      length new <= 10
      /\ Forall (fun p => TimeData.is_placeholder p = true
                          /\ TimeData.id p = TimeData.id element) new)
  /\ (forall id receipt_time meas_time data s,
         length (placeholders_of s
                   (MinimalLatencyBuffer._data
                      (snd (MinimalLatencyBuffer.push normal_quantile hypot b id
                              receipt_time meas_time data))))
         <= length (placeholders_of s (MinimalLatencyBuffer._data b))
            + (if Nat.eqb s id then 10 else 0)).
Proof.
  split.
  - intros element.
    destruct (MinimalLatencyFacts.create_placeholders_spec normal_quantile hypot b element
                MinimalLatencyBuffer.MAX_INSERTED_PLACEHOLDERS) as (_ & Hlen & Hall).
    split; assumption.
  - intros. apply push_placeholders.
Qed.

(** C8 fails: after three samples of A that are 50 ms apart and eleven that
    are 1 ms apart, each of the eleven has left one placeholder 50 ms ahead
    of itself, and no pushed sample is late enough to sweep one away. *)
Lemma placeholders_exceed_ten :
  length (placeholders_of Examples.sensor_a (MinimalLatencyBuffer._data Examples.ml_burst))
  = 11.
Proof. vm_compute. reflexivity. Qed.

(* ################################################################# *)
(** * The order of the released samples *)


(** The buffer of an example run has been reached from the buffer the run
    started with. *)
Lemma ml_run_reachable : forall iteration_order calls (b : MinimalLatencyBuffer.t unit),
  minimal_latency_reachable Examples.no_quantile Examples.no_hypot iteration_order b ->
  minimal_latency_reachable Examples.no_quantile Examples.no_hypot iteration_order
    (snd (Examples.ml_run iteration_order b calls)).
Proof.
  intros iteration_order calls; induction calls as [|[id rt mt | t] calls IH]; intros b Hb;
    simpl.
  - exact Hb.
  - apply IH. now apply ml_reach_push.
  - unfold Examples.ml_pop.
    destruct (MinimalLatencyBuffer.pop _ _ _ b t) as [[r b']|] eqn:E; [| exact Hb].
    specialize (IH b' (ml_reach_pop _ Hb E)).
    destruct (Examples.ml_run iteration_order b' calls). exact IH.
Qed.

Lemma ml_zero_latency_run :
  Examples.ml_zero_latency
  = snd (Examples.ml_run Examples.insertion_order
           (MinimalLatencyBuffer.new unit (Examples.ml_params SINGLE Examples.sensor_a))
           [Examples.Pop (Examples.ms 10);
            Examples.Push Examples.sensor_a (Examples.ms 60) (Examples.ms 60);
            Examples.Pop (Examples.ms 60);
            Examples.Push Examples.sensor_b (Examples.ms 60) (Examples.ms 60)]).
Proof. vm_compute. reflexivity. Qed.


(** C9 in Match mode: the tuple is emitted in the order in which the
    [unordered_map] is iterated.  The matching map of the examples has the
    keys A and B, inserted in this order.  If the map is iterated in that
    order, the buffers that hold B in front of A release A first; if it is
    iterated in the other order, the buffers that hold A in front of B
    release B first.  Either way [buffer_time] becomes the [meas_time] of the
    older sample of the tuple. *)
Theorem match_tuple_order (iteration_order : list SourceId -> list SourceId) :
  (iteration_order [Examples.sensor_a; Examples.sensor_b]
   = [Examples.sensor_a; Examples.sensor_b] ->
   Examples.summary (FixedLagBuffer.pop iteration_order Examples.fl_b_before_a (Examples.ms 100))
   = Some ([Examples.ms 50; Examples.ms 40], [], Examples.ms 40)
   /\ Examples.summary (Examples.ml_pop iteration_order Examples.ml_b_before_a (Examples.ms 60))
      = Some ([Examples.ms 50; Examples.ms 40], [], Examples.ms 40))
  /\ (iteration_order [Examples.sensor_a; Examples.sensor_b]
      = [Examples.sensor_b; Examples.sensor_a] ->
      Examples.summary
        (FixedLagBuffer.pop iteration_order Examples.fl_a_before_b (Examples.ms 110))
      = Some ([Examples.ms 60; Examples.ms 50], [], Examples.ms 50)
      /\ Examples.summary
           (Examples.ml_pop iteration_order Examples.ml_a_before_b (Examples.ms 60))
         = Some ([Examples.ms 60; Examples.ms 50], [], Examples.ms 50)).
Proof.
  split; intros H; vm_compute in H; split; vm_compute; rewrite H; reflexivity.
Qed.

(** Both orders of iteration, each on its examples: the released tuple is
    in descending [meas_time] order, and [buffer_time] becomes the older of
    the two. *)
Lemma match_tuple_order_witness :
  (Examples.summary
     (FixedLagBuffer.pop Examples.insertion_order Examples.fl_b_before_a (Examples.ms 100))
   = Some ([Examples.ms 50; Examples.ms 40], [], Examples.ms 40)
   /\ Examples.summary
        (Examples.ml_pop Examples.insertion_order Examples.ml_b_before_a (Examples.ms 60))
      = Some ([Examples.ms 50; Examples.ms 40], [], Examples.ms 40))
  /\ (Examples.summary
        (FixedLagBuffer.pop Examples.reverse_order Examples.fl_a_before_b (Examples.ms 110))
      = Some ([Examples.ms 60; Examples.ms 50], [], Examples.ms 50)
      /\ Examples.summary
           (Examples.ml_pop Examples.reverse_order Examples.ml_a_before_b (Examples.ms 60))
         = Some ([Examples.ms 60; Examples.ms 50], [], Examples.ms 50)).
Proof.
  split.
  - apply (proj1 (match_tuple_order Examples.insertion_order)). reflexivity.
  - apply (proj2 (match_tuple_order Examples.reverse_order)). reflexivity.
Defined.

(** The buffer of an example run of the fixed-lag buffer has been reached
    from the buffer the run started with. *)
Lemma fl_run_reachable : forall iteration_order calls (b : FixedLagBuffer.t unit),
  fixed_lag_reachable Examples.no_quantile iteration_order b ->
  fixed_lag_reachable Examples.no_quantile iteration_order
    (snd (Examples.fl_run iteration_order b calls)).
Proof.
  intros iteration_order calls; induction calls as [|[id rt mt | t] calls IH]; intros b Hb;
    simpl.
  - exact Hb.
  - apply IH. now apply fl_reach_push.
  - destruct (FixedLagBuffer.pop iteration_order b t) as [[r b']|] eqn:E; [| exact Hb].
    specialize (IH b' (fl_reach_pop _ Hb E)).
    destruct (Examples.fl_run iteration_order b' calls). exact IH.
Qed.

Lemma fl_late_b_run :
  Examples.fl_late_b
  = snd (Examples.fl_run Examples.insertion_order
           (FixedLagBuffer.new unit Examples.no_quantile
              (Examples.fl_params MATCH Examples.sensor_a 2))
           [Examples.Push Examples.sensor_a (Examples.ms 60) (Examples.ms 50);
            Examples.Push Examples.sensor_b (Examples.ms 120) (Examples.ms 60);
            Examples.Pop (Examples.ms 110);
            Examples.Push Examples.sensor_b (Examples.ms 130) (Examples.ms 45);
            Examples.Push Examples.sensor_a (Examples.ms 160) (Examples.ms 100);
            Examples.Push Examples.sensor_a (Examples.ms 210) (Examples.ms 150)]).
Proof. vm_compute. reflexivity. Qed.

Lemma fl_current_time_epoch : forall (Data : Type) normal_quantile iteration_order
  (b : FixedLagBuffer.t Data),
  fixed_lag_reachable normal_quantile iteration_order b ->
  FixedLagBuffer._current_time b = epoch.
Proof.
  intros Data normal_quantile iteration_order b H; induction H.
  - reflexivity.
  - rewrite FixedLagFacts.fl_push_reset.
    destruct (_ <? _)%Z; [reflexivity | exact IHfixed_lag_reachable].
  - erewrite FixedLagFacts.fl_pop_current_time; eassumption.
Qed.

(* ################################################################# *)
(** * When [remove_indices] is defined *)

Lemma NoDup_app_In : forall (A : Type) (l l' : list A) (x : A),
  NoDup (l ++ l') -> In x l -> In x l' -> False.
Proof.
  intros A l l' x; induction l as [|y l IH]; intros Hnd Hl Hl'; [destruct Hl |].
  simpl in Hnd. inversion Hnd as [|? ? Hy Hnd']; subst.
  destruct Hl as [-> | Hl]; [apply Hy; apply in_or_app; now right | now apply IH].
Qed.

Section RemoveIndicesDefined.
Context {T : Type}.
Implicit Types (vec out : list T) (idxs : list nat).

Lemma insert_index_perm : forall i l, Permutation (insert_index i l) (i :: l).
Proof.
  intros i l; induction l as [|j l IH]; simpl.
  - apply Permutation_refl.
  - destruct (Nat.leb i j); [apply Permutation_refl |].
    eapply Permutation_trans; [apply perm_skip, IH | apply perm_swap].
Qed.

Lemma sort_indices_perm : forall l, Permutation (sort_indices l) l.
Proof.
  induction l as [|i l IH]; simpl.
  - apply Permutation_refl.
  - eapply Permutation_trans; [apply insert_index_perm | now apply perm_skip].
Qed.

(** The loop of [remove_indices] gets through its indices only when they
    are strictly ascending and not in front of [block_start]. *)
Lemma copy_blocks_ascending : forall vec idxs b out out' b',
  copy_blocks vec idxs b out = Some (out', b') ->
  StronglySorted lt idxs /\ (forall i, In i idxs -> b <= i < b') /\ b <= b'.
Proof.
  intros vec idxs; induction idxs as [|idx rest IH]; intros b out out' b' H; simpl in H.
  - injection H as _ <-. split; [constructor | split; [intros i [] | lia]].
  - assert (Hb : b <= idx).
    { destruct (Nat.eqb b idx) eqn:E; [apply Nat.eqb_eq in E; lia |].
      unfold move_block in H.
      destruct (Nat.leb b idx) eqn:E'; [now apply Nat.leb_le in E' | discriminate]. }
    destruct (if Nat.eqb b idx then Some out else move_block vec b idx out)
      as [output'|]; [| discriminate].
    apply IH in H as (Hs & Hin & Hle).
    split; [| split].
    + constructor; [assumption |].
      apply Forall_forall. intros i Hi. specialize (Hin i Hi). lia.
    + intros i [<- | Hi]; [lia | specialize (Hin i Hi); lia].
    + lia.
Qed.

Lemma remove_indices_Some : forall vec idxs out,
  remove_indices vec idxs = Some out ->
  NoDup idxs /\ (forall i, In i idxs -> i < length vec).
Proof.
  intros vec idxs out H.
  destruct idxs as [|i0 idxs0]; [split; [constructor | intros i []] |].
  unfold remove_indices in H. remember (i0 :: idxs0) as idxs eqn:Eidxs. clear Eidxs.
  destruct (copy_blocks vec (sort_indices idxs) 0 []) as [[output b']|] eqn:Ec;
    [| discriminate].
  apply copy_blocks_ascending in Ec as (Hs & Hin & _).
  assert (Hb' : b' <= length vec).
  { destruct (Nat.eqb b' (length vec)) eqn:E; [apply Nat.eqb_eq in E; lia |].
    unfold move_block in H.
    destruct (Nat.leb b' (length vec)) eqn:E'; [now apply Nat.leb_le in E' |].
    simpl in H. discriminate. }
  split.
  - eapply Permutation_NoDup; [apply sort_indices_perm |].
    now apply ascending_NoDup.
  - intros i Hi. apply sort_indices_In in Hi. specialize (Hin i Hi). lia.
Qed.
End RemoveIndicesDefined.

(** X9.  [remove_indices] has a result exactly when the indices are pairwise
    distinct and each of them is an index of the vector; with a repeated
    index or an index beyond the last element it runs into an invalid
    iterator range. *)
Theorem remove_indices_defined (T : Type) (vec : list T) (idxs : list nat) :
  (exists out, remove_indices vec idxs = Some out)
  <-> NoDup idxs /\ (forall i, In i idxs -> i < length vec).
Proof.
  split.
  - intros [out H]. eapply remove_indices_Some; eassumption.
  - intros [Hnd Hin]. eexists. apply remove_indices_NoDup; assumption.
Qed.

(* ################################################################# *)
(** * The estimator's counter and its latency-only update *)

Section EstimatorCounter.
Import Estimator.

Ltac unfold_update :=
  unfold update, updateLatencyOnly, updatePeriodEstimate, updateLatencyEstimate, advance,
    set_period_state, set_latency_state, bind, get, put, ret, throw.

Lemma update_outcome : forall e current_time meas_time num_missing,
  let after := update current_time meas_time num_missing e in
  (fst after = Thrown /\ 10 < _num_updates e /\ snd after = e)
  \/ (fst after = Returned tt
      /\ _num_updates (snd after) = S (_num_updates e)
      /\ _last_meas_time (snd after) = meas_time
      /\ _current_time (snd after) = current_time
      /\ _alpha (snd after) = _alpha e).
Proof.
  intros [n lm ct a ps ls] current_time meas_time num_missing after. subst after.
  destruct n as [|[|n]].
  - right. unfold_update. simpl. repeat split.
  - right. unfold_update. simpl. repeat split.
  - rewrite EstimatorFacts.update_from_third by (simpl; lia).
    destruct (_ <? 0)%float; [destruct (Nat.ltb 10 _) eqn:E |].
    + left. apply Nat.ltb_lt in E. simpl in *. repeat split. exact E.
    + right. simpl. repeat split.
    + right. simpl. repeat split.
Qed.

(** As long as the counter stays at or below eleven, a run of updates
    returns and counts every one of them. *)
Lemma estimator_run_counts : forall updates e,
  _num_updates e + length updates <= 11 ->
  exists e',
    Examples.estimator_run e updates = (Returned tt, e')
    /\ _num_updates e' = _num_updates e + length updates.
Proof.
  induction updates as [|[[current_time meas_time] num_missing] updates IH]; intros e H.
  - exists e. simpl. split; [reflexivity | lia].
  - simpl in *.
    destruct (update_outcome e current_time meas_time num_missing)
      as [(_ & Hn & _) | (Hr & Hn & _)]; [lia |].
    cbv zeta in Hr, Hn.
    destruct (update current_time meas_time num_missing e) as [res e1].
    simpl in Hr, Hn. subst res.
    destruct (IH e1) as (e' & Hrun & Hcount); [lia |].
    exists e'. split; [exact Hrun | lia].
Qed.
End EstimatorCounter.

(** X10.  [updateLatencyOnly] never throws, and it leaves the period state,
    [alpha] and the counter of the updates as they are: only the latency
    state and the two anchors change. *)
Theorem latency_only_update_frame (e : Estimator.t) (current_time meas_time : Time) :
  exists latency_state,
    Estimator.updateLatencyOnly current_time meas_time e
    = (Estimator.Returned tt,
       Estimator.make (Estimator._num_updates e) meas_time current_time (Estimator._alpha e)
         (Estimator._period_state e) latency_state).
Proof.
  destruct e as [n lm ct a ps ls].
  unfold Estimator.updateLatencyOnly, Estimator.updateLatencyEstimate, Estimator.advance,
    Estimator.set_latency_state, Estimator.bind, Estimator.get, Estimator.put. simpl.
  destruct (Nat.eqb n 0); simpl; eexists; reflexivity.
Qed.

(** X11.  [update] either throws, which needs more than ten counted updates
    and changes nothing, or returns with the counter raised by one and the
    anchors set.  So the first eleven updates of an estimator never throw:
    after [n <= 11] of them the counter is [n], and the estimator is
    initialised exactly from the second one on. *)
Theorem update_counts (e : Estimator.t) (current_time meas_time : Time) (num_missing : nat) :
  (let after := Estimator.update current_time meas_time num_missing e in
   (fst after = Estimator.Thrown /\ 10 < Estimator._num_updates e /\ snd after = e)
   \/ (fst after = Estimator.Returned tt
       /\ Estimator.getNumUpdates (snd after) = S (Estimator.getNumUpdates e)
       /\ Estimator._last_meas_time (snd after) = meas_time
       /\ Estimator._current_time (snd after) = current_time))
  /\ (forall (first_receipt first_meas : Time) (alpha : float)
             (updates : list (Time * Time * nat)),
         length updates <= 11 ->
         exists e',
           Examples.estimator_run (Estimator.new first_receipt first_meas alpha) updates
           = (Estimator.Returned tt, e')
           /\ Estimator.getNumUpdates e' = length updates
           /\ Estimator.isInitialized e' = Nat.leb 2 (length updates)).
Proof.
  split.
  - destruct (update_outcome e current_time meas_time num_missing)
      as [H | (H1 & H2 & H3 & H4 & _)]; [left; exact H | right].
    repeat split; assumption.
  - intros first_receipt first_meas alpha updates H.
    destruct (@estimator_run_counts updates (Estimator.new first_receipt first_meas alpha))
      as (e' & Hrun & Hcount); [simpl; lia |].
    exists e'. simpl in Hcount.
    unfold Estimator.getNumUpdates, Estimator.isInitialized. rewrite Hcount.
    repeat split. exact Hrun.
Qed.

(* ################################################################# *)
(** * The search of [push] for a placeholder *)

Section BestPlaceholder.
Variable Data : Type.
Implicit Types (rest pre queue : list (TimeData.t Data)).

(** The search from index [length pre]: either it keeps [best], and no
    placeholder of the source among [rest] lies within [min]; or it returns a
    placeholder of the source among [rest] that lies within [min] and is
    nearest.  It counts the placeholders of the source that are older than
    the sample. *)
Lemma find_best_placeholder_spec : forall id meas_time rest pre min
  (best : option (nat * TimeData.t Data)) missed,
  let result :=
    MinimalLatencyBuffer.find_best_placeholder id meas_time (length pre) rest min best
      missed in
  snd result
  = missed + length (filter (fun p => (TimeData.meas_time p <? meas_time)%Z)
                       (placeholders_of id rest))
  /\ ((fst result = best
       /\ Forall (fun p => (min <= distance_to meas_time p)%Z) (placeholders_of id rest))
      \/ exists j old,
           fst result = Some (j, old)
           /\ nth_error (pre ++ rest) j = Some old
           /\ In old (placeholders_of id rest)
           /\ (distance_to meas_time old < min)%Z
           /\ Forall (fun p => (distance_to meas_time old <= distance_to meas_time p)%Z)
                (placeholders_of id rest)).
Proof.
  intros id meas_time rest; induction rest as [|sample rest IH];
    intros pre min best missed; cbv zeta.
  - simpl. split; [lia | left; split; [reflexivity | constructor]].
  - assert (Hmid : nth_error (pre ++ sample :: rest) (length pre) = Some sample)
      by apply FixedLagFacts.nth_error_middle.
    assert (Hpre : (pre ++ [sample]) ++ rest = pre ++ sample :: rest)
      by (now rewrite <- app_assoc).
    assert (Hlen : length (pre ++ [sample]) = S (length pre))
      by (rewrite length_app; simpl; lia).
    simpl. unfold placeholders_of in *. simpl.
    destruct (Nat.eqb (TimeData.id sample) id && TimeData.is_placeholder sample) eqn:E.
    + fold (distance_to meas_time sample). simpl.
      destruct (distance_to meas_time sample <? min)%Z eqn:Ed;
        [apply Z.ltb_lt in Ed | apply Z.ltb_ge in Ed].
      * match goal with
        | |- context [MinimalLatencyBuffer.find_best_placeholder _ _ _ _ _ ?b' ?m'] =>
            specialize (IH (pre ++ [sample]) (distance_to meas_time sample) b' m')
        end.
        rewrite Hlen, Hpre in IH. cbv zeta in IH.
        destruct IH as [Hcount [[Hres Hall] | (j & old & Hres & Hnth & Hin & Hd & Hall)]].
        -- split; [rewrite Hcount; destruct (_ <? meas_time)%Z; simpl; lia |].
           right. exists (length pre), sample.
           repeat split; try assumption; [now left |].
           constructor; [apply Z.le_refl | exact Hall].
        -- split; [rewrite Hcount; destruct (_ <? meas_time)%Z; simpl; lia |].
           right. exists j, old.
           repeat split; try assumption; [now right | lia |].
           constructor; [lia | exact Hall].
      * match goal with
        | |- context [MinimalLatencyBuffer.find_best_placeholder _ _ _ _ _ _ ?m'] =>
            specialize (IH (pre ++ [sample]) min best m')
        end.
        rewrite Hlen, Hpre in IH. cbv zeta in IH.
        destruct IH as [Hcount [[Hres Hall] | (j & old & Hres & Hnth & Hin & Hd & Hall)]].
        -- split; [rewrite Hcount; destruct (_ <? meas_time)%Z; simpl; lia |].
           left. split; [assumption |]. constructor; assumption.
        -- split; [rewrite Hcount; destruct (_ <? meas_time)%Z; simpl; lia |].
           right. exists j, old.
           repeat split; try assumption; [now right |].
           constructor; [lia | exact Hall].
    + specialize (IH (pre ++ [sample]) min best missed).
      rewrite Hlen, Hpre in IH. cbv zeta in IH.
      destruct IH as [Hcount [[Hres Hall] | (j & old & Hres & Hnth & Hin & Hd & Hall)]].
      * split; [assumption |]. left. split; assumption.
      * split; [assumption |]. right. exists j, old. repeat split; assumption.
Qed.
End BestPlaceholder.

(** X18.  The search of [push] for the placeholder a new sample replaces:
    started with the bound [min], it returns the placeholder of the pushed
    source whose [meas_time] is nearest to the sample's, provided that one
    lies strictly within [min] of it, and none when no placeholder of the
    source is that near; with it, it returns
    the number of placeholders of the source that are older than the
    sample. *)
Theorem best_placeholder_is_nearest (Data : Type) (id : SourceId) (meas_time : Time)
  (queue : list (TimeData.t Data)) (min : Duration) :
  let result := MinimalLatencyBuffer.find_best_placeholder id meas_time 0 queue min None 0 in
  snd result
  = length (filter (fun p => (TimeData.meas_time p <? meas_time)%Z) (placeholders_of id queue))
  /\ match fst result with
     | None => Forall (fun p => (min <= distance_to meas_time p)%Z) (placeholders_of id queue)
     | Some (j, old) =>
         nth_error queue j = Some old
         /\ In old (placeholders_of id queue)
         /\ (distance_to meas_time old < min)%Z
         /\ Forall (fun p => (distance_to meas_time old <= distance_to meas_time p)%Z)
              (placeholders_of id queue)
     end.
Proof.
  destruct (@find_best_placeholder_spec Data id meas_time queue [] min None 0)
    as [Hcount [[Hres Hall] | (j & old & Hres & Hnth & Hin & Hd & Hall)]];
    cbv zeta; simpl in *.
  - split; [assumption |]. now rewrite Hres.
  - split; [assumption |]. rewrite Hres. repeat split; assumption.
Qed.

(* ################################################################# *)
(** * What [push] does to the queued samples *)

Section PushStores.
Variable Data : Type.
Variable normal_quantile : float -> float -> float -> float.
Variable hypot : float -> float -> float.
Implicit Types (queue new : list (TimeData.t Data)) (e x old : TimeData.t Data).

Lemma assign_at_In : forall queue i x old,
  nth_error queue i = Some old -> In x (MinimalLatencyBuffer.assign_at i x queue).
Proof.
  induction queue as [|y queue IH]; intros i x old H; destruct i as [|i]; simpl in *;
    try discriminate.
  - now left.
  - right. eapply IH; eassumption.
Qed.

Lemma assign_at_keeps : forall queue i x old e,
  nth_error queue i = Some old -> In e queue -> e <> old ->
  In e (MinimalLatencyBuffer.assign_at i x queue).
Proof.
  induction queue as [|y queue IH]; intros i x old e H He Hne; destruct i as [|i];
    simpl in *; try discriminate.
  - injection H as ->. destruct He as [-> | He]; [congruence | now right].
  - destruct He as [-> | He]; [now left | right; eapply IH; eassumption].
Qed.

Lemma assign_at_real : forall queue i x old,
  nth_error queue i = Some old ->
  TimeData.is_placeholder old = true -> TimeData.is_placeholder x = false ->
  length (real_samples (MinimalLatencyBuffer.assign_at i x queue))
  = S (length (real_samples queue)).
Proof.
  unfold real_samples.
  induction queue as [|y queue IH]; intros i x old H Hold Hx; destruct i as [|i];
    simpl in *; try discriminate.
  - injection H as ->. rewrite Hold, Hx. reflexivity.
  - destruct (negb (TimeData.is_placeholder y)); simpl;
      rewrite (IH i x old H Hold Hx); reflexivity.
Qed.

Lemma real_samples_placeholders : forall new,
  Forall (fun p => TimeData.is_placeholder p = true) new -> real_samples new = [].
Proof.
  unfold real_samples.
  intros new H; induction H as [|p new Hp H IH]; simpl; [reflexivity |].
  now rewrite Hp.
Qed.

(** The sweep of [push] removes no sample that carries data. *)
Lemma real_samples_swept : forall id meas_time queue,
  real_samples
    (filter (fun sample =>
               negb (MinimalLatencyBuffer.is_stale_placeholder id meas_time sample)) queue)
  = real_samples queue.
Proof.
  unfold real_samples.
  intros id meas_time queue; induction queue as [|y queue IH]; simpl; [reflexivity |].
  unfold MinimalLatencyBuffer.is_stale_placeholder at 1.
  destruct (TimeData.is_placeholder y) eqn:E; simpl.
  - destruct (negb _); simpl; rewrite ?E; simpl; exact IH.
  - rewrite andb_false_r. simpl. rewrite E. simpl. now rewrite IH.
Qed.

Lemma swept_In : forall id meas_time queue e,
  In e queue -> TimeData.is_placeholder e = false ->
  In e (filter (fun sample =>
                  negb (MinimalLatencyBuffer.is_stale_placeholder id meas_time sample))
          queue).
Proof.
  intros id meas_time queue e He Hreal. apply filter_In. split; [assumption |].
  unfold MinimalLatencyBuffer.is_stale_placeholder. rewrite Hreal.
  now rewrite andb_false_r.
Qed.

Lemma real_samples_sorted : forall queue,
  length (real_samples (sort_by_meas_time queue)) = length (real_samples queue).
Proof.
  intros queue. apply filter_length_perm, sort_by_meas_time_perm.
Qed.

Lemma sorted_In : forall queue e, In e queue -> In e (sort_by_meas_time queue).
Proof.
  intros queue e H.
  eapply Permutation_in; [apply Permutation_sym, sort_by_meas_time_perm | exact H].
Qed.

(** A [push] that returns [OK]: the queue holds the sample, every sample
    with data that was queued is still queued, and there is one sample with
    data more. *)
Lemma push_keeps_samples : forall (b : MinimalLatencyBuffer.t Data) id receipt_time
  meas_time data,
  let after :=
    MinimalLatencyBuffer.push normal_quantile hypot b id receipt_time meas_time data in
  fst after = OK ->
  (exists e,
      In e (MinimalLatencyBuffer._data (snd after))
      /\ TimeData.id e = id /\ TimeData.meas_time e = meas_time
      /\ TimeData.receipt_time e = receipt_time /\ TimeData.data e = Some data)
  /\ (forall e, In e (MinimalLatencyBuffer._data b) -> TimeData.is_placeholder e = false ->
                In e (MinimalLatencyBuffer._data (snd after)))
  /\ length (real_samples (MinimalLatencyBuffer._data (snd after)))
     = S (length (real_samples (MinimalLatencyBuffer._data b))).
Proof.
  intros b id receipt_time meas_time data after Hok. subst after.
  unfold MinimalLatencyBuffer.push in *.
  destruct (_ <? _)%Z; [discriminate |].
  destruct (map_find id (MinimalLatencyBuffer._source_infos b)) as [estimator|].
  2:{ cbn [snd MinimalLatencyBuffer._data].
      split; [| split].
      - eexists. split; [apply sorted_In, in_or_app; right; left; reflexivity |].
        repeat split.
      - intros e He _. apply sorted_In, in_or_app. now left.
      - rewrite real_samples_sorted. unfold real_samples.
        rewrite filter_app, length_app. simpl. lia. }
  destruct (@find_best_placeholder_spec Data id meas_time (MinimalLatencyBuffer._data b) []
              (Z.quot (Estimator.period estimator) 2) None 0)
    as [_ [[Hres _] | (j & old & Hres & Hnth & Hin & _)]]; cbv zeta in *; simpl in Hres.
  - destruct (MinimalLatencyBuffer.find_best_placeholder id meas_time 0
                (MinimalLatencyBuffer._data b) _ None 0) as [best missed].
    simpl in Hres. subst best.
    cbn [snd MinimalLatencyBuffer._data].
    match goal with
    | |- context [MinimalLatencyBuffer.create_placeholders _ _ b ?e ?n] =>
        destruct (MinimalLatencyFacts.create_placeholders_spec normal_quantile hypot b e n)
          as (Hflag & _ & Hall);
        destruct (MinimalLatencyBuffer.create_placeholders normal_quantile hypot b e n)
          as [element new] eqn:Ecp
    end.
    simpl in Hflag, Hall.
    assert (Hnew : real_samples new = []).
    { apply real_samples_placeholders. eapply Forall_impl; [| exact Hall]. now intros p [H _]. }
    split; [| split].
    + exists element. split.
      * apply sorted_In, swept_In.
        -- apply in_or_app. right. apply in_or_app. right. now left.
        -- now rewrite (MinimalLatencyFacts.flagged_placeholder Hflag).
      * destruct Hflag as [-> | ->]; repeat split.
    + intros e He Hreal. apply sorted_In, swept_In; [| assumption].
      apply in_or_app. now left.
    + rewrite real_samples_sorted, real_samples_swept. unfold real_samples in *.
      rewrite !filter_app, !length_app, Hnew. simpl.
      rewrite (MinimalLatencyFacts.flagged_placeholder Hflag). simpl. lia.
  - simpl in Hnth.
    destruct (MinimalLatencyBuffer.find_best_placeholder id meas_time 0
                (MinimalLatencyBuffer._data b) _ None 0) as [best missed].
    simpl in Hres. subst best.
    cbn [snd MinimalLatencyBuffer._data].
    apply filter_In in Hin as [_ Hold]. apply andb_prop in Hold as [Hid Hold].
    apply Nat.eqb_eq in Hid.
    match goal with
    | |- context [MinimalLatencyBuffer.create_placeholders _ _ b ?e ?n] =>
        destruct (MinimalLatencyFacts.create_placeholders_spec normal_quantile hypot b e n)
          as (Hflag & _ & Hall);
        destruct (MinimalLatencyBuffer.create_placeholders normal_quantile hypot b e n)
          as [element new] eqn:Ecp
    end.
    simpl in Hflag, Hall.
    assert (Hnew : real_samples new = []).
    { apply real_samples_placeholders. eapply Forall_impl; [| exact Hall]. now intros p [H _]. }
    assert (Hreal : TimeData.is_placeholder element = false)
      by (now rewrite (MinimalLatencyFacts.flagged_placeholder Hflag)).
    split; [| split].
    + exists element. split.
      * apply sorted_In, swept_In; [| assumption].
        apply in_or_app. left. eapply assign_at_In; eassumption.
      * destruct Hflag as [-> | ->]; repeat split; assumption.
    + intros e He He'. apply sorted_In, swept_In; [| assumption].
      apply in_or_app. left. eapply assign_at_keeps; [eassumption | assumption |].
      intros ->. congruence.
    + rewrite real_samples_sorted, real_samples_swept. unfold real_samples in *.
      rewrite filter_app, length_app, Hnew. simpl. rewrite Nat.add_0_r.
      eapply assign_at_real; eassumption.
Qed.
End PushStores.

(* ################################################################# *)
(** * Invariants of the minimal-latency buffer *)

Section QueueInvariant.
Variable Data : Type.
Variable normal_quantile : float -> float -> float -> float.
Variable hypot : float -> float -> float.
Variable iteration_order : list SourceId -> list SourceId.
Implicit Types (b : MinimalLatencyBuffer.t Data) (queue rest : list (TimeData.t Data))
  (e p : TimeData.t Data).

Lemma flagged_well_formed : forall infos e e',
  flagged e e' -> well_formed_sample infos e -> well_formed_sample infos e'.
Proof.
  intros infos e e' [-> | ->] [H1 H2]; [split; assumption |].
  split; [exact H1 | exact H2].
Qed.

Lemma placeholder_loop_shaped : forall b estimator id meas_time remaining i out,
  Forall (fun p => placeholder_shaped p /\ TimeData.id p = id) out ->
  Forall (fun p => placeholder_shaped p /\ TimeData.id p = id)
    (MinimalLatencyBuffer.placeholder_loop normal_quantile hypot b estimator id meas_time i
       remaining out).
Proof.
  intros b estimator id meas_time remaining.
  induction remaining as [|remaining IH]; intros i out H; simpl; [exact H |].
  match goal with |- context [if ?c then _ else _] => destruct c end.
  - apply Forall_app. split; [exact H |].
    constructor; [| constructor]. split; [intros _; split; reflexivity | reflexivity].
  - apply IH. apply Forall_app. split; [exact H |].
    constructor; [| constructor]. split; [intros _; split; reflexivity | reflexivity].
Qed.

(** The new placeholders of one expansion are of the source of the expanded
    sample and have the shape of a placeholder. *)
Lemma create_placeholders_shaped : forall b element max_number,
  Forall (fun p => placeholder_shaped p /\ TimeData.id p = TimeData.id element)
    (snd (MinimalLatencyBuffer.create_placeholders normal_quantile hypot b element
            max_number)).
Proof.
  intros b element max_number. unfold MinimalLatencyBuffer.create_placeholders.
  destruct (map_find _ _); [| constructor].
  destruct (_ || _); [constructor |].
  simpl. apply placeholder_loop_shaped. constructor.
Qed.

Lemma map_find_keys : forall (V : Type) k (m : list (SourceId * V)),
  In k (map_keys m) <-> map_find k m <> None.
Proof.
  intros V k m; induction m as [|[k' v] m IH]; simpl.
  - split; [intros [] | intros H; now apply H].
  - destruct (Nat.eqb k k') eqn:E.
    + apply Nat.eqb_eq in E. subst. split; [intros _; discriminate | intros _; now left].
    + apply Nat.eqb_neq in E. rewrite <- IH.
      split; [intros [H | H]; [congruence | assumption] | intros H; now right].
Qed.

Lemma well_formed_map_set : forall infos id estimator e,
  well_formed_sample infos e -> well_formed_sample (map_set id estimator infos) e.
Proof.
  intros infos id estimator e [H1 H2]. split; [| exact H2].
  apply map_set_keys. now right.
Qed.

Lemma assign_at_Forall : forall (P : TimeData.t Data -> Prop) queue i x,
  Forall P queue -> P x -> Forall P (MinimalLatencyBuffer.assign_at i x queue).
Proof.
  intros P queue; induction queue as [|y queue IH]; intros i x H Hx; destruct i; simpl;
    inversion H; subst; constructor; auto.
Qed.

Lemma sorted_Forall : forall (P : TimeData.t Data -> Prop) queue,
  Forall P queue -> Forall P (sort_by_meas_time queue).
Proof.
  intros P queue H.
  eapply Permutation_Forall; [apply Permutation_sym, sort_by_meas_time_perm | exact H].
Qed.

Lemma filter_Forall : forall (P : TimeData.t Data -> Prop) f queue,
  Forall P queue -> Forall P (filter f queue).
Proof.
  intros P f queue H. apply Forall_forall. intros x Hx.
  apply filter_In in Hx as [Hx _]. rewrite Forall_forall in H. auto.
Qed.

Lemma push_well_formed : forall b id receipt_time meas_time data,
  Forall (well_formed_sample (MinimalLatencyBuffer._source_infos b))
    (MinimalLatencyBuffer._data b) ->
  let after :=
    snd (MinimalLatencyBuffer.push normal_quantile hypot b id receipt_time meas_time data) in
  Forall (well_formed_sample (MinimalLatencyBuffer._source_infos after))
    (MinimalLatencyBuffer._data after).
Proof.
  intros b id receipt_time meas_time data H after. subst after.
  unfold MinimalLatencyBuffer.push.
  destruct (_ <? _)%Z; [constructor |].
  destruct (map_find id (MinimalLatencyBuffer._source_infos b)) as [estimator|] eqn:Efind.
  2:{ cbn [snd MinimalLatencyBuffer._data MinimalLatencyBuffer._source_infos].
      apply sorted_Forall, Forall_app. split.
      - eapply Forall_impl; [| exact H]. intros e. apply well_formed_map_set.
      - constructor; [| constructor].
        split; [apply map_set_keys; now left | intros Hp; discriminate]. }
  assert (Hid : In id (map_keys (MinimalLatencyBuffer._source_infos b)))
    by (apply map_find_keys; congruence).
  assert (Hnew : forall new,
             Forall (fun p => placeholder_shaped p /\ TimeData.id p = id) new ->
             Forall (well_formed_sample (MinimalLatencyBuffer._source_infos b)) new).
  { intros new Hall. eapply Forall_impl; [| exact Hall].
    intros p [Hp Hpid]. split; [rewrite Hpid; exact Hid | exact Hp]. }
  destruct (@find_best_placeholder_spec Data id meas_time (MinimalLatencyBuffer._data b) []
              (Z.quot (Estimator.period estimator) 2) None 0)
    as [_ [[Hres _] | (j & old & Hres & Hnth & Hin & _)]]; cbv zeta in *; simpl in Hres;
    destruct (MinimalLatencyBuffer.find_best_placeholder id meas_time 0
                (MinimalLatencyBuffer._data b) _ None 0) as [best missed];
    simpl in Hres; subst best;
    cbn [snd MinimalLatencyBuffer._data MinimalLatencyBuffer._source_infos];
    match goal with
    | |- context [MinimalLatencyBuffer.create_placeholders _ _ b ?e ?n] =>
        pose proof (create_placeholders_shaped b e n) as Hall;
        destruct (MinimalLatencyFacts.create_placeholders_spec normal_quantile hypot b e n)
          as (Hflag & _ & _);
        destruct (MinimalLatencyBuffer.create_placeholders normal_quantile hypot b e n)
          as [element new] eqn:Ecp
    end;
    simpl in Hflag, Hall;
    apply sorted_Forall, filter_Forall;
    (eapply Forall_impl; [intros e; apply well_formed_map_set |]).
  - apply Forall_app. split; [exact H |].
    apply Forall_app. split; [apply Hnew; exact Hall |].
    constructor; [| constructor]. split.
    + rewrite (MinimalLatencyFacts.flagged_id Hflag). exact Hid.
    + intros Hp. rewrite (MinimalLatencyFacts.flagged_placeholder Hflag) in Hp. discriminate.
  - apply filter_In in Hin as [_ Hold]. apply andb_prop in Hold as [Hoid _].
    apply Nat.eqb_eq in Hoid.
    rewrite Hoid in Hall.
    apply Forall_app. split; [| apply Hnew; exact Hall].
    apply assign_at_Forall; [exact H |].
    split.
    + rewrite (MinimalLatencyFacts.flagged_id Hflag). simpl. rewrite Hoid. exact Hid.
    + intros Hp. rewrite (MinimalLatencyFacts.flagged_placeholder Hflag) in Hp. discriminate.
Qed.

(** The placeholders the first loop of [pop] creates are of sources of
    queued samples and have the shape of a placeholder. *)
Lemma scan_cleaned : forall b (P : TimeData.t Data -> Prop) rest i s,
  (forall e p, In e rest -> TimeData.is_placeholder p = true -> placeholder_shaped p ->
               TimeData.id p = TimeData.id e -> P p) ->
  Forall P (MinimalLatencyBuffer.cleaned_data s) ->
  Forall P (MinimalLatencyBuffer.cleaned_data
              (MinimalLatencyBuffer.scan normal_quantile hypot b i rest s)).
Proof.
  intros b P rest; induction rest as [|element rest IH]; intros i s HP H; simpl.
  - exact H.
  - match goal with |- context [if ?c then _ else _] => destruct c end; [exact H |].
    pose proof (create_placeholders_shaped b element
                  MinimalLatencyBuffer.MAX_INSERTED_PLACEHOLDERS) as Hall.
    destruct (MinimalLatencyFacts.create_placeholders_spec normal_quantile hypot b element
                MinimalLatencyBuffer.MAX_INSERTED_PLACEHOLDERS) as (_ & _ & Hplace).
    destruct (MinimalLatencyBuffer.create_placeholders normal_quantile hypot b element
                MinimalLatencyBuffer.MAX_INSERTED_PLACEHOLDERS) as [element' new].
    simpl in Hall, Hplace.
    apply IH; [intros e p He; apply HP; now right |].
    simpl. apply Forall_app. split; [exact H |].
    rewrite Forall_forall in *. intros p Hp.
    destruct (Hall p Hp) as [Hshape Hid]. destruct (Hplace p Hp) as [Hph _].
    eapply HP; [now left | exact Hph | exact Hshape | exact Hid].
Qed.

Lemma drop_positions_incl : forall (T : Type) idxs (vec : list T) (pos : nat) x,
  In x (drop_positions idxs pos vec) -> In x vec.
Proof.
  intros T idxs vec; induction vec as [|y vec IH]; intros pos x H; simpl in H.
  - contradiction.
  - destruct (existsb _ _); [right; eapply IH; eassumption |].
    destruct H as [-> | H]; [now left | right; eapply IH; eassumption].
Qed.

Lemma remove_indices_incl : forall (T : Type) (vec : list T) idxs out x,
  remove_indices vec idxs = Some out -> In x out -> In x vec.
Proof.
  intros T vec idxs out x H Hx.
  destruct (remove_indices_Some _ _ H) as [Hnd Hin].
  rewrite (remove_indices_NoDup _ Hnd Hin) in H. injection H as <-.
  eapply drop_positions_incl; eassumption.
Qed.

Lemma Forall2_flagged_Forall : forall (P : TimeData.t Data -> Prop) queue queue',
  (forall e e', flagged e e' -> P e -> P e') ->
  Forall2 flagged queue queue' -> Forall P queue -> Forall P queue'.
Proof.
  intros P queue queue' HP H; induction H as [|e e' queue queue' He H IH]; intros Hall.
  - constructor.
  - inversion Hall; subst. constructor; eauto.
Qed.

Lemma pop_well_formed : forall b time r b',
  MinimalLatencyBuffer.pop normal_quantile hypot iteration_order b time = Some (r, b') ->
  Forall (well_formed_sample (MinimalLatencyBuffer._source_infos b))
    (MinimalLatencyBuffer._data b) ->
  Forall (well_formed_sample (MinimalLatencyBuffer._source_infos b'))
    (MinimalLatencyBuffer._data b').
Proof.
  intros b time r b' H Hwf. unfold MinimalLatencyBuffer.pop in H.
  destruct (time <? _)%Z; [now injection H as _ <- |].
  destruct (MinimalLatencyBuffer.pop_indices normal_quantile hypot iteration_order b time)
    as [s|] eqn:Es; [| discriminate].
  assert (Hclean : Forall (well_formed_sample (MinimalLatencyBuffer._source_infos b))
                     (MinimalLatencyBuffer.cleaned_data s)).
  { assert (Hscan : Forall (well_formed_sample (MinimalLatencyBuffer._source_infos b))
                      (MinimalLatencyBuffer.cleaned_data
                         (MinimalLatencyBuffer.scan normal_quantile hypot b 0
                            (MinimalLatencyBuffer._data b)
                            (MinimalLatencyBuffer.mkScan time [] [] [] [] [])))).
    { apply scan_cleaned; [| constructor].
      intros e p He _ Hp Hid. split; [| exact Hp].
      rewrite Hid. rewrite Forall_forall in Hwf. now apply Hwf. }
    unfold MinimalLatencyBuffer.pop_indices in Es.
    destruct (MinimalLatencyBuffer.mode _);
      [| destruct (MinimalLatencyBuffer.output_inds _);
         [| destruct (MinimalLatencyBuffer.runBatching _ _ _ _); [| discriminate]]
       | destruct (MinimalLatencyBuffer.output_inds _);
         [| destruct (MinimalLatencyBuffer.runMatching _ _ _ _) as [[? ?]|];
            [| discriminate]]];
      injection Es as <-; exact Hscan. }
  apply (MinimalLatencyFacts.pop_indices_spec) in Es as (Hflag & _).
  destruct (elements_at _ (MinimalLatencyBuffer.output_inds s)); [| discriminate].
  destruct (elements_at _ (MinimalLatencyBuffer.discard_inds s)); [| discriminate].
  destruct (remove_indices _ _) as [remaining|] eqn:Er; [| discriminate].
  injection H as _ <-. simpl.
  apply sorted_Forall, Forall_app. split; [| exact Hclean].
  apply Forall_forall. intros x Hx.
  apply (@remove_indices_incl _ _ _ _ x Er) in Hx.
  assert (Hq : Forall (well_formed_sample (MinimalLatencyBuffer._source_infos b))
                 (MinimalLatencyBuffer._queue s)).
  { eapply Forall2_flagged_Forall; [| exact Hflag | exact Hwf].
    intros e e'. apply flagged_well_formed. }
  rewrite Forall_forall in Hq. now apply Hq.
Qed.

Lemma reachable_well_formed : forall b,
  minimal_latency_reachable normal_quantile hypot iteration_order b ->
  Forall (well_formed_sample (MinimalLatencyBuffer._source_infos b))
    (MinimalLatencyBuffer._data b).
Proof.
  intros b H; induction H.
  - constructor.
  - now apply push_well_formed.
  - eapply pop_well_formed; eassumption.
Qed.
End QueueInvariant.

(* ################################################################# *)
(** * What [pop] takes out of the queue *)

Section PopPartition.
Variable Data : Type.
Implicit Types (queue rest pre picked : list (TimeData.t Data)) (idxs : IndexList).

(** Taking the samples at strictly ascending indices and dropping those
    positions splits the queue. *)
Lemma elements_at_split_sorted : forall rest pre idxs,
  StronglySorted lt idxs ->
  (forall i, In i idxs -> length pre <= i < length pre + length rest) ->
  exists picked,
    elements_at (pre ++ rest) idxs = Some picked
    /\ Permutation rest (picked ++ drop_positions idxs (length pre) rest).
Proof.
  induction rest as [|x rest IH]; intros pre idxs Hs Hin.
  - destruct idxs as [|i idxs]; [exists []; split; [reflexivity | constructor] |].
    specialize (Hin i (or_introl eq_refl)). simpl in Hin. lia.
  - assert (Hmid : nth_error (pre ++ x :: rest) (length pre) = Some x)
      by apply FixedLagFacts.nth_error_middle.
    assert (Hpre : (pre ++ [x]) ++ rest = pre ++ x :: rest) by (now rewrite <- app_assoc).
    assert (Hlen : length (pre ++ [x]) = S (length pre))
      by (rewrite length_app; simpl; lia).
    destruct idxs as [|i idxs].
    { exists []. split; [reflexivity |]. simpl. rewrite drop_positions_none.
      - apply Permutation_refl.
      - intros q []. }
    inversion Hs as [|? ? Hs' Hall]; subst. rewrite Forall_forall in Hall.
    destruct (Nat.eq_dec i (length pre)) as [-> | Hne].
    + destruct (IH (pre ++ [x]) idxs Hs') as (picked & Hp & Hperm).
      { intros j Hj. specialize (Hall j Hj). specialize (Hin j (or_intror Hj)).
        simpl in Hin. lia. }
      rewrite Hpre, Hlen in *.
      exists (x :: picked). simpl. rewrite Hmid, Hp, Nat.eqb_refl. simpl.
      split; [reflexivity |].
      rewrite drop_positions_passed by lia. now apply perm_skip.
    + assert (Hi : length pre < i).
      { specialize (Hin i (or_introl eq_refl)). lia. }
      destruct (IH (pre ++ [x]) (i :: idxs) Hs) as (picked & Hp & Hperm).
      { intros j Hj. specialize (Hin j Hj). simpl in Hin.
        destruct Hj as [<- | Hj]; [lia | specialize (Hall j Hj); lia]. }
      rewrite Hpre, Hlen in *.
      exists picked. split; [exact Hp |].
      simpl.
      assert (E : existsb (Nat.eqb (length pre)) (i :: idxs) = false).
      { destruct (existsb _ _) eqn:E; [| reflexivity].
        apply existsb_eqb_In in E as [E | E]; [lia | specialize (Hall _ E); lia]. }
      simpl in E. rewrite E.
      eapply Permutation_trans; [apply perm_skip, Hperm | apply Permutation_middle].
Qed.

Lemma elements_at_perm : forall queue idxs idxs',
  Permutation idxs idxs' ->
  forall picked, elements_at queue idxs = Some picked ->
  exists picked', elements_at queue idxs' = Some picked' /\ Permutation picked picked'.
Proof.
  intros queue idxs idxs' H; induction H as [| i l l' H IH | i j l | l l' l'' H1 IH1 H2 IH2];
    intros picked Hp; simpl in *.
  - eauto.
  - destruct (nth_error queue i); [| discriminate].
    destruct (elements_at queue l) as [p|]; [| discriminate].
    destruct (IH p eq_refl) as (p' & -> & Hperm).
    injection Hp as <-. eexists. split; [reflexivity | now apply perm_skip].
  - destruct (nth_error queue j); [| discriminate].
    destruct (nth_error queue i); [| destruct (elements_at queue l); discriminate].
    destruct (elements_at queue l); [| discriminate].
    injection Hp as <-. eexists. split; [reflexivity | apply perm_swap].
  - destruct (IH1 _ Hp) as (p' & Hp' & Hperm).
    destruct (IH2 _ Hp') as (p'' & Hp'' & Hperm').
    exists p''. split; [assumption | eapply Permutation_trans; eassumption].
Qed.

(** What [remove_indices] leaves and what was taken at the indices make up
    the queue. *)
Lemma remove_indices_split : forall queue idxs remaining picked,
  remove_indices queue idxs = Some remaining ->
  elements_at queue idxs = Some picked ->
  Permutation queue (picked ++ remaining).
Proof.
  intros queue idxs remaining picked Hr Hp.
  destruct (remove_indices_Some _ _ Hr) as [Hnd Hin].
  rewrite (remove_indices_NoDup _ Hnd Hin) in Hr. injection Hr as <-.
  destruct (@elements_at_split_sorted queue [] (sort_indices idxs))
    as (picked' & Hp' & Hperm).
  { now apply sort_indices_sorted. }
  { intros i Hi. apply (proj1 (sort_indices_In _ _)) in Hi. specialize (Hin i Hi).
    simpl. lia. }
  simpl in Hp', Hperm.
  destruct (@elements_at_perm queue idxs (sort_indices idxs)
              (Permutation_sym (sort_indices_perm idxs)) picked Hp)
    as (picked'' & Hp'' & Hperm').
  rewrite Hp' in Hp''. injection Hp'' as <-.
  rewrite (drop_positions_ext (sort_indices idxs) idxs queue 0) in Hperm
    by (intros q; apply sort_indices_In).
  eapply Permutation_trans; [exact Hperm |].
  apply Permutation_app_tail. now apply Permutation_sym.
Qed.

(** What a [pop] of the fixed-lag buffer discards, releases and leaves make
    up the queue. *)
Lemma fl_pop_split : forall iteration_order (b : FixedLagBuffer.t Data) time r b',
  FixedLagBuffer.pop iteration_order b time = Some (r, b') ->
  Permutation (FixedLagBuffer._data b)
    (PopReturn.discarded_data r ++ PopReturn.data r ++ FixedLagBuffer._data b').
Proof.
  intros iteration_order b time r b' H. unfold FixedLagBuffer.pop in H.
  destruct (FixedLagBuffer.pop_indices iteration_order b time)
    as [[output_inds discard_inds]|]; [| discriminate].
  destruct (elements_at _ output_inds) as [data|] eqn:Eo; [| discriminate].
  destruct (elements_at _ discard_inds) as [discarded|] eqn:Ed; [| discriminate].
  destruct (remove_indices _ _) as [remaining|] eqn:Er; [| discriminate].
  injection H as <- <-. simpl.
  assert (Ep : elements_at (FixedLagBuffer._data b) (discard_inds ++ output_inds)
               = Some (discarded ++ data))
    by (rewrite elements_at_app, Ed, Eo; reflexivity).
  rewrite app_assoc.
  eapply Permutation_trans; [exact (remove_indices_split _ _ Er Ep) |].
  apply Permutation_app_head, Permutation_sym, sort_by_meas_time_perm.
Qed.

Lemma filter_none : forall (A : Type) (f : A -> bool) (l : list A),
  Forall (fun x => f x = false) l -> filter f l = [].
Proof.
  intros A f l H; induction H as [|x l Hx H IH]; simpl; [reflexivity |].
  now rewrite Hx.
Qed.

(** Three conditions of which every element meets exactly one split a
    list. *)
Lemma filter_split3 : forall (A : Type) (f g h : A -> bool) (l : list A),
  (forall x, (f x = true /\ g x = false /\ h x = false)
             \/ (f x = false /\ g x = true /\ h x = false)
             \/ (f x = false /\ g x = false /\ h x = true)) ->
  Permutation l (filter f l ++ filter g l ++ filter h l).
Proof.
  intros A f g h l H; induction l as [|x l IH]; simpl; [constructor |].
  destruct (H x) as [(-> & -> & ->) | [(-> & -> & ->) | (-> & -> & ->)]]; simpl.
  - now apply perm_skip.
  - eapply Permutation_trans; [apply perm_skip, IH | apply Permutation_middle].
  - eapply Permutation_trans; [apply perm_skip, IH |].
    rewrite !app_assoc. apply Permutation_middle.
Qed.

(** The first loop of the fixed-lag [pop] on a sorted queue: it discards
    every sample at or in front of [buffer_time] and takes every sample
    behind it that is not later than [ref_meas_time]. *)
Lemma select_exact : forall buffer_time ref_meas_time rest pre out disc out' disc',
  queue_sorted rest ->
  FixedLagBuffer.select buffer_time ref_meas_time (length pre) rest out disc
  = (out', disc') ->
  exists o d,
    out' = out ++ o /\ disc' = disc ++ d
    /\ elements_at (pre ++ rest) o
       = Some (filter (fun e => (buffer_time <? TimeData.meas_time e)%Z
                                && (TimeData.meas_time e <=? ref_meas_time)%Z) rest)
    /\ elements_at (pre ++ rest) d
       = Some (filter (fun e => (TimeData.meas_time e <=? buffer_time)%Z) rest).
Proof.
  intros buffer_time ref_meas_time rest.
  induction rest as [|element rest IH]; intros pre out disc out' disc' Hs H; simpl in H.
  - injection H as <- <-. exists [], []. rewrite !app_nil_r. auto.
  - assert (Hmid := FixedLagFacts.nth_error_middle pre element rest).
    assert (Hpre : (pre ++ [element]) ++ rest = pre ++ element :: rest)
      by (now rewrite <- app_assoc).
    assert (Hlen : length (pre ++ [element]) = S (length pre))
      by (rewrite length_app; simpl; lia).
    inversion Hs as [|? ? Hs' Hall]; subst.
    destruct (TimeData.meas_time element <=? buffer_time)%Z eqn:Elate.
    + rewrite <- Hlen in H.
      destruct (IH _ _ _ _ _ Hs' H) as (o & d & -> & -> & Ho & Hd).
      rewrite Hpre, Hlen in *.
      exists o, (length pre :: d). rewrite <- app_assoc.
      repeat split.
      * simpl.
        assert (E : (buffer_time <? TimeData.meas_time element)%Z = false)
          by (apply Z.ltb_ge; now apply Z.leb_le).
        rewrite E. simpl. exact Ho.
      * simpl. rewrite Hmid, Hd, Elate. reflexivity.
    + destruct (TimeData.meas_time element <=? ref_meas_time)%Z eqn:Edue.
      * rewrite <- Hlen in H.
        destruct (IH _ _ _ _ _ Hs' H) as (o & d & -> & -> & Ho & Hd).
        rewrite Hpre, Hlen in *.
        exists (length pre :: o), d. rewrite <- app_assoc.
        assert (E : (buffer_time <? TimeData.meas_time element)%Z = true)
          by (apply Z.ltb_lt; now apply Z.leb_gt).
        repeat split.
        -- simpl. rewrite Hmid, Ho, Edue, E. reflexivity.
        -- simpl. rewrite Elate. exact Hd.
      * injection H as <- <-. exists [], []. rewrite !app_nil_r.
        apply Z.leb_gt in Elate, Edue.
        repeat split; cbn [elements_at]; f_equal; symmetry; apply filter_none; constructor.
        -- apply andb_false_intro2. apply Z.leb_gt. exact Edue.
        -- eapply Forall_impl; [| exact Hall]. unfold meas_le. intros e He.
           apply andb_false_intro2. apply Z.leb_gt. lia.
        -- apply Z.leb_gt. exact Elate.
        -- eapply Forall_impl; [| exact Hall]. unfold meas_le. intros e He.
           apply Z.leb_gt. lia.
Qed.

Lemma pushed_samples_app : forall queue queue',
  pushed_samples (queue ++ queue') = pushed_samples queue ++ pushed_samples queue'.
Proof. intros. apply flat_map_app. Qed.

Lemma pushed_samples_perm : forall queue queue',
  Permutation queue queue' -> Permutation (pushed_samples queue) (pushed_samples queue').
Proof. intros queue queue' H. now apply Permutation_flat_map. Qed.

Lemma pushed_samples_flagged : forall queue queue',
  Forall2 flagged queue queue' -> pushed_samples queue' = pushed_samples queue.
Proof.
  intros queue queue' H; induction H as [|e e' queue queue' He H IH]; simpl.
  - reflexivity.
  - rewrite IH. destruct He as [-> | ->]; reflexivity.
Qed.

Lemma pushed_samples_placeholders : forall queue,
  Forall (fun p => TimeData.is_placeholder p = true) queue -> pushed_samples queue = [].
Proof.
  intros queue H; induction H as [|p queue Hp H IH]; simpl.
  - reflexivity.
  - unfold TimeData.is_placeholder in Hp. destruct (TimeData.data p); [discriminate |].
    exact IH.
Qed.

Variable normal_quantile : float -> float -> float -> float.
Variable hypot : float -> float -> float.
Variable iteration_order : list SourceId -> list SourceId.

(** The first loop of [pop] discards what it deletes, and so do the batch and
    the match branch; what the loop creates are placeholders. *)
Lemma pop_indices_takes : forall (b : MinimalLatencyBuffer.t Data) time s,
  MinimalLatencyBuffer.pop_indices normal_quantile hypot iteration_order b time = Some s ->
  MinimalLatencyBuffer.discard_inds s = MinimalLatencyBuffer.delete_inds s
  /\ Forall (fun p => TimeData.is_placeholder p = true) (MinimalLatencyBuffer.cleaned_data s).
Proof.
  intros b time s H. unfold MinimalLatencyBuffer.pop_indices in H.
  set (s0 := MinimalLatencyBuffer.scan normal_quantile hypot b 0
               (MinimalLatencyBuffer._data b)
               (MinimalLatencyBuffer.mkScan time [] [] [] [] [])) in *.
  assert (Hd : MinimalLatencyBuffer.discard_inds s0 = MinimalLatencyBuffer.delete_inds s0).
  { destruct (MinimalLatencyFacts.scan_spec normal_quantile hypot b
                (MinimalLatencyBuffer._data b)
                (MinimalLatencyBuffer.mkScan time [] [] [] [] []))
      as (suffix & o & d & _ & _ & _ & Hdi & Hde & _).
    cbv zeta in Hdi, Hde. simpl in Hdi, Hde. subst s0. congruence. }
  assert (Hc : Forall (fun p => TimeData.is_placeholder p = true)
                 (MinimalLatencyBuffer.cleaned_data s0)).
  { subst s0. apply scan_cleaned; [| constructor]. intros e p _ Hp _ _. exact Hp. }
  destruct (MinimalLatencyBuffer.mode _);
    [| destruct (MinimalLatencyBuffer.output_inds s0);
       [| destruct (MinimalLatencyBuffer.runBatching _ _ _ _); [| discriminate]]
     | destruct (MinimalLatencyBuffer.output_inds s0);
       [| destruct (MinimalLatencyBuffer.runMatching _ _ _ _) as [[? ?]|];
          [| discriminate]]];
    injection H as <-; simpl; split; congruence || assumption.
Qed.
End PopPartition.

(* ################################################################# *)
(** * The tuple of the Match policy *)

Section MatchTuple.
Variable Data : Type.
Variable iteration_order : list SourceId -> list SourceId.
Hypothesis iterates_keys : forall keys, Permutation (iteration_order keys) keys.
Implicit Types (queue rest pre : list (TimeData.t Data)) (m : MatchingMap).

(** The reference the first loop of [runMatching] finds is a sample of the
    reference stream. *)
Lemma find_reference_own : forall stream queue ready found ref_idx t_ref next,
  find_reference stream queue ready found = Some (Some (ref_idx, t_ref), next) ->
  (forall i t, found = Some (i, t) ->
               exists x, nth_error queue i = Some x /\ TimeData.id x = stream) ->
  exists x, nth_error queue ref_idx = Some x /\ TimeData.id x = stream.
Proof.
  intros stream queue ready; induction ready as [|idx ready IH];
    intros found ref_idx t_ref next H Hfound; simpl in H.
  - injection H as -> _. eapply Hfound. reflexivity.
  - destruct (nth_error queue idx) as [element|] eqn:E; [| discriminate].
    destruct (Nat.eqb (TimeData.id element) stream) eqn:Eid.
    + apply Nat.eqb_eq in Eid. destruct found as [[i t]|].
      * injection H as <- <- _. eapply Hfound. reflexivity.
      * eapply IH; [exact H |]. intros i t Hit. injection Hit as <- _. eauto.
    + eapply IH; eassumption.
Qed.

Lemma reference_entry_own : forall queue stream ref_idx x,
  nth_error queue ref_idx = Some x -> TimeData.id x = stream ->
  entries_own queue [(stream, MatchMapEntry.make ref_idx (Some 0%float))].
Proof.
  intros queue stream ref_idx x Hx Hid.
  split; [repeat constructor; intros [] |]. repeat constructor. simpl. eauto.
Qed.

(** The loop of the minimal-latency buffer over the ready indices keeps the
    invariant of the matching map. *)
Lemma match_ready_keeps_own : forall stream t_ref t_next queue ready m latest m' latest',
  MinimalLatencyBuffer.match_ready stream t_ref t_next queue ready m latest
  = Some (m', latest') ->
  entries_own queue m -> entries_own queue m'.
Proof.
  intros stream t_ref t_next queue ready; induction ready as [|idx ready IH];
    intros m latest m' latest' H Hm; simpl in H.
  - now injection H as <- _.
  - destruct (nth_error queue idx) as [element|] eqn:E; [| discriminate].
    destruct (Nat.eqb (TimeData.id element) stream); [eapply IH; eassumption |].
    destruct (_ <? _)%Z; [now injection H as <- _ |].
    eapply IH; [exact H |]. eapply take_if_closer_own; eauto.
Qed.

(** So does the matching loop of the fixed-lag buffer. *)
Lemma match_scan_own : forall stream t_ref t_next rest pre m,
  entries_own (pre ++ rest) m ->
  entries_own (pre ++ rest)
    (fst (FixedLagBuffer.match_scan stream t_ref t_next (length pre) rest m)).
Proof.
  intros stream t_ref t_next rest; induction rest as [|element rest IH];
    intros pre m Hm; simpl.
  - exact Hm.
  - assert (Hmid := FixedLagFacts.nth_error_middle pre element rest).
    assert (Hpre : (pre ++ [element]) ++ rest = pre ++ element :: rest)
      by (now rewrite <- app_assoc).
    assert (Hlen : length (pre ++ [element]) = S (length pre))
      by (rewrite length_app; simpl; lia).
    destruct (Nat.eqb (TimeData.id element) stream).
    + rewrite <- Hlen, <- Hpre. apply IH. now rewrite Hpre.
    + destruct (_ <? _)%Z.
      * destruct (map_find (TimeData.id element) m); exact Hm.
      * rewrite <- Hlen, <- Hpre. apply IH. rewrite Hpre.
        eapply take_if_closer_own; eauto.
Qed.

(** The matching loop of the fixed-lag buffer drops no source from the
    map. *)
Lemma match_scan_keys : forall stream t_ref t_next rest idx m k,
  In k (map_keys m) ->
  In k (map_keys (fst (FixedLagBuffer.match_scan stream t_ref t_next idx rest m))).
Proof.
  intros stream t_ref t_next rest; induction rest as [|element rest IH];
    intros idx m k Hk; simpl.
  - exact Hk.
  - destruct (Nat.eqb (TimeData.id element) stream); [now apply IH |].
    destruct (_ <? _)%Z.
    + destruct (map_find (TimeData.id element) m); exact Hk.
    + apply IH. apply take_if_closer_keys. now right.
Qed.

(** The samples of a tuple are of the sources of the matching map, one of
    each. *)
Lemma tuple_ids : forall queue m out,
  entries_own queue m ->
  elements_at queue (tuple_of iteration_order m) = Some out ->
  Permutation (map TimeData.id out) (map_keys m).
Proof.
  intros queue m out [_ Hown] H. unfold tuple_of in H.
  assert (Hks : forall ks out',
             (forall k, In k ks -> In k (map_keys m)) ->
             elements_at queue
               (flat_map (fun k => match map_find k m with
                                   | Some e => [MatchMapEntry.idx e]
                                   | None => []
                                   end) ks) = Some out' ->
             map TimeData.id out' = ks).
  { induction ks as [|k ks IH]; intros out' Hin E; simpl in E.
    - now injection E as <-.
    - destruct (map_find k m) as [e|] eqn:Ek.
      + apply MinimalLatencyFacts.map_find_In in Ek.
        rewrite Forall_forall in Hown. destruct (Hown _ Ek) as (x & Hx & Hid).
        simpl in Hx, Hid, E. rewrite Hx in E.
        match type of E with
        | context [elements_at queue ?l] =>
            destruct (elements_at queue l) as [out''|] eqn:E'; [| discriminate]
        end.
        injection E as <-. simpl. rewrite Hid. f_equal.
        apply IH; [| reflexivity]. intros k' Hk'. apply Hin. now right.
      + exfalso. apply (proj1 (map_find_keys k m)); [| exact Ek].
        apply Hin. now left. }
  rewrite (Hks _ _ (fun k Hk => Permutation_in k (iterates_keys (map_keys m)) Hk) H).
  apply iterates_keys.
Qed.

(** A tuple of the minimal-latency buffer comes from a matching map with an
    entry for every estimator. *)
Lemma ml_runMatching_tuple : forall (b : MinimalLatencyBuffer.t Data) queue ready
    tuple_inds to_delete,
  MinimalLatencyBuffer.runMatching iteration_order b queue ready
  = Some (tuple_inds, to_delete) ->
  tuple_inds <> [] ->
  exists m,
    entries_own queue m
    /\ length m = length (MinimalLatencyBuffer._source_infos b)
    /\ tuple_inds = tuple_of iteration_order m.
Proof.
  intros b queue ready tuple_inds to_delete H Hne.
  unfold MinimalLatencyBuffer.runMatching in H.
  destruct (find_reference _ queue (sort_indices ready) None)
    as [[[[ref_idx t_ref]|] next]|] eqn:Eref; [| | discriminate].
  2:{ injection H as <- _. congruence. }
  apply find_reference_own in Eref; [| discriminate].
  destruct Eref as (x & Hx & Hid).
  unfold MinimalLatencyBuffer.match_from in H.
  destruct (MinimalLatencyBuffer.match_ready _ _ _ _ _ _ _) as [[m latest]|] eqn:Er;
    [| discriminate].
  apply match_ready_keeps_own in Er; [| eapply reference_entry_own; eassumption].
  destruct (MinimalLatencyBuffer.match_waiting _ _ _ _ m) as [m' better] eqn:Ew.
  destruct (Nat.eqb (length m') _) eqn:El; simpl in H;
    [| injection H as <- _; congruence].
  destruct better; [injection H as <- _; congruence |].
  apply MinimalLatencyFacts.match_waiting_unchanged in Ew. subst m'.
  injection H as <- _. apply Nat.eqb_eq in El. eauto.
Qed.

(** A tuple of the fixed-lag buffer comes from a matching map with
    [num_streams] entries. *)
Lemma fl_runMatching_tuple : forall (b : FixedLagBuffer.t Data) ready tuple_inds to_delete,
  FixedLagBuffer.runMatching iteration_order b ready = Some (tuple_inds, to_delete) ->
  tuple_inds <> [] ->
  exists m,
    entries_own (FixedLagBuffer._data b) m
    /\ length m = MatchParams.num_streams (FixedLagBuffer.match_ (FixedLagBuffer._params b))
    /\ In (MatchParams.reference_stream (FixedLagBuffer.match_ (FixedLagBuffer._params b)))
         (map_keys m)
    /\ tuple_inds = tuple_of iteration_order m.
Proof.
  intros b ready tuple_inds to_delete H Hne.
  unfold FixedLagBuffer.runMatching in H.
  destruct (find_reference _ (FixedLagBuffer._data b) ready None)
    as [[[[ref_idx t_ref]|] next]|] eqn:Eref; [| | discriminate].
  2:{ injection H as <- _. congruence. }
  apply find_reference_own in Eref; [| discriminate].
  destruct Eref as (x & Hx & Hid).
  unfold FixedLagBuffer.match_from in H.
  match type of H with
  | context [FixedLagBuffer.match_scan ?R ?t ?t' 0 ?q ?m0] =>
      pose proof (@match_scan_own R t t' q [] m0
                    (@reference_entry_own q R ref_idx x Hx Hid)) as Hown;
      pose proof (@match_scan_keys R t t' q 0 m0 R (or_introl eq_refl)) as Hkey;
      simpl in Hown;
      destruct (FixedLagBuffer.match_scan R t t' 0 q m0) as [m better]
  end.
  simpl in Hown, Hkey.
  destruct (Nat.eqb (length m) _) eqn:El; simpl in H.
  - injection H as <- _. apply Nat.eqb_eq in El.
    exists m. split; [exact Hown | split; [exact El | split; [exact Hkey | reflexivity]]].
  - unfold FixedLagBuffer.incomplete_tuple in H. injection H as <- _. congruence.
Qed.
End MatchTuple.

(* ################################################################# *)
(** * The first loop of [pop] does not look at the mode *)

Section Modes.
Variable Data : Type.
Variable normal_quantile : float -> float -> float -> float.
Variable hypot : float -> float -> float.
Implicit Types (b : MinimalLatencyBuffer.t Data) (mode : BufferMode).

Lemma placeholder_loop_mode : forall mode b estimator id meas_time remaining i out,
  MinimalLatencyBuffer.placeholder_loop normal_quantile hypot (with_mode mode b)
    estimator id meas_time i remaining out
  = MinimalLatencyBuffer.placeholder_loop normal_quantile hypot b
      estimator id meas_time i remaining out.
Proof.
  intros mode b estimator id meas_time remaining.
  induction remaining as [|remaining IH]; intros i out;
    cbn [MinimalLatencyBuffer.placeholder_loop]; [reflexivity |].
  rewrite IH. reflexivity.
Qed.

Lemma create_placeholders_mode : forall mode b element max_number,
  MinimalLatencyBuffer.create_placeholders normal_quantile hypot (with_mode mode b)
    element max_number
  = MinimalLatencyBuffer.create_placeholders normal_quantile hypot b element max_number.
Proof.
  intros mode b element max_number. unfold MinimalLatencyBuffer.create_placeholders.
  change (MinimalLatencyBuffer._source_infos (with_mode mode b))
    with (MinimalLatencyBuffer._source_infos b).
  destruct (map_find (TimeData.id element) (MinimalLatencyBuffer._source_infos b));
    [| reflexivity].
  rewrite placeholder_loop_mode. reflexivity.
Qed.

Lemma scan_mode : forall mode b rest i s,
  MinimalLatencyBuffer.scan normal_quantile hypot (with_mode mode b) i rest s
  = MinimalLatencyBuffer.scan normal_quantile hypot b i rest s.
Proof.
  intros mode b rest; induction rest as [|element rest IH]; intros i s;
    cbn [MinimalLatencyBuffer.scan]; [reflexivity |].
  rewrite create_placeholders_mode.
  destruct (MinimalLatencyBuffer.create_placeholders normal_quantile hypot b element
              MinimalLatencyBuffer.MAX_INSERTED_PLACEHOLDERS) as [element' new_placeholders].
  rewrite IH. reflexivity.
Qed.
End Modes.

(* ################################################################# *)
(** * The limits of a placeholder *)

Section PlaceholderLimits.
Variable Data : Type.
Variable normal_quantile : float -> float -> float -> float.
Variable hypot : float -> float -> float.
Variable iteration_order : list SourceId -> list SourceId.
Implicit Types (b : MinimalLatencyBuffer.t Data) (e p element : TimeData.t Data)
  (params : MinimalLatencyBuffer.Params).

Lemma clamp_bounds : forall v lo hi : Duration,
  (lo <= hi)%Z ->
  (lo <= MinimalLatencyBuffer.clamp v lo hi <= hi)%Z.
Proof.
  intros v lo hi H. unfold MinimalLatencyBuffer.clamp.
  destruct (v <? lo)%Z eqn:E1; [lia |].
  destruct (hi <? v)%Z eqn:E2; [lia |].
  apply Z.ltb_ge in E1, E2. lia.
Qed.

(** A placeholder stands within the jitter limit of the predicted
    [meas_time], and its latest receipt time is at most
    [max_total_wait_time] behind the prediction. *)
Lemma placeholder_of_limits : forall params estimator id meas_time placeholder_index,
  (0 <= MinimalLatencyBuffer.max_abs_measurement_jitter params)%Z ->
  let p := MinimalLatencyBuffer.placeholder_of Data normal_quantile hypot params
             estimator id meas_time placeholder_index in
  let predicted := (meas_time + Z.of_nat placeholder_index * Estimator.period estimator)%Z in
  TimeData.is_placeholder p = true
  /\ TimeData.id p = id
  /\ (Z.abs (TimeData.meas_time p - predicted)
      <= MinimalLatencyBuffer.max_abs_measurement_jitter params)%Z
  /\ (TimeData.receipt_time p
      <= predicted + MinimalLatencyBuffer.max_total_wait_time params)%Z.
Proof.
  intros params estimator id meas_time placeholder_index Hj p predicted.
  subst p predicted. unfold MinimalLatencyBuffer.placeholder_of.
  cbn [TimeData.is_placeholder TimeData.data TimeData.id TimeData.meas_time
       TimeData.receipt_time].
  split; [reflexivity |]. split; [reflexivity |].
  split.
  - match goal with |- context [if ?c then ?x else 0%Z] => set (q := if c then x else 0%Z) end.
    assert (Hq : (- MinimalLatencyBuffer.max_abs_measurement_jitter params <= q
                  <= MinimalLatencyBuffer.max_abs_measurement_jitter params)%Z).
    { subst q. match goal with |- context [if ?c then _ else _] => destruct c end.
      - apply clamp_bounds. lia.
      - lia. }
    lia.
  - match goal with |- context [Z.min ?x ?y] => pose proof (Z.le_min_r x y) end.
    lia.
Qed.

Lemma bounded_wait_flag : forall params e flag,
  bounded_wait params e -> bounded_wait params (TimeData.set_created_placeholder flag e).
Proof. intros params e flag H. exact H. Qed.

Lemma bounded_wait_flagged : forall params e e',
  flagged e e' -> bounded_wait params e -> bounded_wait params e'.
Proof. intros params e e' [-> | ->] H; exact H. Qed.

Lemma bounded_wait_data : forall params e,
  TimeData.is_placeholder e = false -> bounded_wait params e.
Proof. intros params e H Hp. congruence. Qed.

Lemma placeholder_of_bounded : forall params estimator id meas_time placeholder_index,
  (0 <= MinimalLatencyBuffer.max_abs_measurement_jitter params)%Z ->
  bounded_wait params
    (MinimalLatencyBuffer.placeholder_of Data normal_quantile hypot params
       estimator id meas_time placeholder_index).
Proof.
  intros params estimator id meas_time placeholder_index Hj _.
  destruct (@placeholder_of_limits params estimator id meas_time placeholder_index Hj)
    as (_ & _ & Hm & Hr).
  cbv zeta in Hm, Hr. lia.
Qed.

Lemma placeholder_loop_bounded : forall b estimator id meas_time remaining i out,
  (0 <= MinimalLatencyBuffer.max_abs_measurement_jitter (MinimalLatencyBuffer._params b))%Z ->
  Forall (bounded_wait (MinimalLatencyBuffer._params b)) out ->
  Forall (bounded_wait (MinimalLatencyBuffer._params b))
    (MinimalLatencyBuffer.placeholder_loop normal_quantile hypot b estimator id meas_time i
       remaining out).
Proof.
  intros b estimator id meas_time remaining.
  induction remaining as [|remaining IH]; intros i out Hj H;
    cbn [MinimalLatencyBuffer.placeholder_loop]; [exact H |].
  assert (Hp : forall flag flag',
             bounded_wait (MinimalLatencyBuffer._params b)
               (TimeData.set_created_placeholder flag
                  (TimeData.set_created_placeholder flag'
                     (MinimalLatencyBuffer.placeholder_of Data normal_quantile hypot
                        (MinimalLatencyBuffer._params b) estimator id meas_time i)))).
  { intros flag flag'. apply bounded_wait_flag, bounded_wait_flag.
    now apply placeholder_of_bounded. }
  match goal with |- context [if ?c then _ else _] => destruct c end.
  - apply Forall_app. split; [exact H |]. constructor; [apply Hp | constructor].
  - apply IH; [exact Hj |]. apply Forall_app. split; [exact H |].
    constructor; [| constructor].
    apply bounded_wait_flag. now apply placeholder_of_bounded.
Qed.

Lemma create_placeholders_bounded : forall b element max_number,
  (0 <= MinimalLatencyBuffer.max_abs_measurement_jitter (MinimalLatencyBuffer._params b))%Z ->
  Forall (bounded_wait (MinimalLatencyBuffer._params b))
    (snd (MinimalLatencyBuffer.create_placeholders normal_quantile hypot b element
            max_number)).
Proof.
  intros b element max_number Hj. unfold MinimalLatencyBuffer.create_placeholders.
  destruct (map_find _ _); [| constructor].
  destruct (_ || _); [constructor |].
  simpl. apply placeholder_loop_bounded; [exact Hj | constructor].
Qed.

(** What the first loop of [pop] creates is what [create_placeholders]
    creates. *)
Lemma scan_cleaned_Forall : forall b (P : TimeData.t Data -> Prop) rest i s,
  (forall element,
      Forall P (snd (MinimalLatencyBuffer.create_placeholders normal_quantile hypot b element
                       MinimalLatencyBuffer.MAX_INSERTED_PLACEHOLDERS))) ->
  Forall P (MinimalLatencyBuffer.cleaned_data s) ->
  Forall P (MinimalLatencyBuffer.cleaned_data
              (MinimalLatencyBuffer.scan normal_quantile hypot b i rest s)).
Proof.
  intros b P rest; induction rest as [|element rest IH]; intros i s HP H;
    cbn [MinimalLatencyBuffer.scan].
  - exact H.
  - match goal with |- context [if ?c then _ else _] => destruct c end; [exact H |].
    pose proof (HP element) as Hnew.
    destruct (MinimalLatencyBuffer.create_placeholders normal_quantile hypot b element
                MinimalLatencyBuffer.MAX_INSERTED_PLACEHOLDERS) as [element' new].
    apply IH; [exact HP |]. simpl. apply Forall_app. split; [exact H | exact Hnew].
Qed.

Lemma ml_push_params : forall b id receipt_time meas_time data,
  MinimalLatencyBuffer._params
    (snd (MinimalLatencyBuffer.push normal_quantile hypot b id receipt_time meas_time data))
  = MinimalLatencyBuffer._params b.
Proof.
  intros b id receipt_time meas_time data. unfold MinimalLatencyBuffer.push.
  destruct (_ <? _)%Z; [reflexivity |].
  destruct (map_find id (MinimalLatencyBuffer._source_infos b)); [| reflexivity].
  destruct (MinimalLatencyBuffer.find_best_placeholder _ _ _ _ _ _ _) as [best missed].
  reflexivity.
Qed.

Lemma ml_pop_params : forall b time r b',
  MinimalLatencyBuffer.pop normal_quantile hypot iteration_order b time = Some (r, b') ->
  MinimalLatencyBuffer._params b' = MinimalLatencyBuffer._params b.
Proof.
  intros b time r b' Hpop. unfold MinimalLatencyBuffer.pop in Hpop.
  destruct (time <? _)%Z; [now injection Hpop as _ <- |].
  destruct (MinimalLatencyBuffer.pop_indices _ _ _ _ _) as [s|]; [| discriminate].
  destruct (elements_at _ (MinimalLatencyBuffer.output_inds s)); [| discriminate].
  destruct (elements_at _ (MinimalLatencyBuffer.discard_inds s)); [| discriminate].
  destruct (remove_indices _ _); [| discriminate].
  now injection Hpop as _ <-.
Qed.

Lemma push_bounded : forall b id receipt_time meas_time data,
  (0 <= MinimalLatencyBuffer.max_abs_measurement_jitter (MinimalLatencyBuffer._params b))%Z ->
  Forall (bounded_wait (MinimalLatencyBuffer._params b)) (MinimalLatencyBuffer._data b) ->
  let after :=
    snd (MinimalLatencyBuffer.push normal_quantile hypot b id receipt_time meas_time data) in
  Forall (bounded_wait (MinimalLatencyBuffer._params b)) (MinimalLatencyBuffer._data after).
Proof.
  intros b id receipt_time meas_time data Hj H after. subst after.
  unfold MinimalLatencyBuffer.push.
  destruct (_ <? _)%Z; [constructor |].
  destruct (map_find id (MinimalLatencyBuffer._source_infos b)) as [estimator|].
  2:{ cbn [snd MinimalLatencyBuffer._data].
      apply sorted_Forall, Forall_app. split; [exact H |].
      constructor; [| constructor]. now apply bounded_wait_data. }
  destruct (MinimalLatencyBuffer.find_best_placeholder id meas_time 0
              (MinimalLatencyBuffer._data b) _ None 0) as [[[best_ind old]|] missed];
    match goal with
    | |- context [MinimalLatencyBuffer.create_placeholders _ _ b ?e ?n] =>
        pose proof (@create_placeholders_bounded b e n Hj) as Hnew;
        destruct (MinimalLatencyFacts.create_placeholders_spec normal_quantile hypot b e n)
          as (Hflag & _ & _);
        destruct (MinimalLatencyBuffer.create_placeholders normal_quantile hypot b e n)
          as [element new]
    end;
    simpl in Hflag, Hnew;
    cbn [snd MinimalLatencyBuffer._data];
    apply sorted_Forall, filter_Forall.
  - apply Forall_app. split; [| exact Hnew].
    apply assign_at_Forall; [exact H |].
    apply bounded_wait_data.
    now rewrite (MinimalLatencyFacts.flagged_placeholder Hflag).
  - apply Forall_app. split; [exact H |].
    apply Forall_app. split; [exact Hnew |].
    constructor; [| constructor]. apply bounded_wait_data.
    now rewrite (MinimalLatencyFacts.flagged_placeholder Hflag).
Qed.

Lemma pop_bounded : forall b time r b',
  (0 <= MinimalLatencyBuffer.max_abs_measurement_jitter (MinimalLatencyBuffer._params b))%Z ->
  Forall (bounded_wait (MinimalLatencyBuffer._params b)) (MinimalLatencyBuffer._data b) ->
  MinimalLatencyBuffer.pop normal_quantile hypot iteration_order b time = Some (r, b') ->
  Forall (bounded_wait (MinimalLatencyBuffer._params b)) (MinimalLatencyBuffer._data b').
Proof.
  intros b time r b' Hj Hall H. unfold MinimalLatencyBuffer.pop in H.
  destruct (time <? _)%Z; [injection H as _ <-; exact Hall |].
  destruct (MinimalLatencyBuffer.pop_indices normal_quantile hypot iteration_order b time)
    as [s|] eqn:Es; [| discriminate].
  assert (Hclean : Forall (bounded_wait (MinimalLatencyBuffer._params b))
                     (MinimalLatencyBuffer.cleaned_data s)).
  { assert (Hscan : Forall (bounded_wait (MinimalLatencyBuffer._params b))
                      (MinimalLatencyBuffer.cleaned_data
                         (MinimalLatencyBuffer.scan normal_quantile hypot b 0
                            (MinimalLatencyBuffer._data b)
                            (MinimalLatencyBuffer.mkScan time [] [] [] [] [])))).
    { apply scan_cleaned_Forall; [| constructor].
      intros element. now apply create_placeholders_bounded. }
    unfold MinimalLatencyBuffer.pop_indices in Es.
    destruct (MinimalLatencyBuffer.mode _);
      [| destruct (MinimalLatencyBuffer.output_inds _);
         [| destruct (MinimalLatencyBuffer.runBatching _ _ _ _); [| discriminate]]
       | destruct (MinimalLatencyBuffer.output_inds _);
         [| destruct (MinimalLatencyBuffer.runMatching _ _ _ _) as [[? ?]|];
            [| discriminate]]];
      injection Es as <-; exact Hscan. }
  apply (MinimalLatencyFacts.pop_indices_spec) in Es as (Hflag & _).
  destruct (elements_at _ (MinimalLatencyBuffer.output_inds s)); [| discriminate].
  destruct (elements_at _ (MinimalLatencyBuffer.discard_inds s)); [| discriminate].
  destruct (remove_indices _ _) as [remaining|] eqn:Er; [| discriminate].
  injection H as _ <-. simpl.
  apply sorted_Forall, Forall_app. split; [| exact Hclean].
  apply Forall_forall. intros x Hx.
  apply (@remove_indices_incl _ _ _ _ x Er) in Hx.
  assert (Hq : Forall (bounded_wait (MinimalLatencyBuffer._params b))
                 (MinimalLatencyBuffer._queue s)).
  { eapply Forall2_flagged_Forall; [| exact Hflag | exact Hall].
    intros e e'. apply bounded_wait_flagged. }
  rewrite Forall_forall in Hq. now apply Hq.
Qed.

Lemma reachable_bounded : forall b,
  minimal_latency_reachable normal_quantile hypot iteration_order b ->
  (0 <= MinimalLatencyBuffer.max_abs_measurement_jitter (MinimalLatencyBuffer._params b))%Z ->
  Forall (bounded_wait (MinimalLatencyBuffer._params b)) (MinimalLatencyBuffer._data b).
Proof.
  intros b H; induction H as [params | b id receipt_time meas_time data H IH
                              | b time r b' H IH Hpop]; intros Hj.
  - constructor.
  - rewrite ml_push_params in *. apply push_bounded; [exact Hj | apply IH; exact Hj].
  - rewrite (@ml_pop_params b time r b' Hpop) in *.
    exact (@pop_bounded b time r b' Hj (IH Hj) Hpop).
Qed.
End PlaceholderLimits.

(* ################################################################# *)
(** * Further properties of the buffers *)

(** X2.  The queue invariant: in every state reached from the constructor by
    calls of [push] and [pop] the queue is sorted by [meas_time], in both
    buffers. *)
Theorem queue_sorted_invariant (Data : Type)
  (normal_quantile : float -> float -> float -> float) (hypot : float -> float -> float)
  (iteration_order : list SourceId -> list SourceId) :
  (forall b : FixedLagBuffer.t Data,
      fixed_lag_reachable normal_quantile iteration_order b ->
      queue_sorted (FixedLagBuffer._data b))
  /\ (forall b : MinimalLatencyBuffer.t Data,
         minimal_latency_reachable normal_quantile hypot iteration_order b ->
         queue_sorted (MinimalLatencyBuffer._data b)).
Proof.
  split.
  - intros b H. eapply FixedLagFacts.fl_reachable_sorted; eassumption.
  - intros b H. eapply MinimalLatencyFacts.ml_reachable_sorted; eassumption.
Qed.

(** The queues of [fl_late_b] and of [ml_zero_latency] are sorted. *)
Lemma queue_sorted_invariant_witness :
  queue_sorted (FixedLagBuffer._data Examples.fl_late_b)
  /\ queue_sorted (MinimalLatencyBuffer._data Examples.ml_zero_latency).
Proof.
  destruct (queue_sorted_invariant unit Examples.no_quantile Examples.no_hypot
              Examples.insertion_order) as [Hfl Hml].
  split.
  - apply Hfl. rewrite fl_late_b_run. apply fl_run_reachable. apply fl_reach_new.
  - apply Hml. rewrite ml_zero_latency_run. apply ml_run_reachable. apply ml_reach_new.
Defined.

(** X3.  The minimal-latency buffer remembers the latest receipt time it was
    given: after a [push] that returned [OK], a [pop] at a time before the
    pushed [receipt_time] releases and discards nothing, returns the
    [buffer_time] held before the push and leaves the buffer as the push left
    it. *)
Theorem stale_pop_after_push (Data : Type)
  (normal_quantile : float -> float -> float -> float) (hypot : float -> float -> float)
  (iteration_order : list SourceId -> list SourceId)
  (b : MinimalLatencyBuffer.t Data) (id : SourceId) (receipt_time meas_time : Time)
  (data : Data) (time : Time) :
  let after :=
    MinimalLatencyBuffer.push normal_quantile hypot b id receipt_time meas_time data in
  fst after = OK ->
  (time < receipt_time)%Z ->
  MinimalLatencyBuffer.pop normal_quantile hypot iteration_order (snd after) time
  = Some (PopReturn.make (MinimalLatencyBuffer._buffer_time b) [] [], snd after).
Proof.
  intros after Hok Htime. subst after.
  destruct (MinimalLatencyBuffer.reset_threshold (MinimalLatencyBuffer._params b)
            <? MinimalLatencyBuffer._current_time b - receipt_time)%Z eqn:E.
  - rewrite (minimal_latency_push_reset normal_quantile hypot _ _ _ _ _ E) in Hok.
    discriminate.
  - destruct (minimal_latency_push_ok normal_quantile hypot b id receipt_time
                meas_time data E) as (_ & Hbt & Hct).
    cbv zeta in Hbt, Hct.
    unfold MinimalLatencyBuffer.pop. rewrite Hct, Hbt.
    assert (Hlt : (time <? Z.max (MinimalLatencyBuffer._current_time b) receipt_time)%Z
                  = true) by (apply Z.ltb_lt; lia).
    now rewrite Hlt.
Qed.

(** [ml_late_joiner] receives A measured at 200 ms at 210 ms; a [pop] at
    200 ms gets nothing, and [buffer_time] is still 100 ms. *)
Lemma stale_pop_after_push_witness :
  let after := Examples.ml_push Examples.ml_late_joiner Examples.sensor_a
                 (Examples.ms 210) (Examples.ms 200) in
  Examples.ml_pop Examples.insertion_order (snd after) (Examples.ms 200)
  = Some (PopReturn.make (Examples.ms 100) [] [], snd after).
Proof.
  apply (@stale_pop_after_push unit Examples.no_quantile Examples.no_hypot
           Examples.insertion_order Examples.ml_late_joiner Examples.sensor_a
           (Examples.ms 210) (Examples.ms 200) tt (Examples.ms 200)).
  - vm_compute. reflexivity.
  - reflexivity.
Defined.

(** X4.  What a [pop] of the minimal-latency buffer releases, in every mode:
    samples with data (no placeholders) whose [meas_time] is not later than
    the time of the [pop]. *)
Theorem released_samples_are_due (Data : Type)
  (normal_quantile : float -> float -> float -> float) (hypot : float -> float -> float)
  (iteration_order : list SourceId -> list SourceId)
  (b : MinimalLatencyBuffer.t Data) (time : Time) r b' :
  MinimalLatencyBuffer.pop normal_quantile hypot iteration_order b time = Some (r, b') ->
  Forall (fun e => TimeData.is_placeholder e = false /\ (TimeData.meas_time e <= time)%Z)
    (PopReturn.data r).
Proof.
  intros H.
  destruct (MinimalLatencyFacts.pop_spec _ _ _ _ _ H) as (Hready & _).
  eapply Forall_impl; [| exact Hready].
  intros e (_ & Hdata & Hdue). split; assumption.
Qed.

(** The [pop] of the unit test [zeroLatency] that follows the push of B. *)
Lemma released_samples_are_due_witness :
  exists r b',
    Examples.ml_pop Examples.insertion_order Examples.ml_zero_latency (Examples.ms 60)
    = Some (r, b')
    /\ Forall (fun e => TimeData.is_placeholder e = false
                        /\ (TimeData.meas_time e <= Examples.ms 60)%Z) (PopReturn.data r).
Proof.
  destruct (Examples.ml_pop Examples.insertion_order Examples.ml_zero_latency (Examples.ms 60))
    as [[r b']|] eqn:E; [| vm_compute in E; discriminate].
  exists r, b'. split; [reflexivity |].
  exact (released_samples_are_due Examples.no_quantile Examples.no_hypot
           Examples.insertion_order Examples.ml_zero_latency (Examples.ms 60) E).
Defined.

(** X5.  The fixed-lag buffer never advances [current_time]: in every state
    reached from the constructor it is epoch, so that [push] returns [RESET]
    exactly when [reset_threshold] is less than the negated
    [receipt_time]. *)
Theorem fixed_lag_current_time_stays (Data : Type)
  (normal_quantile : float -> float -> float -> float)
  (iteration_order : list SourceId -> list SourceId) (b : FixedLagBuffer.t Data) :
  fixed_lag_reachable normal_quantile iteration_order b ->
  FixedLagBuffer.getCurrentTime b = epoch
  /\ (forall id receipt_time meas_time data,
         fst (FixedLagBuffer.push b id receipt_time meas_time data) = RESET
         <-> (FixedLagBuffer.reset_threshold (FixedLagBuffer._params b) < - receipt_time)%Z).
Proof.
  intros H. apply fl_current_time_epoch in H.
  split; [exact H |].
  intros id receipt_time meas_time data.
  rewrite FixedLagFacts.fl_push_reset, H. unfold epoch.
  destruct (_ <? _)%Z eqn:E; simpl;
    [apply Z.ltb_lt in E | apply Z.ltb_ge in E];
    (split; intros; [lia || discriminate | reflexivity || lia]).
Qed.

(** [fl_late_b], after three pushes, a pop and three more pushes. *)
Lemma fixed_lag_current_time_stays_witness :
  FixedLagBuffer.getCurrentTime Examples.fl_late_b = epoch.
Proof.
  apply (fixed_lag_current_time_stays (normal_quantile := Examples.no_quantile)
           (iteration_order := Examples.insertion_order) (b := Examples.fl_late_b)).
  rewrite fl_late_b_run. apply fl_run_reachable. apply fl_reach_new.
Defined.

(** X6.  In Match mode the matching loop of the fixed-lag buffer scans the
    whole queue, discarded samples included.  Whenever the tuple it returns
    names an index that the first loop of the same [pop] has put on the
    discard list, [remove_indices] is called with that index twice and the
    [pop] ends in the invalid iterator range. *)
Theorem fixed_lag_match_takes_discarded (Data : Type)
  (iteration_order : list SourceId -> list SourceId)
  (b : FixedLagBuffer.t Data) (time : Time)
  (ready discard tuple_inds delete_inds : IndexList) (i : nat) :
  FixedLagBuffer.mode (FixedLagBuffer._params b) = MATCH ->
  FixedLagBuffer.select (FixedLagBuffer._buffer_time b)
    (time - FixedLagBuffer._fixed_lag_delay b)%Z 0 (FixedLagBuffer._data b) [] []
  = (ready, discard) ->
  ready <> [] ->
  FixedLagBuffer.runMatching iteration_order b ready = Some (tuple_inds, delete_inds) ->
  In i tuple_inds -> In i discard ->
  FixedLagBuffer.pop iteration_order b time = None.
Proof.
  intros Hmode Hsel Hready Hrun Hi Hi'.
  unfold FixedLagBuffer.pop, FixedLagBuffer.pop_indices. rewrite Hsel, Hmode.
  destruct ready as [|front rest]; [congruence |].
  rewrite Hrun.
  destruct (elements_at _ tuple_inds); [| reflexivity].
  destruct (elements_at _ (discard ++ delete_inds)); [| reflexivity].
  destruct (remove_indices _ _) as [remaining|] eqn:E; [| reflexivity].
  apply remove_indices_Some in E as [Hnd _]. exfalso.
  apply (@NoDup_app_In _ (discard ++ delete_inds) tuple_inds i Hnd);
    [apply in_or_app; now left | assumption].
Qed.

(** [fl_late_b] is reached from the constructor; its [buffer_time] is 60 ms
    and its queue holds B at 45 ms in front of A at 100 ms and at 150 ms.  At
    200 ms B is discarded (index 0), the tuple is A at 100 ms with B at 45 ms
    (indices 1 and 0), and the [pop] does not return. *)
Lemma fixed_lag_match_takes_discarded_witness :
  fixed_lag_reachable Examples.no_quantile Examples.insertion_order Examples.fl_late_b
  /\ FixedLagBuffer._buffer_time Examples.fl_late_b = Examples.ms 60
  /\ map TimeData.meas_time (FixedLagBuffer._data Examples.fl_late_b)
     = [Examples.ms 45; Examples.ms 100; Examples.ms 150]
  /\ FixedLagBuffer.pop_indices Examples.insertion_order Examples.fl_late_b (Examples.ms 200)
     = Some ([1; 0], [0])
  /\ FixedLagBuffer.pop Examples.insertion_order Examples.fl_late_b (Examples.ms 200) = None.
Proof.
  split; [rewrite fl_late_b_run; apply fl_run_reachable; apply fl_reach_new |].
  split; [reflexivity |]. split; [reflexivity |]. split; [vm_compute; reflexivity |].
  apply (@fixed_lag_match_takes_discarded unit Examples.insertion_order Examples.fl_late_b
           (Examples.ms 200) [1; 2] [0] [1; 0] [] 0).
  - reflexivity.
  - vm_compute. reflexivity.
  - discriminate.
  - vm_compute. reflexivity.
  - simpl. auto.
  - simpl. auto.
Defined.

(** X7.  The minimal-latency buffer returns from every [pop], in every mode
    and every state, when the iteration over the matching map visits no key
    twice. *)
Theorem minimal_latency_pop_returns (Data : Type)
  (normal_quantile : float -> float -> float -> float) (hypot : float -> float -> float)
  (iteration_order : list SourceId -> list SourceId)
  (b : MinimalLatencyBuffer.t Data) (time : Time) :
  visits_once iteration_order ->
  exists r b',
    MinimalLatencyBuffer.pop normal_quantile hypot iteration_order b time = Some (r, b').
Proof.
  intros Hio.
  destruct (BufferMode_eqb (MinimalLatencyBuffer.mode (MinimalLatencyBuffer._params b)) MATCH)
    eqn:E.
  - apply pop_returns_match; [assumption |].
    destruct (MinimalLatencyBuffer.mode (MinimalLatencyBuffer._params b));
      [discriminate | discriminate | reflexivity].
  - apply MinimalLatencyFacts.pop_total. intros Hm. rewrite Hm in E. discriminate.
Qed.

(** [ml_b_before_a] is in Match mode and holds a sample of each of its two
    sources. *)
Lemma minimal_latency_pop_returns_witness :
  exists r b',
    Examples.ml_pop Examples.insertion_order Examples.ml_b_before_a (Examples.ms 60)
    = Some (r, b').
Proof.
  apply (minimal_latency_pop_returns Examples.no_quantile Examples.no_hypot
           Examples.ml_b_before_a (Examples.ms 60)
           (iteration_order := Examples.insertion_order)).
  intros keys H. exact H.
Defined.

(** X8.  No sample is both released and discarded by a [pop] of the
    minimal-latency buffer: the index lists of the two are disjoint, in every
    mode. *)
Theorem released_apart_from_discarded (Data : Type)
  (normal_quantile : float -> float -> float -> float) (hypot : float -> float -> float)
  (iteration_order : list SourceId -> list SourceId)
  (b : MinimalLatencyBuffer.t Data) (time : Time) s :
  MinimalLatencyBuffer.pop_indices normal_quantile hypot iteration_order b time = Some s ->
  forall i, In i (MinimalLatencyBuffer.output_inds s) ->
            In i (MinimalLatencyBuffer.discard_inds s) -> False.
Proof.
  intros H i Hi Hi'.
  exact (@pop_indices_apart Data normal_quantile hypot iteration_order b time s H i Hi Hi').
Qed.

(** At 160 ms [ml_late_joiner] discards B at 90 ms (index 0) and releases A
    at 150 ms (index 1). *)
Lemma released_apart_from_discarded_witness :
  exists s,
    MinimalLatencyBuffer.pop_indices Examples.no_quantile Examples.no_hypot
      Examples.insertion_order Examples.ml_late_joiner (Examples.ms 160) = Some s
    /\ MinimalLatencyBuffer.output_inds s = [1]
    /\ MinimalLatencyBuffer.discard_inds s = [0]
    /\ (In 1 (MinimalLatencyBuffer.discard_inds s) -> False).
Proof.
  destruct (MinimalLatencyBuffer.pop_indices Examples.no_quantile Examples.no_hypot
              Examples.insertion_order Examples.ml_late_joiner (Examples.ms 160))
    as [s|] eqn:E; [| vm_compute in E; discriminate].
  exists s. split; [reflexivity |].
  assert (Hout : MinimalLatencyBuffer.output_inds s = [1])
    by (vm_compute in E; injection E as <-; reflexivity).
  repeat split; [exact Hout | vm_compute in E; injection E as <-; reflexivity |].
  apply (released_apart_from_discarded Examples.no_quantile Examples.no_hypot
           Examples.insertion_order Examples.ml_late_joiner (Examples.ms 160) E).
  rewrite Hout. now left.
Defined.

(* ################################################################# *)
(** * The queue across [push] and [pop] *)

Lemma ml_late_joiner_run :
  Examples.ml_late_joiner
  = snd (Examples.ml_run Examples.insertion_order
           (MinimalLatencyBuffer.new unit (Examples.ml_params SINGLE Examples.sensor_a))
           [Examples.Pop (Examples.ms 10);
            Examples.Push Examples.sensor_a (Examples.ms 60) (Examples.ms 50);
            Examples.Pop (Examples.ms 60);
            Examples.Push Examples.sensor_a (Examples.ms 110) (Examples.ms 100);
            Examples.Pop (Examples.ms 110);
            Examples.Push Examples.sensor_b (Examples.ms 150) (Examples.ms 90);
            Examples.Push Examples.sensor_a (Examples.ms 160) (Examples.ms 150)]).
Proof. vm_compute. reflexivity. Qed.

Lemma ml_late_joiner_reachable :
  minimal_latency_reachable Examples.no_quantile Examples.no_hypot Examples.insertion_order
    Examples.ml_late_joiner.
Proof. rewrite ml_late_joiner_run. apply ml_run_reachable. apply ml_reach_new. Qed.

Lemma ml_burst_reachable :
  minimal_latency_reachable Examples.no_quantile Examples.no_hypot Examples.insertion_order
    Examples.ml_burst.
Proof.
  assert (E : Examples.ml_burst
              = snd (Examples.ml_run Examples.insertion_order
                       (MinimalLatencyBuffer.new unit
                          (Examples.ml_params SINGLE Examples.sensor_a))
                       ([Examples.Push Examples.sensor_a (Examples.ms 60) (Examples.ms 50);
                         Examples.Push Examples.sensor_a (Examples.ms 110) (Examples.ms 100);
                         Examples.Push Examples.sensor_a (Examples.ms 160) (Examples.ms 150)]
                        ++ map (fun k => Examples.Push Examples.sensor_a
                                           (Examples.ms (211 + k)) (Examples.ms (201 + k)))
                             [0; 1; 2; 3; 4; 5; 6; 7; 8; 9; 10]%Z)))
    by (vm_compute; reflexivity).
  rewrite E. apply ml_run_reachable. apply ml_reach_new.
Qed.

(** X12.  A [push] that returns [OK] stores the sample.  In the
    minimal-latency buffer the queue then holds a sample with the pushed id,
    times and data, every sample with data that was queued before is still
    queued as it was, and [getNumberOfQueuedElements] has grown by one.  In
    the fixed-lag buffer the queue is the old queue with the new sample, in
    some order. *)
Theorem push_stores_sample (Data : Type)
  (normal_quantile : float -> float -> float -> float) (hypot : float -> float -> float)
  (minimal_latency : MinimalLatencyBuffer.t Data) (fixed_lag : FixedLagBuffer.t Data)
  (id : SourceId) (receipt_time meas_time : Time) (data : Data) :
  (let after :=
     MinimalLatencyBuffer.push normal_quantile hypot minimal_latency id receipt_time
       meas_time data in
   fst after = OK ->
   (exists e,
       In e (MinimalLatencyBuffer._data (snd after))
       /\ TimeData.id e = id /\ TimeData.meas_time e = meas_time
       /\ TimeData.receipt_time e = receipt_time /\ TimeData.data e = Some data)
   /\ (forall e, In e (MinimalLatencyBuffer._data minimal_latency) ->
                 TimeData.is_placeholder e = false ->
                 In e (MinimalLatencyBuffer._data (snd after)))
   /\ MinimalLatencyBuffer.getNumberOfQueuedElements (snd after)
      = S (MinimalLatencyBuffer.getNumberOfQueuedElements minimal_latency))
  /\ (let after := FixedLagBuffer.push fixed_lag id receipt_time meas_time data in
      fst after = OK ->
      Permutation (FixedLagBuffer._data (snd after))
        (TimeData.of_sample id receipt_time meas_time data :: FixedLagBuffer._data fixed_lag)).
Proof.
  split.
  - intros after Hok.
    exact (@push_keeps_samples Data normal_quantile hypot minimal_latency id receipt_time
             meas_time data Hok).
  - intros after Hok. subst after. rewrite FixedLagFacts.fl_push_reset in *.
    destruct (_ <? _)%Z; [discriminate |]. simpl.
    eapply Permutation_trans; [apply sort_by_meas_time_perm |].
    apply Permutation_sym, Permutation_cons_append.
Qed.

(** X17.  In a state reached from the constructor, after a [push] that
    returned [OK] the queue holds no placeholder of the pushed source that is
    older than the pushed sample. *)
Theorem push_sweeps_older_placeholders (Data : Type)
  (normal_quantile : float -> float -> float -> float) (hypot : float -> float -> float)
  (iteration_order : list SourceId -> list SourceId)
  (b : MinimalLatencyBuffer.t Data) (id : SourceId) (receipt_time meas_time : Time)
  (data : Data) :
  minimal_latency_reachable normal_quantile hypot iteration_order b ->
  let after :=
    MinimalLatencyBuffer.push normal_quantile hypot b id receipt_time meas_time data in
  fst after = OK ->
  Forall (fun p => (meas_time <= TimeData.meas_time p)%Z)
    (placeholders_of id (MinimalLatencyBuffer._data (snd after))).
Proof.
  intros Hreach after Hok. subst after.
  apply (@reachable_well_formed Data normal_quantile hypot iteration_order) in Hreach.
  apply Forall_forall. intros p Hp.
  apply filter_In in Hp as [Hin Hp]. apply andb_prop in Hp as [Hid Hplace].
  apply Nat.eqb_eq in Hid.
  unfold MinimalLatencyBuffer.push in *.
  destruct (_ <? _)%Z; [discriminate |].
  destruct (map_find id (MinimalLatencyBuffer._source_infos b)) as [estimator|] eqn:Efind.
  - destruct (MinimalLatencyBuffer.find_best_placeholder _ _ _ _ _ _ _) as [best missed].
    cbn [snd MinimalLatencyBuffer._data] in Hin.
    eapply Permutation_in in Hin; [| apply sort_by_meas_time_perm].
    apply filter_In in Hin as [_ Hstale].
    unfold MinimalLatencyBuffer.is_stale_placeholder in Hstale.
    rewrite Hplace in Hstale. apply Nat.eqb_eq in Hid. rewrite Hid in Hstale.
    simpl in Hstale. apply negb_true_iff, Z.ltb_ge in Hstale. exact Hstale.
  - cbn [snd MinimalLatencyBuffer._data] in Hin.
    eapply Permutation_in in Hin; [| apply sort_by_meas_time_perm].
    apply in_app_or in Hin as [Hin | [<- | []]]; [| discriminate].
    rewrite Forall_forall in Hreach. destruct (Hreach p Hin) as [Hknown _].
    apply map_find_keys in Hknown. congruence.
Qed.

(** [ml_burst] holds eleven placeholders of A, at 251 to 261 ms; a sample of
    A measured at 256 ms leaves none in front of 256 ms. *)
Lemma push_sweeps_older_placeholders_witness :
  Forall (fun p => (Examples.ms 256 <= TimeData.meas_time p)%Z)
    (placeholders_of Examples.sensor_a
       (MinimalLatencyBuffer._data
          (snd (Examples.ml_push Examples.ml_burst Examples.sensor_a
                  (Examples.ms 266) (Examples.ms 256))))).
Proof.
  apply (@push_sweeps_older_placeholders unit Examples.no_quantile Examples.no_hypot
           Examples.insertion_order Examples.ml_burst Examples.sensor_a
           (Examples.ms 266) (Examples.ms 256) tt).
  - exact ml_burst_reachable.
  - vm_compute. reflexivity.
Defined.

(** X19.  In every state reached from the constructor, every queued sample
    is of a source the buffer has an estimator for, and every placeholder
    stands at its earliest estimated [meas_time] with its latest receipt
    time as [receipt_time]. *)
Theorem queue_well_formed (Data : Type)
  (normal_quantile : float -> float -> float -> float) (hypot : float -> float -> float)
  (iteration_order : list SourceId -> list SourceId) (b : MinimalLatencyBuffer.t Data) :
  minimal_latency_reachable normal_quantile hypot iteration_order b ->
  Forall (fun e =>
            map_find (TimeData.id e) (MinimalLatencyBuffer._source_infos b) <> None
            /\ (TimeData.is_placeholder e = true ->
                TimeData.meas_time e = TimeData.earliest_estimated_meas_time e
                /\ TimeData.receipt_time e = TimeData.latest_receipt_time e))
    (MinimalLatencyBuffer._data b).
Proof.
  intros H.
  apply (@reachable_well_formed Data normal_quantile hypot iteration_order) in H.
  eapply Forall_impl; [| exact H].
  intros e [Hknown Hshape]. split; [now apply map_find_keys | exact Hshape].
Qed.

(** The queue of [ml_burst], with its eleven placeholders. *)
Lemma queue_well_formed_witness :
  Forall (fun e =>
            map_find (TimeData.id e) (MinimalLatencyBuffer._source_infos Examples.ml_burst)
            <> None
            /\ (TimeData.is_placeholder e = true ->
                TimeData.meas_time e = TimeData.earliest_estimated_meas_time e
                /\ TimeData.receipt_time e = TimeData.latest_receipt_time e))
    (MinimalLatencyBuffer._data Examples.ml_burst).
Proof.
  exact (@queue_well_formed unit Examples.no_quantile Examples.no_hypot
           Examples.insertion_order Examples.ml_burst ml_burst_reachable).
Defined.

(** X13.  A [pop] of the fixed-lag buffer loses no sample and makes none up:
    the samples it discards, the samples it releases and the samples it
    leaves in the queue are the samples that were queued, each one once. *)
Theorem fixed_lag_pop_conserves (Data : Type)
  (iteration_order : list SourceId -> list SourceId)
  (b : FixedLagBuffer.t Data) (time : Time) r b' :
  FixedLagBuffer.pop iteration_order b time = Some (r, b') ->
  Permutation (FixedLagBuffer._data b)
    (PopReturn.discarded_data r ++ PopReturn.data r ++ FixedLagBuffer._data b').
Proof.
  intros H. exact (@fl_pop_split Data iteration_order b time r b' H).
Qed.

(** A [pop] of [fl_single_late] at 160 ms discards B at 45 ms, releases A at
    100 ms and keeps A at 150 ms. *)
Lemma fixed_lag_pop_conserves_witness :
  exists r b',
    FixedLagBuffer.pop Examples.insertion_order Examples.fl_single_late (Examples.ms 160)
    = Some (r, b')
    /\ map TimeData.meas_time (PopReturn.discarded_data r) = [Examples.ms 45]
    /\ map TimeData.meas_time (PopReturn.data r) = [Examples.ms 100]
    /\ Permutation (FixedLagBuffer._data Examples.fl_single_late)
         (PopReturn.discarded_data r ++ PopReturn.data r ++ FixedLagBuffer._data b').
Proof.
  destruct (FixedLagBuffer.pop Examples.insertion_order Examples.fl_single_late
              (Examples.ms 160)) as [[r b']|] eqn:E; [| vm_compute in E; discriminate].
  exists r, b'. split; [reflexivity |].
  pose proof (@fixed_lag_pop_conserves unit Examples.insertion_order
                Examples.fl_single_late (Examples.ms 160) r b' E) as Hperm.
  vm_compute in E. injection E as <- <-.
  split; [reflexivity | split; [reflexivity | exact Hperm]].
Defined.

(** X14.  A [pop] of the minimal-latency buffer loses no pushed sample and
    makes none up: the pushed samples among what it discards, releases and
    leaves in the queue are the pushed samples that were queued, each one
    once.  Only placeholders come and go. *)
Theorem minimal_latency_pop_conserves (Data : Type)
  (normal_quantile : float -> float -> float -> float) (hypot : float -> float -> float)
  (iteration_order : list SourceId -> list SourceId)
  (b : MinimalLatencyBuffer.t Data) (time : Time) r b' :
  MinimalLatencyBuffer.pop normal_quantile hypot iteration_order b time = Some (r, b') ->
  Permutation (pushed_samples (MinimalLatencyBuffer._data b))
    (pushed_samples (PopReturn.discarded_data r) ++ pushed_samples (PopReturn.data r)
     ++ pushed_samples (MinimalLatencyBuffer._data b')).
Proof.
  intros H. unfold MinimalLatencyBuffer.pop in H.
  destruct (time <? _)%Z; [injection H as <- <-; apply Permutation_refl |].
  destruct (MinimalLatencyBuffer.pop_indices normal_quantile hypot iteration_order b time)
    as [s|] eqn:Es; [| discriminate].
  destruct (@pop_indices_takes _ _ _ _ _ _ _ Es) as [Hd Hc].
  apply MinimalLatencyFacts.pop_indices_spec in Es as (Hflag & _).
  destruct (elements_at _ (MinimalLatencyBuffer.output_inds s)) as [output|] eqn:Eo;
    [| discriminate].
  destruct (elements_at _ (MinimalLatencyBuffer.discard_inds s)) as [discarded|] eqn:Ed;
    [| discriminate].
  destruct (remove_indices _ _) as [remaining|] eqn:Er; [| discriminate].
  injection H as <- <-. simpl.
  assert (Ep : elements_at (MinimalLatencyBuffer._queue s)
                 (MinimalLatencyBuffer.delete_inds s ++ MinimalLatencyBuffer.output_inds s)
               = Some (discarded ++ output))
    by (rewrite elements_at_app, <- Hd, Ed, Eo; reflexivity).
  rewrite <- (pushed_samples_flagged Hflag).
  eapply Permutation_trans;
    [apply pushed_samples_perm; exact (@remove_indices_split _ _ _ _ _ Er Ep) |].
  rewrite !pushed_samples_app, <- app_assoc.
  do 2 apply Permutation_app_head.
  eapply Permutation_trans;
    [| apply pushed_samples_perm, Permutation_sym, sort_by_meas_time_perm].
  rewrite pushed_samples_app, (pushed_samples_placeholders Hc), app_nil_r.
  apply Permutation_refl.
Qed.

(** A [pop] of [ml_late_joiner] at 160 ms discards B at 90 ms and releases A
    at 150 ms; what it leaves in the queue are placeholders. *)
Lemma minimal_latency_pop_conserves_witness :
  exists r b',
    Examples.ml_pop Examples.insertion_order Examples.ml_late_joiner (Examples.ms 160)
    = Some (r, b')
    /\ map TimeData.meas_time (PopReturn.discarded_data r) = [Examples.ms 90]
    /\ map TimeData.meas_time (PopReturn.data r) = [Examples.ms 150]
    /\ Permutation (pushed_samples (MinimalLatencyBuffer._data Examples.ml_late_joiner))
         (pushed_samples (PopReturn.discarded_data r) ++ pushed_samples (PopReturn.data r)
          ++ pushed_samples (MinimalLatencyBuffer._data b')).
Proof.
  destruct (Examples.ml_pop Examples.insertion_order Examples.ml_late_joiner
              (Examples.ms 160)) as [[r b']|] eqn:E; [| vm_compute in E; discriminate].
  exists r, b'. split; [reflexivity |].
  pose proof (@minimal_latency_pop_conserves unit Examples.no_quantile Examples.no_hypot
                Examples.insertion_order Examples.ml_late_joiner (Examples.ms 160) r b' E)
    as Hperm.
  vm_compute in E. injection E as <- <-.
  split; [reflexivity | split; [reflexivity | exact Hperm]].
Defined.

(** X15.  What a [pop] of the fixed-lag buffer does in Single mode on a
    sorted queue: it returns, it discards the samples at or in front of
    [buffer_time], it releases the samples behind [buffer_time] that are not
    later than [time] less the lag, both in queue order, and the queue keeps
    the others; [buffer_time] becomes the [meas_time] of the last released
    sample. *)
Theorem fixed_lag_single_release (Data : Type)
  (iteration_order : list SourceId -> list SourceId)
  (b : FixedLagBuffer.t Data) (time : Time) :
  FixedLagBuffer.mode (FixedLagBuffer._params b) = SINGLE ->
  queue_sorted (FixedLagBuffer._data b) ->
  let late (e : TimeData.t Data) :=
    (TimeData.meas_time e <=? FixedLagBuffer._buffer_time b)%Z in
  let due (e : TimeData.t Data) :=
    (FixedLagBuffer._buffer_time b <? TimeData.meas_time e)%Z
    && (TimeData.meas_time e <=? time - FixedLagBuffer._fixed_lag_delay b)%Z in
  let released := filter due (FixedLagBuffer._data b) in
  exists b',
    FixedLagBuffer.pop iteration_order b time
    = Some (PopReturn.make (last_meas_time released (FixedLagBuffer._buffer_time b))
              released (filter late (FixedLagBuffer._data b)), b')
    /\ FixedLagBuffer._buffer_time b'
       = last_meas_time released (FixedLagBuffer._buffer_time b)
    /\ Permutation (FixedLagBuffer._data b')
         (filter (fun e => negb (late e) && negb (due e)) (FixedLagBuffer._data b))
    /\ queue_sorted (FixedLagBuffer._data b').
Proof.
  intros Hmode Hs late due released.
  assert (Hnm : FixedLagBuffer.mode (FixedLagBuffer._params b) <> MATCH) by congruence.
  destruct (@FixedLagFacts.pop_in_sequence Data iteration_order b time Hs Hnm)
    as (out & disc & r & b' & Hidx & Hpop & _ & Eout & Edisc & _ & Hbt & Hbt' & Hsorted).
  unfold FixedLagBuffer.pop_indices in Hidx.
  destruct (FixedLagBuffer.select (FixedLagBuffer._buffer_time b)
              (time - FixedLagBuffer._fixed_lag_delay b)%Z 0 (FixedLagBuffer._data b) [] [])
    as [o d] eqn:Esel.
  rewrite Hmode in Hidx. injection Hidx as <- <-.
  apply (@select_exact Data _ _ _ [] [] []) in Esel; [| exact Hs].
  destruct Esel as (o' & d' & -> & -> & Ho & Hd). simpl in Ho, Hd, Eout, Edisc.
  rewrite Ho in Eout. rewrite Hd in Edisc.
  injection Eout as Eout. injection Edisc as Edisc.
  pose proof (@fl_pop_split Data iteration_order b time r b' Hpop) as Hperm.
  destruct r as [bt data discarded]. simpl in *. subst bt data discarded.
  exists b'. split; [exact Hpop |]. split; [exact Hbt' |]. split; [| exact Hsorted].
  eapply Permutation_app_inv_l, Permutation_app_inv_l.
  eapply Permutation_trans; [apply Permutation_sym, Hperm |].
  apply filter_split3. intros e. unfold late, due.
  destruct (TimeData.meas_time e <=? FixedLagBuffer._buffer_time b)%Z eqn:E1.
  - left. apply Z.leb_le in E1.
    assert (E : (FixedLagBuffer._buffer_time b <? TimeData.meas_time e)%Z = false)
      by (apply Z.ltb_ge; exact E1).
    rewrite E. auto.
  - right. apply Z.leb_gt in E1.
    assert (E : (FixedLagBuffer._buffer_time b <? TimeData.meas_time e)%Z = true)
      by (apply Z.ltb_lt; exact E1).
    rewrite E. simpl.
    destruct (TimeData.meas_time e <=? time - FixedLagBuffer._fixed_lag_delay b)%Z; auto.
Qed.

(** [fl_single_late] holds B at 45 ms and A at 100 ms and at 150 ms behind a
    [buffer_time] of 50 ms; the lag is 50 ms.  A [pop] at 160 ms releases A
    at 100 ms, discards B and keeps A at 150 ms. *)
Lemma fixed_lag_single_release_witness :
  exists b',
    FixedLagBuffer.pop Examples.insertion_order Examples.fl_single_late (Examples.ms 160)
    = Some (PopReturn.make (Examples.ms 100)
              [TimeData.of_sample Examples.sensor_a (Examples.ms 160) (Examples.ms 100) tt]
              [TimeData.of_sample Examples.sensor_b (Examples.ms 130) (Examples.ms 45) tt],
            b')
    /\ FixedLagBuffer._buffer_time b' = Examples.ms 100
    /\ Permutation (FixedLagBuffer._data b')
         [TimeData.of_sample Examples.sensor_a (Examples.ms 210) (Examples.ms 150) tt]
    /\ queue_sorted (FixedLagBuffer._data b').
Proof.
  exact (@fixed_lag_single_release unit Examples.insertion_order Examples.fl_single_late
           (Examples.ms 160) eq_refl
           ltac:(repeat constructor; unfold meas_le; simpl; lia)).
Defined.

(** X16.  In Match mode a [pop] of the fixed-lag buffer that releases
    anything releases a tuple: [num_streams] samples of pairwise different
    sources, one of them of the reference stream.  The iteration over the
    matching map is taken to visit every key once. *)
Theorem fixed_lag_match_tuple (Data : Type)
  (iteration_order : list SourceId -> list SourceId)
  (b : FixedLagBuffer.t Data) (time : Time) r b' :
  (forall keys, Permutation (iteration_order keys) keys) ->
  FixedLagBuffer.mode (FixedLagBuffer._params b) = MATCH ->
  FixedLagBuffer.pop iteration_order b time = Some (r, b') ->
  PopReturn.data r <> [] ->
  NoDup (map TimeData.id (PopReturn.data r))
  /\ length (PopReturn.data r)
     = MatchParams.num_streams (FixedLagBuffer.match_ (FixedLagBuffer._params b))
  /\ In (MatchParams.reference_stream (FixedLagBuffer.match_ (FixedLagBuffer._params b)))
       (map TimeData.id (PopReturn.data r)).
Proof.
  intros Hio Hmode H Hne. unfold FixedLagBuffer.pop in H.
  destruct (FixedLagBuffer.pop_indices iteration_order b time)
    as [[output_inds discard_inds]|] eqn:Ei; [| discriminate].
  destruct (elements_at _ output_inds) as [data|] eqn:Eo; [| discriminate].
  destruct (elements_at _ discard_inds) as [discarded|]; [| discriminate].
  destruct (remove_indices _ _) as [remaining|]; [| discriminate].
  injection H as <- _. simpl in *.
  unfold FixedLagBuffer.pop_indices in Ei.
  destruct (FixedLagBuffer.select _ _ _ _ _ _) as [ready d].
  rewrite Hmode in Ei.
  destruct ready as [|front ready'].
  { injection Ei as <- _. simpl in Eo. injection Eo as <-. congruence. }
  destruct (FixedLagBuffer.runMatching iteration_order b (front :: ready'))
    as [[tuple_inds delete_inds]|] eqn:Em; [| discriminate].
  injection Ei as <- _.
  apply (@fl_runMatching_tuple Data iteration_order) in Em.
  2:{ intros ->. simpl in Eo. injection Eo as <-. congruence. }
  destruct Em as (m & Hown & Hlen & Hkey & ->).
  pose proof (@tuple_ids Data iteration_order Hio _ m data Hown Eo) as Hperm.
  split; [| split].
  - eapply Permutation_NoDup; [apply Permutation_sym, Hperm | apply Hown].
  - rewrite <- Hlen, <- (length_map TimeData.id data).
    rewrite (Permutation_length Hperm). apply length_map.
  - eapply Permutation_in; [apply Permutation_sym, Hperm | exact Hkey].
Qed.

(** [fl_a_before_b] holds A at 50 ms and B at 60 ms; a [pop] at 200 ms
    releases the two. *)
Lemma fixed_lag_match_tuple_witness :
  exists r b',
    FixedLagBuffer.pop Examples.insertion_order Examples.fl_a_before_b (Examples.ms 200)
    = Some (r, b')
    /\ NoDup (map TimeData.id (PopReturn.data r))
    /\ length (PopReturn.data r) = 2
    /\ In Examples.sensor_a (map TimeData.id (PopReturn.data r)).
Proof.
  destruct (FixedLagBuffer.pop Examples.insertion_order Examples.fl_a_before_b
              (Examples.ms 200)) as [[r b']|] eqn:E; [| vm_compute in E; discriminate].
  exists r, b'. split; [reflexivity |].
  apply (@fixed_lag_match_tuple unit Examples.insertion_order Examples.fl_a_before_b
           (Examples.ms 200) r b').
  - intros keys. apply Permutation_refl.
  - reflexivity.
  - exact E.
  - vm_compute in E. injection E as <- _. discriminate.
Defined.

(** X20.  In Match mode, in a state reached from the constructor, a [pop] of
    the minimal-latency buffer that releases anything releases a tuple with
    exactly one sample of every source the buffer has an estimator for.  The
    iteration over the matching map is taken to visit every key once. *)
Theorem minimal_latency_match_tuple (Data : Type)
  (normal_quantile : float -> float -> float -> float) (hypot : float -> float -> float)
  (iteration_order : list SourceId -> list SourceId)
  (b : MinimalLatencyBuffer.t Data) (time : Time) r b' :
  (forall keys, Permutation (iteration_order keys) keys) ->
  minimal_latency_reachable normal_quantile hypot iteration_order b ->
  MinimalLatencyBuffer.mode (MinimalLatencyBuffer._params b) = MATCH ->
  MinimalLatencyBuffer.pop normal_quantile hypot iteration_order b time = Some (r, b') ->
  PopReturn.data r <> [] ->
  Permutation (map TimeData.id (PopReturn.data r))
    (map_keys (MinimalLatencyBuffer._source_infos b)).
Proof.
  intros Hio Hreach Hmode H Hne.
  apply (@reachable_well_formed Data normal_quantile hypot iteration_order) in Hreach.
  unfold MinimalLatencyBuffer.pop in H.
  destruct (time <? _)%Z; [injection H as <- _; simpl in Hne; congruence |].
  destruct (MinimalLatencyBuffer.pop_indices normal_quantile hypot iteration_order b time)
    as [s|] eqn:Es; [| discriminate].
  pose proof (MinimalLatencyFacts.pop_indices_spec _ _ _ _ _ Es) as (Hflag & _).
  destruct (elements_at _ (MinimalLatencyBuffer.output_inds s)) as [output|] eqn:Eo;
    [| discriminate].
  destruct (elements_at _ (MinimalLatencyBuffer.discard_inds s)); [| discriminate].
  destruct (remove_indices _ _); [| discriminate].
  injection H as <- _. simpl in Hne.
  unfold MinimalLatencyBuffer.pop_indices in Es. rewrite Hmode in Es.
  set (s0 := MinimalLatencyBuffer.scan normal_quantile hypot b 0
               (MinimalLatencyBuffer._data b)
               (MinimalLatencyBuffer.mkScan time [] [] [] [] [])) in *.
  destruct (MinimalLatencyBuffer.output_inds s0) as [|front ready'] eqn:Eready.
  { injection Es as <-. rewrite Eready in Eo. simpl in Eo. injection Eo as <-. congruence. }
  rewrite <- Eready in Es.
  destruct (MinimalLatencyBuffer.runMatching iteration_order b
              (MinimalLatencyBuffer._queue s0) (MinimalLatencyBuffer.output_inds s0))
    as [[tuple_inds to_delete]|] eqn:Em; [| discriminate].
  injection Es as <-. simpl in Eo, Hflag.
  apply (@ml_runMatching_tuple Data iteration_order) in Em.
  2:{ intros ->. simpl in Eo. injection Eo as <-. congruence. }
  destruct Em as (m & Hown & Hlen & ->).
  pose proof (@tuple_ids Data iteration_order Hio _ m output Hown Eo) as Hperm.
  eapply Permutation_trans; [exact Hperm |].
  apply NoDup_Permutation_bis.
  - apply Hown.
  - unfold map_keys. rewrite !length_map. lia.
  - intros k Hk. unfold map_keys in Hk. apply in_map_iff in Hk as ([k' e] & <- & Hin).
    destruct Hown as [_ Hall]. rewrite Forall_forall in Hall.
    destruct (Hall _ Hin) as (x & Hx & Hid). simpl in Hx, Hid.
    apply nth_error_In in Hx.
    assert (Hq : Forall (well_formed_sample (MinimalLatencyBuffer._source_infos b))
                   (MinimalLatencyBuffer._queue s0)).
    { eapply Forall2_flagged_Forall; [| exact Hflag | exact Hreach].
      intros e0 e0'. apply flagged_well_formed. }
    rewrite Forall_forall in Hq. destruct (Hq x Hx) as [Hknown _].
    simpl. rewrite <- Hid. exact Hknown.
Qed.

Lemma ml_a_before_b_reachable :
  minimal_latency_reachable Examples.no_quantile Examples.no_hypot Examples.insertion_order
    Examples.ml_a_before_b.
Proof.
  assert (E : Examples.ml_a_before_b
              = snd (Examples.ml_run Examples.insertion_order
                       (MinimalLatencyBuffer.new unit
                          (Examples.ml_params MATCH Examples.sensor_a))
                       [Examples.Push Examples.sensor_a (Examples.ms 60) (Examples.ms 50);
                        Examples.Push Examples.sensor_b (Examples.ms 60) (Examples.ms 60)]))
    by (vm_compute; reflexivity).
  rewrite E. apply ml_run_reachable. apply ml_reach_new.
Qed.

(** [ml_a_before_b] has received A at 50 ms and B at 60 ms; a [pop] at 60 ms
    releases the two. *)
Lemma minimal_latency_match_tuple_witness :
  exists r b',
    Examples.ml_pop Examples.insertion_order Examples.ml_a_before_b (Examples.ms 60)
    = Some (r, b')
    /\ Permutation (map TimeData.id (PopReturn.data r))
         [Examples.sensor_a; Examples.sensor_b].
Proof.
  destruct (Examples.ml_pop Examples.insertion_order Examples.ml_a_before_b
              (Examples.ms 60)) as [[r b']|] eqn:E; [| vm_compute in E; discriminate].
  exists r, b'. split; [reflexivity |].
  apply (@minimal_latency_match_tuple unit Examples.no_quantile Examples.no_hypot
           Examples.insertion_order Examples.ml_a_before_b (Examples.ms 60) r b').
  - intros keys. apply Permutation_refl.
  - exact ml_a_before_b_reachable.
  - reflexivity.
  - exact E.
  - vm_compute in E. injection E as <- _. discriminate.
Defined.

(* ################################################################# *)
(** * The queries and the lag *)

Lemma earliest_receipt_fold : forall (Data : Type) (queue : list (TimeData.t Data)) (start : Time),
  let earliest :=
    fold_left (fun min_receipt_time element =>
                 if TimeData.is_placeholder element then min_receipt_time
                 else Z.min min_receipt_time (TimeData.receipt_time element))
              queue start in
  (earliest <= start)%Z
  /\ (forall e, In e queue -> TimeData.is_placeholder e = false ->
                (earliest <= TimeData.receipt_time e)%Z)
  /\ (earliest = start
      \/ exists e, In e queue /\ TimeData.is_placeholder e = false
                   /\ TimeData.receipt_time e = earliest).
Proof.
  intros Data queue; induction queue as [|x queue IH]; intros start; simpl.
  - split; [lia |]. split; [intros e [] | now left].
  - destruct (TimeData.is_placeholder x) eqn:Ex.
    + destruct (IH start) as (H1 & H2 & H3). cbv zeta in *.
      split; [exact H1 |]. split.
      * intros e [<- | He] Hdata; [congruence | now apply H2].
      * destruct H3 as [H3 | (e & He & Hdata & Hr)]; [now left |].
        right. exists e. auto.
    + destruct (IH (Z.min start (TimeData.receipt_time x))) as (H1 & H2 & H3).
      cbv zeta in *.
      split; [lia |]. split.
      * intros e [<- | He] Hdata; [lia | now apply H2].
      * destruct H3 as [H3 | (e & He & Hdata & Hr)].
        -- destruct (Z.min_spec start (TimeData.receipt_time x)) as [[_ Hm] | [_ Hm]].
           ++ left. etransitivity; [exact H3 | exact Hm].
           ++ right. exists x. split; [now left |]. split; [exact Ex |].
              symmetry. etransitivity; [exact H3 | exact Hm].
        -- right. exists e. auto.
Qed.

(** X21.  [getEarliestHoldBackReceptionTime] is the least [receipt_time] of
    the queued samples with data: it is not later than the [receipt_time] of
    any of them, and it is the [receipt_time] of one of them or [Time::max()];
    placeholders do not count, and with no sample with data in the queue it
    is [Time::max()]. *)
Theorem earliest_hold_back_is_least (Data : Type) (b : MinimalLatencyBuffer.t Data) :
  let earliest := MinimalLatencyBuffer.getEarliestHoldBackReceptionTime b in
  (forall e, In e (MinimalLatencyBuffer._data b) -> TimeData.is_placeholder e = false ->
             (earliest <= TimeData.receipt_time e)%Z)
  /\ (earliest = MinimalLatencyBuffer.Time_max
      \/ exists e, In e (MinimalLatencyBuffer._data b)
                   /\ TimeData.is_placeholder e = false
                   /\ TimeData.receipt_time e = earliest)
  /\ (MinimalLatencyBuffer.getNumberOfQueuedElements b = 0 ->
      earliest = MinimalLatencyBuffer.Time_max).
Proof.
  intros earliest.
  destruct (earliest_receipt_fold (MinimalLatencyBuffer._data b)
              MinimalLatencyBuffer.Time_max) as (_ & Hleast & Hone).
  split; [exact Hleast |]. split; [exact Hone |].
  intros Hnone. destruct Hone as [Hone | (e & He & Hdata & _)]; [exact Hone |].
  unfold MinimalLatencyBuffer.getNumberOfQueuedElements in Hnone.
  apply length_zero_iff_nil in Hnone.
  assert (Hin : In e (filter (fun e => negb (TimeData.is_placeholder e))
                        (MinimalLatencyBuffer._data b)))
    by (apply filter_In; split; [exact He | now rewrite Hdata]).
  rewrite Hnone in Hin. contradiction.
Qed.

Lemma fl_delay_fixed : forall (Data : Type) normal_quantile iteration_order
  (b : FixedLagBuffer.t Data),
  fixed_lag_reachable normal_quantile iteration_order b ->
  FixedLagBuffer._fixed_lag_delay b
  = FixedLagBuffer._fixed_lag_delay
      (FixedLagBuffer.new Data normal_quantile (FixedLagBuffer._params b)).
Proof.
  intros Data normal_quantile iteration_order b H; induction H.
  - reflexivity.
  - rewrite FixedLagFacts.fl_push_reset.
    destruct (_ <? _)%Z; exact IHfixed_lag_reachable.
  - unfold FixedLagBuffer.pop in H0.
    destruct (FixedLagBuffer.pop_indices iteration_order b time) as [[out disc]|];
      [| discriminate].
    destruct (elements_at _ out); [| discriminate].
    destruct (elements_at _ disc); [| discriminate].
    destruct (remove_indices _ _); [| discriminate].
    injection H0 as _ <-. exact IHfixed_lag_reachable.
Qed.

Lemma fl_single_late_reachable :
  fixed_lag_reachable Examples.no_quantile Examples.insertion_order Examples.fl_single_late.
Proof.
  assert (E : Examples.fl_single_late
              = snd (Examples.fl_run Examples.insertion_order
                       (FixedLagBuffer.new unit Examples.no_quantile
                          (Examples.fl_params SINGLE Examples.sensor_a 2))
                       [Examples.Push Examples.sensor_a (Examples.ms 60) (Examples.ms 50);
                        Examples.Pop (Examples.ms 110);
                        Examples.Push Examples.sensor_b (Examples.ms 130) (Examples.ms 45);
                        Examples.Push Examples.sensor_a (Examples.ms 160) (Examples.ms 100);
                        Examples.Push Examples.sensor_a (Examples.ms 210) (Examples.ms 150)]))
    by (vm_compute; reflexivity).
  rewrite E. apply fl_run_reachable. apply fl_reach_new.
Qed.

(** X22.  The lag of the fixed-lag buffer is fixed: in every state reached
    from the constructor it is the lag the constructor derives from the
    parameters the buffer holds.  With a [delay_stddev] of zero that lag is
    [delay_mean], plus [max_delta] in Batch mode. *)
Theorem fixed_lag_delay_is_fixed (Data : Type)
  (normal_quantile : float -> float -> float -> float)
  (iteration_order : list SourceId -> list SourceId) (b : FixedLagBuffer.t Data) :
  fixed_lag_reachable normal_quantile iteration_order b ->
  FixedLagBuffer._fixed_lag_delay b
  = FixedLagBuffer._fixed_lag_delay
      (FixedLagBuffer.new Data normal_quantile (FixedLagBuffer._params b))
  /\ (FixedLagBuffer.delay_stddev (FixedLagBuffer._params b) = 0%Z ->
      FixedLagBuffer._fixed_lag_delay b
      = if BufferMode_eqb (FixedLagBuffer.mode (FixedLagBuffer._params b)) BATCH
        then (FixedLagBuffer.delay_mean (FixedLagBuffer._params b)
              + BatchParams.max_delta (FixedLagBuffer.batch (FixedLagBuffer._params b)))%Z
        else FixedLagBuffer.delay_mean (FixedLagBuffer._params b)).
Proof.
  intros H. apply fl_delay_fixed in H. split; [exact H |].
  intros Hzero. rewrite H. unfold FixedLagBuffer.new. rewrite Hzero.
  replace (FixedLagBuffer.double_epsilon <? duration_seconds 0%Z)%float with false
    by (vm_compute; reflexivity).
  reflexivity.
Qed.

(** [fl_single_late] was made with a delay of 50 ms and no deviation. *)
Lemma fixed_lag_delay_is_fixed_witness :
  FixedLagBuffer._fixed_lag_delay Examples.fl_single_late
  = FixedLagBuffer._fixed_lag_delay
      (FixedLagBuffer.new unit Examples.no_quantile
         (FixedLagBuffer._params Examples.fl_single_late))
  /\ FixedLagBuffer._fixed_lag_delay Examples.fl_single_late = Examples.ms 50.
Proof.
  destruct (@fixed_lag_delay_is_fixed unit Examples.no_quantile Examples.insertion_order
              Examples.fl_single_late fl_single_late_reachable) as [Hlag Hzero].
  split; [exact Hlag | exact (Hzero eq_refl)].
Defined.

(** X23.  Batch mode of the minimal-latency buffer is all or nothing: a
    [pop] discards what the same [pop] would discard in Single mode, and it
    either releases what Single mode would release, leaving the same queue,
    or it releases nothing and leaves [buffer_time] as it was. *)
Theorem batch_releases_all_or_nothing (Data : Type)
  (normal_quantile : float -> float -> float -> float) (hypot : float -> float -> float)
  (iteration_order : list SourceId -> list SourceId)
  (b : MinimalLatencyBuffer.t Data) (time : Time) r b' :
  MinimalLatencyBuffer.mode (MinimalLatencyBuffer._params b) = BATCH ->
  MinimalLatencyBuffer.pop normal_quantile hypot iteration_order b time = Some (r, b') ->
  exists r1 b1,
    MinimalLatencyBuffer.pop normal_quantile hypot iteration_order (with_mode SINGLE b) time
    = Some (r1, b1)
    /\ PopReturn.discarded_data r = PopReturn.discarded_data r1
    /\ ((PopReturn.data r = PopReturn.data r1
         /\ PopReturn.buffer_time r = PopReturn.buffer_time r1
         /\ MinimalLatencyBuffer._data b' = MinimalLatencyBuffer._data b1)
        \/ (PopReturn.data r = []
            /\ PopReturn.buffer_time r = MinimalLatencyBuffer.getBufferTime b)).
Proof.
  intros Hmode H.
  destruct (@MinimalLatencyFacts.pop_total Data normal_quantile hypot iteration_order
              (with_mode SINGLE b) time) as (r1 & b1 & H1); [discriminate |].
  exists r1, b1. split; [exact H1 |].
  unfold MinimalLatencyBuffer.pop in H, H1.
  change (MinimalLatencyBuffer._current_time (with_mode SINGLE b))
    with (MinimalLatencyBuffer._current_time b) in H1.
  destruct (time <? MinimalLatencyBuffer._current_time b)%Z.
  { injection H as <- <-. injection H1 as <- <-. simpl. auto. }
  unfold MinimalLatencyBuffer.pop_indices in H, H1.
  rewrite Hmode in H.
  change (MinimalLatencyBuffer.mode (MinimalLatencyBuffer._params (with_mode SINGLE b)))
    with SINGLE in H1.
  change (MinimalLatencyBuffer._data (with_mode SINGLE b))
    with (MinimalLatencyBuffer._data b) in H1.
  rewrite scan_mode in H1.
  set (s0 := MinimalLatencyBuffer.scan normal_quantile hypot b 0
               (MinimalLatencyBuffer._data b)
               (MinimalLatencyBuffer.mkScan time [] [] [] [] [])) in *.
  assert (H1' : match elements_at (MinimalLatencyBuffer._queue s0)
                        (MinimalLatencyBuffer.output_inds s0),
                      elements_at (MinimalLatencyBuffer._queue s0)
                        (MinimalLatencyBuffer.discard_inds s0) with
                | Some output, Some discarded_data =>
                    match remove_indices (MinimalLatencyBuffer._queue s0)
                            (MinimalLatencyBuffer.delete_inds s0
                             ++ MinimalLatencyBuffer.output_inds s0) with
                    | Some remaining =>
                        Some (PopReturn.make
                                (last_meas_time output (MinimalLatencyBuffer._buffer_time b))
                                output discarded_data,
                              MinimalLatencyBuffer.make
                                (MinimalLatencyBuffer._params (with_mode SINGLE b))
                                (sort_by_meas_time
                                   (remaining ++ MinimalLatencyBuffer.cleaned_data s0))
                                (MinimalLatencyBuffer._source_infos b)
                                (last_meas_time output (MinimalLatencyBuffer._buffer_time b))
                                (MinimalLatencyBuffer._current_time b))
                    | None => None
                    end
                | _, _ => None
                end = Some (r1, b1)).
  { destruct (MinimalLatencyBuffer.output_inds s0); exact H1. }
  clear H1.
  destruct (elements_at _ (MinimalLatencyBuffer.output_inds s0)) as [output1|] eqn:Eo1;
    [| discriminate].
  destruct (elements_at _ (MinimalLatencyBuffer.discard_inds s0)) as [discarded1|] eqn:Ed1;
    [| discriminate].
  destruct (remove_indices _ _) as [remaining1|] eqn:Er1; [| discriminate].
  injection H1' as <- <-. simpl.
  assert (Hcase : MinimalLatencyBuffer.output_inds s0 = []
                  \/ exists front ready',
                       MinimalLatencyBuffer.output_inds s0 = front :: ready')
    by (destruct (MinimalLatencyBuffer.output_inds s0); eauto).
  destruct Hcase as [E | (front & ready' & E)]; rewrite E in H; cbv beta iota in H.
  - rewrite Eo1, Ed1, Er1 in H. injection H as <- <-. simpl. auto.
  - destruct (MinimalLatencyBuffer.runBatching b _ _ _) as [out|] eqn:Eb; [| discriminate].
    apply MinimalLatencyFacts.runBatching_cases in Eb as [-> | ->].
    + cbn [MinimalLatencyBuffer._queue MinimalLatencyBuffer.output_inds
           MinimalLatencyBuffer.discard_inds MinimalLatencyBuffer.delete_inds
           MinimalLatencyBuffer.cleaned_data elements_at] in H.
      rewrite Ed1 in H.
      destruct (remove_indices _ _); [| discriminate].
      injection H as <- <-. simpl. auto.
    + rewrite <- E in H.
      cbn [MinimalLatencyBuffer._queue MinimalLatencyBuffer.output_inds
           MinimalLatencyBuffer.discard_inds MinimalLatencyBuffer.delete_inds
           MinimalLatencyBuffer.cleaned_data] in H.
      rewrite Eo1, Ed1, Er1 in H. injection H as <- <-. simpl. auto.
Qed.

(** At 210 ms [ml_batch_waiting] waits for the sample of B its placeholder
    stands for, where Single mode releases A at 200 ms. *)
Lemma batch_releases_all_or_nothing_witness :
  exists r b' r1 b1,
    Examples.ml_pop Examples.insertion_order Examples.ml_batch_waiting (Examples.ms 210)
    = Some (r, b')
    /\ Examples.ml_pop Examples.insertion_order (with_mode SINGLE Examples.ml_batch_waiting)
         (Examples.ms 210) = Some (r1, b1)
    /\ PopReturn.discarded_data r = PopReturn.discarded_data r1
    /\ PopReturn.data r = []
    /\ map TimeData.meas_time (PopReturn.data r1) = [Examples.ms 200].
Proof.
  destruct (Examples.ml_pop Examples.insertion_order Examples.ml_batch_waiting
              (Examples.ms 210)) as [[r b']|] eqn:E; [| vm_compute in E; discriminate].
  destruct (@batch_releases_all_or_nothing unit Examples.no_quantile Examples.no_hypot
              Examples.insertion_order Examples.ml_batch_waiting (Examples.ms 210) r b'
              eq_refl E) as (r1 & b1 & H1 & Hd & _).
  exists r, b', r1, b1.
  split; [reflexivity |]. split; [exact H1 |]. split; [exact Hd |].
  vm_compute in E. injection E as <- <-.
  vm_compute in H1. injection H1 as <- <-.
  split; reflexivity.
Defined.

(** X24.  [createPlaceholder] returns for a source with an initialised
    estimator only.  With a jitter limit that is not negative, the
    placeholder it returns for the [placeholder_index]-th period behind
    [meas_time] stands within [max_abs_measurement_jitter] of the predicted
    time, [meas_time] plus that many periods, and is waited for at most
    [max_total_wait_time] behind the predicted time. *)
Theorem placeholder_within_limits (Data : Type)
  (normal_quantile : float -> float -> float -> float) (hypot : float -> float -> float)
  (b : MinimalLatencyBuffer.t Data) (id : SourceId) (meas_time : Time)
  (placeholder_index : nat) (p : TimeData.t Data) :
  MinimalLatencyBuffer.createPlaceholder normal_quantile hypot b id meas_time placeholder_index
  = Some p ->
  (0 <= MinimalLatencyBuffer.max_abs_measurement_jitter (MinimalLatencyBuffer._params b))%Z ->
  exists estimator,
    map_find id (MinimalLatencyBuffer._source_infos b) = Some estimator
    /\ Estimator.isInitialized estimator = true
    /\ TimeData.is_placeholder p = true
    /\ TimeData.id p = id
    /\ (Z.abs (TimeData.meas_time p
               - (meas_time + Z.of_nat placeholder_index * Estimator.period estimator))
        <= MinimalLatencyBuffer.max_abs_measurement_jitter (MinimalLatencyBuffer._params b))%Z
    /\ (TimeData.receipt_time p
        <= meas_time + Z.of_nat placeholder_index * Estimator.period estimator
           + MinimalLatencyBuffer.max_total_wait_time (MinimalLatencyBuffer._params b))%Z.
Proof.
  intros H Hj. unfold MinimalLatencyBuffer.createPlaceholder in H.
  destruct (map_find id (MinimalLatencyBuffer._source_infos b)) as [estimator|];
    [| discriminate].
  destruct (Estimator.isInitialized estimator) eqn:Einit; [| discriminate].
  injection H as <-. exists estimator.
  destruct (@placeholder_of_limits Data normal_quantile hypot
              (MinimalLatencyBuffer._params b) estimator id meas_time placeholder_index Hj)
    as (H1 & H2 & H3 & H4).
  cbv zeta in H3, H4. auto 6.
Qed.

(** The estimator of A in [ml_burst] is initialised; the limits of
    [ml_params] are 100 s of jitter and 100 ms of waiting. *)
Lemma placeholder_within_limits_witness :
  exists p estimator,
    MinimalLatencyBuffer.createPlaceholder Examples.no_quantile Examples.no_hypot
      Examples.ml_burst Examples.sensor_a (Examples.ms 261) 1 = Some p
    /\ map_find Examples.sensor_a (MinimalLatencyBuffer._source_infos Examples.ml_burst)
       = Some estimator
    /\ (Z.abs (TimeData.meas_time p - (Examples.ms 261 + 1 * Estimator.period estimator))
        <= Examples.ms 100000)%Z
    /\ (TimeData.receipt_time p
        <= Examples.ms 261 + 1 * Estimator.period estimator + Examples.ms 100)%Z.
Proof.
  destruct (MinimalLatencyBuffer.createPlaceholder Examples.no_quantile Examples.no_hypot
              Examples.ml_burst Examples.sensor_a (Examples.ms 261) 1) as [p|] eqn:E;
    [| vm_compute in E; discriminate].
  destruct (@placeholder_within_limits unit Examples.no_quantile Examples.no_hypot
              Examples.ml_burst Examples.sensor_a (Examples.ms 261) 1 p E
              ltac:(vm_compute; discriminate))
    as (estimator & Hfind & _ & _ & _ & Hm & Hr).
  exists p, estimator. split; [reflexivity |]. split; [exact Hfind |].
  split; [exact Hm | exact Hr].
Defined.

(** X25.  No placeholder holds the buffer back for long: in every state
    reached from the constructor, with a jitter limit that is not negative,
    the [receipt_time] of a queued placeholder, up to which [pop] waits for
    the sample it stands for, is at most [max_total_wait_time] plus
    [max_abs_measurement_jitter] behind its [meas_time]. *)
Theorem placeholders_wait_bounded (Data : Type)
  (normal_quantile : float -> float -> float -> float) (hypot : float -> float -> float)
  (iteration_order : list SourceId -> list SourceId) (b : MinimalLatencyBuffer.t Data) :
  minimal_latency_reachable normal_quantile hypot iteration_order b ->
  (0 <= MinimalLatencyBuffer.max_abs_measurement_jitter (MinimalLatencyBuffer._params b))%Z ->
  Forall (fun p =>
            TimeData.is_placeholder p = true ->
            (TimeData.receipt_time p - TimeData.meas_time p
             <= MinimalLatencyBuffer.max_total_wait_time (MinimalLatencyBuffer._params b)
                + MinimalLatencyBuffer.max_abs_measurement_jitter
                    (MinimalLatencyBuffer._params b))%Z)
    (MinimalLatencyBuffer._data b).
Proof.
  intros H Hj.
  exact (@reachable_bounded Data normal_quantile hypot iteration_order b H Hj).
Qed.

(** The eleven placeholders of [ml_burst]. *)
Lemma placeholders_wait_bounded_witness :
  Forall (fun p =>
            TimeData.is_placeholder p = true ->
            (TimeData.receipt_time p - TimeData.meas_time p
             <= Examples.ms 100 + Examples.ms 100000)%Z)
    (MinimalLatencyBuffer._data Examples.ml_burst).
Proof.
  exact (@placeholders_wait_bounded unit Examples.no_quantile Examples.no_hypot
           Examples.insertion_order Examples.ml_burst ml_burst_reachable
           ltac:(vm_compute; discriminate)).
Defined.

Lemma map_find_set_same : forall (V : Type) k (v : V) (m : list (SourceId * V)),
  map_find k (map_set k v m) = Some v.
Proof.
  intros V k v m; induction m as [|[k' v'] m IH]; simpl.
  - now rewrite Nat.eqb_refl.
  - destruct (Nat.eqb k k') eqn:E; simpl; [now rewrite Nat.eqb_refl | now rewrite E].
Qed.

(** X26.  What the minimal-latency buffer reports of a source.  For a source
    it has no estimator for, every estimate is [Duration(0)].  After the
    first sample of the source has been pushed, the estimated latency is the
    difference of [receipt_time] and [meas_time], taken through [double];
    the period and the two deviations are zero, and every quantile is the
    mean. *)
Theorem first_push_estimates (Data : Type)
  (normal_quantile : float -> float -> float -> float) (hypot : float -> float -> float)
  (b : MinimalLatencyBuffer.t Data) (id : SourceId) (receipt_time meas_time : Time)
  (data : Data) (quantile : float) :
  map_find id (MinimalLatencyBuffer._source_infos b) = None ->
  let after :=
    MinimalLatencyBuffer.push normal_quantile hypot b id receipt_time meas_time data in
  fst after = OK ->
  (MinimalLatencyBuffer.getEstimatedLatency b id = 0%Z
   /\ MinimalLatencyBuffer.getEstimatedLatencyStddev b id = 0%Z
   /\ MinimalLatencyBuffer.getEstimatedLatencyQuantile normal_quantile b id quantile = 0%Z
   /\ MinimalLatencyBuffer.getEstimatedPeriod b id = 0%Z
   /\ MinimalLatencyBuffer.getEstimatedPeriodStddev b id = 0%Z
   /\ MinimalLatencyBuffer.getEstimatedPeriodQuantile normal_quantile b id quantile = 0%Z)
  /\ MinimalLatencyBuffer.getEstimatedLatency (snd after) id
     = double_to_rep (Z_to_double (receipt_time - meas_time))
  /\ MinimalLatencyBuffer.getEstimatedLatencyStddev (snd after) id = 0%Z
  /\ MinimalLatencyBuffer.getEstimatedLatencyQuantile normal_quantile (snd after) id quantile
     = double_to_rep (Z_to_double (receipt_time - meas_time))
  /\ MinimalLatencyBuffer.getEstimatedPeriod (snd after) id = 0%Z
  /\ MinimalLatencyBuffer.getEstimatedPeriodStddev (snd after) id = 0%Z
  /\ MinimalLatencyBuffer.getEstimatedPeriodQuantile normal_quantile (snd after) id quantile
     = 0%Z.
Proof.
  intros Hfind after Hok. subst after.
  split.
  { unfold MinimalLatencyBuffer.getEstimatedLatency,
      MinimalLatencyBuffer.getEstimatedLatencyStddev,
      MinimalLatencyBuffer.getEstimatedLatencyQuantile,
      MinimalLatencyBuffer.getEstimatedPeriod,
      MinimalLatencyBuffer.getEstimatedPeriodStddev,
      MinimalLatencyBuffer.getEstimatedPeriodQuantile,
      MinimalLatencyBuffer.estimate_of.
    rewrite Hfind. auto 7. }
  unfold MinimalLatencyBuffer.push in *.
  destruct (_ <? _)%Z; [discriminate |].
  rewrite Hfind in *.
  unfold MinimalLatencyBuffer.getEstimatedLatency,
    MinimalLatencyBuffer.getEstimatedLatencyStddev,
    MinimalLatencyBuffer.getEstimatedLatencyQuantile,
    MinimalLatencyBuffer.getEstimatedPeriod,
    MinimalLatencyBuffer.getEstimatedPeriodStddev,
    MinimalLatencyBuffer.getEstimatedPeriodQuantile,
    MinimalLatencyBuffer.estimate_of.
  cbn [snd MinimalLatencyBuffer._source_infos].
  rewrite map_find_set_same.
  repeat split; reflexivity.
Qed.

(** The first sample of A, measured at 50 ms and received at 60 ms: the
    latency is 10 ms. *)
Lemma first_push_estimates_witness :
  let after :=
    Examples.ml_push (MinimalLatencyBuffer.new unit (Examples.ml_params SINGLE Examples.sensor_a))
      Examples.sensor_a (Examples.ms 60) (Examples.ms 50) in
  MinimalLatencyBuffer.getEstimatedLatency (snd after) Examples.sensor_a = Examples.ms 10
  /\ MinimalLatencyBuffer.getEstimatedPeriod (snd after) Examples.sensor_a = 0%Z
  /\ MinimalLatencyBuffer.getEstimatedLatencyQuantile Examples.no_quantile (snd after)
       Examples.sensor_a 0x1p-1%float = Examples.ms 10.
Proof.
  destruct (@first_push_estimates unit Examples.no_quantile Examples.no_hypot
              (MinimalLatencyBuffer.new unit (Examples.ml_params SINGLE Examples.sensor_a))
              Examples.sensor_a (Examples.ms 60) (Examples.ms 50) tt 0x1p-1%float
              eq_refl eq_refl)
    as (_ & Hl & _ & Hq & Hp & _).
  split; [exact Hl |]. split; [exact Hp | exact Hq].
Defined.

(* ################################################################# *)
(** * The unit tests of the library *)

(** The embedding passes the expectations of the unit tests it can replay:
    the number of released and of discarded samples of every [pop], and
    the exception of the estimator. *)

Section UnitTests.
Import Examples.

(** [Estimator.MissingMeasurements]: period and latency stay at 50 ms and
    10 ms with no deviation, the updates up to the last one return and lead
    to [desync_example], and the last one throws. *)
Lemma test_missing_measurements :
  let first :=
    [(ms 110, ms 100, 0); (ms 160, ms 150, 0); (ms 210, ms 200, 0); (ms 260, ms 250, 0);
     (ms 360, ms 350, 1)] in
  let rest :=
    (ms 410, ms 400, 2)
    :: map (fun k => (ms (310 + 50 * k), ms (300 + 50 * k), 0))
         [0; 1; 2; 3; 4; 5; 6; 7; 8; 9]%Z in
  let e := snd (estimator_run (Estimator.new (ms 60) (ms 50) Estimator.default_alpha)
                  first) in
  (Estimator.period e, Estimator.period_stddev e,
   Estimator.latency e, Estimator.latency_stddev e) = (ms 50, 0%Z, ms 10, 0%Z)
  /\ estimator_run e rest = (Estimator.Returned tt, desync_example)
  /\ fst (estimator_run desync_example [(ms 810, ms 800, 10)])
     = Estimator.Thrown.
Proof. vm_compute. repeat split. Qed.

(** [MinimalLatencyBufferTwoSources.lateJoiningSensorWithHigherLatency] *)
Lemma test_late_joining_higher_latency :
  let A := sensor_a in
  let B := sensor_b in
  counts
    (fst (ml_run insertion_order
            (MinimalLatencyBuffer.new unit (ml_params SINGLE A))
            [Pop (ms 10);
             Push A (ms 60) (ms 50); Pop (ms 60);
             Pop (ms 60); Pop (ms 61);
             Push A (ms 110) (ms 100); Pop (ms 110);
             Push B (ms 150) (ms 90); Pop (ms 150);
             Pop (ms 151);
             Push A (ms 160) (ms 150); Pop (ms 160);
             Push B (ms 200) (ms 140); Pop (ms 200);
             Push A (ms 210) (ms 200); Pop (ms 210);
             Push B (ms 250) (ms 190); Pop (ms 250);
             Push A (ms 260) (ms 250); Pop (ms 260);
             Push B (ms 300) (ms 240); Pop (ms 300)]))
  = [(0, 0); (1, 0); (0, 0); (0, 0); (1, 0); (0, 1); (0, 0); (1, 0); (0, 1); (1, 0);
     (0, 1); (0, 0); (2, 0)].
Proof. vm_compute. reflexivity. Qed.

(** [MinimalLatencyBufferTwoSources.lateJoiningSensorWithLowerLatency] *)
Lemma test_late_joining_lower_latency :
  let A := sensor_a in
  let B := sensor_b in
  counts
    (fst (ml_run insertion_order
            (MinimalLatencyBuffer.new unit (ml_params SINGLE A))
            [Pop (ms 10);
             Push B (ms 110) (ms 50); Pop (ms 110);
             Pop (ms 111);
             Push B (ms 160) (ms 100); Pop (ms 160);
             Push B (ms 210) (ms 150); Pop (ms 210);
             Push A (ms 220) (ms 210); Pop (ms 220);
             Push B (ms 260) (ms 200); Pop (ms 260);
             Push A (ms 270) (ms 260); Pop (ms 270);
             Push B (ms 310) (ms 250); Pop (ms 310)]))
  = [(0, 0); (1, 0); (0, 0); (1, 0); (1, 0); (0, 0); (2, 0); (0, 0); (2, 0)].
Proof. vm_compute. reflexivity. Qed.

(** [MinimalLatencyBufferTwoSources.simulataneousSensorStart] *)
Lemma test_simultaneous_sensor_start :
  let A := sensor_a in
  let B := sensor_b in
  counts
    (fst (ml_run insertion_order
            (MinimalLatencyBuffer.new unit (ml_params SINGLE A))
            [Pop (ms 10); Push A (ms 60) (ms 50); Pop (ms 60);
             Push B (ms 70) (ms 10); Pop (ms 70); Push A (ms 110) (ms 100);
             Pop (ms 110); Push B (ms 120) (ms 60); Pop (ms 120);
             Push A (ms 160) (ms 150); Pop (ms 160); Push B (ms 170) (ms 110);
             Pop (ms 170); Push A (ms 210) (ms 200); Pop (ms 210);
             Push B (ms 220) (ms 160); Pop (ms 220); Push A (ms 260) (ms 250);
             Pop (ms 260); Push B (ms 270) (ms 210); Pop (ms 270)]))
  = [(0, 0); (1, 0); (0, 1); (1, 0); (0, 1); (1, 0); (0, 1); (0, 0); (2, 0); (0, 0);
     (2, 0)].
Proof. vm_compute. reflexivity. Qed.

(** [MinimalLatencyBufferTwoSources.differentSensorFrequencies] *)
Lemma test_different_sensor_frequencies :
  let A := sensor_a in
  let B := sensor_b in
  counts
    (fst (ml_run insertion_order
            (MinimalLatencyBuffer.new unit (ml_params SINGLE A))
            [Pop (ms 10); Push A (ms 50) (ms 40); Pop (ms 50);
             Push A (ms 100) (ms 90); Pop (ms 100); Push B (ms 110) (ms 50);
             Pop (ms 110); Push A (ms 150) (ms 140); Pop (ms 150);
             Push A (ms 200) (ms 190); Pop (ms 200); Push B (ms 210) (ms 150);
             Pop (ms 210); Push A (ms 250) (ms 240); Pop (ms 250);
             Push A (ms 300) (ms 290); Pop (ms 300); Push B (ms 310) (ms 250);
             Pop (ms 310); Push A (ms 350) (ms 340); Pop (ms 350);
             Push A (ms 400) (ms 390); Pop (ms 400); Push B (ms 410) (ms 350);
             Pop (ms 410); Push A (ms 450) (ms 440); Pop (ms 450);
             Push A (ms 500) (ms 490); Pop (ms 500); Push B (ms 510) (ms 450);
             Pop (ms 510)]))
  = [(0, 0); (1, 0); (1, 0); (0, 1); (1, 0); (1, 0); (0, 1); (1, 0); (1, 0); (0, 1);
     (1, 0); (0, 0); (2, 0); (1, 0); (0, 0); (2, 0)].
Proof. vm_compute. reflexivity. Qed.

(** [MinimalLatencyBufferTwoSources.missingMeasurements] *)
Lemma test_missing_measurements_buffer :
  let A := sensor_a in
  let B := sensor_b in
  counts
    (fst (ml_run insertion_order
            (MinimalLatencyBuffer.new unit (ml_params SINGLE A))
            [Pop (ms 10); Push A (ms 50) (ms 40); Pop (ms 50);
             Push A (ms 100) (ms 90); Pop (ms 100); Push B (ms 110) (ms 50);
             Pop (ms 110); Push A (ms 150) (ms 140); Pop (ms 150);
             Push A (ms 200) (ms 190); Pop (ms 200); Push B (ms 210) (ms 150);
             Pop (ms 210); Push A (ms 250) (ms 240); Pop (ms 250); Pop (ms 300);
             Push B (ms 310) (ms 250); Pop (ms 310); Push A (ms 350) (ms 340);
             Pop (ms 350); Push A (ms 400) (ms 390); Pop (ms 400);
             Push B (ms 410) (ms 350); Pop (ms 410)]))
  = [(0, 0); (1, 0); (1, 0); (0, 1); (1, 0); (1, 0); (0, 1); (1, 0); (0, 0); (1, 0);
     (1, 0); (0, 0); (2, 0)].
Proof. vm_compute. reflexivity. Qed.

(** [MinimalLatencyBufferTwoSources.synchronizedSensorsWithBatching] *)
Lemma test_synchronized_sensors_with_batching :
  let A := sensor_a in
  let B := sensor_b in
  counts
    (fst (ml_run insertion_order
            (MinimalLatencyBuffer.new unit (ml_params BATCH A))
            [Pop (ms 10); Push A (ms 60) (ms 50); Pop (ms 60);
             Push B (ms 75) (ms 55); Pop (ms 75); Push A (ms 110) (ms 100);
             Pop (ms 110); Push B (ms 125) (ms 105); Pop (ms 125);
             Push A (ms 160) (ms 150); Pop (ms 160); Push B (ms 175) (ms 155);
             Pop (ms 175); Push A (ms 210) (ms 200); Pop (ms 210);
             Push B (ms 225) (ms 205); Pop (ms 225); Push A (ms 260) (ms 250);
             Pop (ms 260); Push B (ms 275) (ms 255); Pop (ms 275);
             Push A (ms 310) (ms 300); Pop (ms 310); Pop (ms 320); Pop (ms 325);
             Pop (ms 330); Push A (ms 360) (ms 350); Pop (ms 360);
             Push B (ms 375) (ms 355); Pop (ms 375)]))
  = [(0, 0); (1, 0); (1, 0); (1, 0); (1, 0); (1, 0); (1, 0); (0, 0); (2, 0); (0, 0);
     (2, 0); (0, 0); (0, 0); (1, 0); (0, 0); (0, 0); (2, 0)].
Proof. vm_compute. reflexivity. Qed.

(** [MinimalLatencyBufferTwoSources.zeroLatency] *)
Lemma test_zero_latency :
  let A := sensor_a in
  let B := sensor_b in
  counts
    (fst (ml_run insertion_order
            (MinimalLatencyBuffer.new unit (ml_params SINGLE A))
            [Pop (ms 10); Push A (ms 60) (ms 60); Pop (ms 60);
             Push B (ms 60) (ms 60); Pop (ms 60); Push A (ms 110) (ms 110);
             Pop (ms 110); Push B (ms 110) (ms 110); Pop (ms 110);
             Push A (ms 160) (ms 160); Pop (ms 160); Push B (ms 160) (ms 160);
             Pop (ms 160); Push A (ms 210) (ms 210); Pop (ms 210);
             Push B (ms 210) (ms 210); Pop (ms 210); Push A (ms 260) (ms 260);
             Push B (ms 260) (ms 260); Pop (ms 260)]))
  = [(0, 0); (1, 0); (1, 0); (1, 0); (1, 0); (1, 0); (1, 0); (1, 0); (1, 0); (2, 0)].
Proof. vm_compute. reflexivity. Qed.

(** [FixedLagBufferTwoSources.Single] *)
Lemma test_fixed_lag_single :
  let A := sensor_a in
  let B := sensor_b in
  counts
    (fst (fl_run insertion_order
            (FixedLagBuffer.new unit boost_quantile (fl_test_params SINGLE A 0))
            [Pop (ms 10); Push A (ms 60) (ms 50); Pop (ms 60); Pop (ms 60);
             Pop (ms 61); Push A (ms 110) (ms 100); Push B (ms 110) (ms 60);
             Pop (ms 110); Pop (ms 50 + delay); Pop (ms 100 + delay)])%Z)
  = [(0, 0); (0, 0); (0, 0); (0, 0); (0, 0); (1, 0); (2, 0)].
Proof. vm_compute. reflexivity. Qed.

(** [FixedLagBufferTwoSources.BatchingLateIncomming] *)
Lemma test_fixed_lag_batching_late_incoming :
  let A := sensor_a in
  let B := sensor_b in
  let delay_b := (delay + ms 10)%Z in
  counts
    (fst (fl_run insertion_order
            (FixedLagBuffer.new unit boost_quantile (fl_test_params BATCH A 0))
            [Pop (ms 10); Push A (ms 60) (ms 50); Pop (ms 60); Pop (ms 60);
             Pop (ms 61); Push A (ms 110) (ms 100);
             Push B (ms 55 + delay_b) (ms 60); Pop (ms 110); Pop (ms 50 + delay_b);
             Pop (ms 100 + delay_b); Pop (ms 100 + delay_b);
             Push A (ms 210) (ms 200); Push B (ms 230) (ms 195);
             Pop (ms 200 + delay_b)])%Z)
  = [(0, 0); (0, 0); (0, 0); (0, 0); (0, 0); (1, 0); (1, 0); (1, 0); (2, 0)].
Proof. vm_compute. reflexivity. Qed.

(** [FixedLagBufferTwoSources.BatchingCloseMeasurements] *)
Lemma test_fixed_lag_batching_close_measurements :
  let A := sensor_a in
  let B := sensor_b in
  let delay_b := (delay + ms 10)%Z in
  counts
    (fst (fl_run insertion_order
            (FixedLagBuffer.new unit boost_quantile (fl_test_params BATCH A 0))
            [Push A (ms 60) (ms 50); Push A (ms 61) (ms 59); Pop (ms 60 + delay_b)])%Z)
  = [(2, 0)].
Proof. vm_compute. reflexivity. Qed.

(** [FixedLagBufferTwoSources.Matching] *)
Lemma test_fixed_lag_matching :
  let A := sensor_a in
  let B := sensor_b in
  counts
    (fst (fl_run insertion_order
            (FixedLagBuffer.new unit boost_quantile (fl_test_params MATCH A 2))
            [Pop (ms 10); Push A (ms 60) (ms 50); Pop (ms 60); Pop (ms 60);
             Pop (ms 61); Push B (ms 120) (ms 60); Pop (ms 50 + delay);
             Pop (ms 110 + delay); Push A (ms 250) (ms 200); Pop (ms 260);
             Push A (ms 300) (ms 250); Pop (ms 300); Push B (ms 305) (ms 230);
             Pop (ms 305); Pop (ms 250 + delay)])%Z)
  = [(0, 0); (0, 0); (0, 0); (0, 0); (2, 0); (0, 0); (0, 0); (0, 0); (0, 1); (2, 0)].
Proof. vm_compute. reflexivity. Qed.

End UnitTests.
